(** * Vertical split diff worker

    A shallow embedding of [go/vt/worker/vertical_split_diff.go]: the
    worker that checks a vertical split by pausing replication on a
    source and a destination tablet at matching positions and diffing
    every destination table against its source.

    The Go methods of [VerticalSplitDiffWorker] become functions in a
    state-and-error monad over the worker's fields and an opaque remote
    world.  Remote calls (topology server, tablet manager, row streams)
    are fields of a record of collaborators; goroutines are run under an
    explicit schedule. *)

From Stdlib Require Import List String Ascii Bool Arith NArith ZArith Lia.
From Stdlib Require Import DecimalString.
Import ListNotations.
Local Open Scope list_scope.
Local Open Scope string_scope.

Set Implicit Arguments.

(** ** Errors and results *)

(** A non-nil Go [error], by its message. *)
Definition error := string.

(** The result of a Go call returning [(value, error)].  [Panic] is a
    run-time panic (nil dereference, index out of range). *)
Inductive Res (A : Type) : Type :=
| Ok (a : A)
| Err (e : error)
| Panic.
Arguments Ok {A} a.
Arguments Err {A} e.
Arguments Panic {A}.

(** What a collaborator answers: a value or a non-nil error. *)
Inductive Reply (A : Type) : Type :=
| Value (a : A)
| Error (e : error).
Arguments Value {A} a.
Arguments Error {A} e.

Definition valueOf {A : Type} (r : Reply A) : option A :=
  match r with Value a => Some a | Error _ => None end.

(** A call returning only [error]: [Ok tt] is [nil]. *)
Definition isNil (r : Res unit) : bool :=
  match r with Ok _ => true | _ => false end.

Definition resOfErr (e : option error) : Res unit :=
  match e with None => Ok tt | Some m => Err m end.

(** [fmt]'s [%v] of an unsigned integer. *)
Definition fmtN (n : N) : string := NilEmpty.string_of_uint (N.to_uint n).

(** ** Logger *)

Inductive Level := INFO | WARNING | ERROR.

Definition LogEntry : Type := Level * string.

(** ** concurrency.AllErrorRecorder *)

Module AllErrorRecorder.

(** Modelled from the spec: the error accumulator
    ([concurrency.AllErrorRecorder], not part of the source file) is a
    multi-error collector; its aggregate is empty iff nothing was
    recorded.  Recording a nil error records nothing. *)
Definition t := list error.

Definition empty : t := [].

Definition RecordError (rec : t) (err : option error) : t :=
  match err with
  | None => rec
  | Some e => (rec ++ [e])%list
  end.

Definition HasErrors (rec : t) : bool :=
  match rec with [] => false | _ => true end.

(** The aggregated error: nil when nothing was recorded, otherwise the
    messages joined by [";"]. *)
Definition Error (rec : t) : option error :=
  match rec with
  | [] => None
  | _ => Some (String.concat ";" rec)
  end.

End AllErrorRecorder.

(** ** sync2.Semaphore *)

Module Semaphore.

(** Modelled from the spec: the counting semaphore ([sync2.Semaphore], not
    part of the source file) admits at most a fixed number of holders;
    [slots] is that number and [held] the slots taken. *)
Record t := { slots : nat; held : nat }.

Definition NewSemaphore (count : nat) : t := {| slots := count; held := 0 |}.

(** [Acquire] takes a slot when one is free; [None] when the caller has
    to wait. *)
Definition Acquire (s : t) : option t :=
  if Nat.ltb (held s) (slots s) then Some {| slots := slots s; held := S (held s) |}
  else None.

Definition Release (s : t) : t := {| slots := slots s; held := pred (held s) |}.

End Semaphore.

(** ** Topology data *)

Inductive TabletType :=
| TYPE_MASTER | TYPE_REPLICA | TYPE_RDONLY | TYPE_SPARE | TYPE_WORKER.

Inductive WorkerState :=
| WorkerStateNotStarted
| WorkerStateInit
| WorkerStateFindTargets
| WorkerStateSyncReplication
| WorkerStateDiff
| WorkerStateCleanUp
| WorkerStateDone
| WorkerStateError.

Definition WorkerState_eqb (a b : WorkerState) : bool :=
  match a, b with
  | WorkerStateNotStarted, WorkerStateNotStarted
  | WorkerStateInit, WorkerStateInit
  | WorkerStateFindTargets, WorkerStateFindTargets
  | WorkerStateSyncReplication, WorkerStateSyncReplication
  | WorkerStateDiff, WorkerStateDiff
  | WorkerStateCleanUp, WorkerStateCleanUp
  | WorkerStateDone, WorkerStateDone
  | WorkerStateError, WorkerStateError => true
  | _, _ => false
  end.

(** [myproto.TableDefinition] and [myproto.SchemaDefinition]: the worker
    reads only the table name and the ordered table list. *)
Record TableDefinition := {
  Name : string;
  Columns : list string;
  PrimaryKeyColumns : list string
}.

Record SchemaDefinition := {
  TableDefinitions : list TableDefinition
}.

(** [topo.SourceShard]: one source of filtered replication. *)
Record SourceShard := {
  Uid : N;
  Keyspace : string;
  Shard : string;
  Tables : list string
}.

(** [topo.KeyspaceInfo]: the served-from records, by served type. *)
Record KeyspaceInfo := {
  ServedFroms : list (TabletType * string)
}.

(** ** The opaque types of the collaborators *)

Record Types := {
  TabletAlias : Type;          (* topo.TabletAlias *)
  TabletInfo : Type;           (* *topo.TabletInfo *)
  ReplicationPosition : Type;  (* myproto.ReplicationPosition *)
  QueryResultReader : Type;    (* *QueryResultReader *)
  RowDiffer : Type;            (* *RowDiffer *)
  DiffReport : Type;           (* DiffReport *)
  World : Type                 (* everything remote: topology, tablets, clock *)
}.

(** ** regexp *)

(** The two functions of Go's [regexp] package the worker uses. *)
Record RegexpLib := {
  Regexp : Type;
  Compile : string -> Reply Regexp;
  MatchString : Regexp -> string -> bool
}.

(** ** A model of the [regexp] package

    [regexp.Compile] and [Regexp.MatchString] for a fragment of the RE2
    syntax: literal characters, [.], [^], [$], groups, alternation, the
    repetitions [*], [+], [?] and their non-greedy forms, and escaped
    punctuation, over ASCII text.  Character classes, counted
    repetition, flags and the letter escapes are outside the fragment;
    the model rejects them, so it says nothing about such patterns. *)
Module GoRegexp.

(** The operators of [regexp/syntax] the fragment needs. *)
Inductive Regexp :=
| OpNoMatch
| OpEmptyMatch
| OpLiteral (c : ascii)
| OpAnyCharNotNL
| OpBeginText
| OpEndText
| OpConcat (a b : Regexp)
| OpAlternate (a b : Regexp)
| OpStar (a : Regexp)
| OpPlus (a : Regexp)
| OpQuest (a : Regexp).

(** *** Parsing *)

(** What the parser holds for the group it is in: the alternatives
    already closed by a [|] and the items of the concatenation being
    read, last first. *)
Record frame := { alts : list Regexp; cur : list Regexp }.

Definition emptyFrame : frame := {| alts := []; cur := [] |}.

Definition concat (items : list Regexp) : Regexp :=
  match rev items with
  | [] => OpEmptyMatch
  | r :: rs => fold_left OpConcat rs r
  end.

Definition alternate (branches : list Regexp) : Regexp :=
  match rev branches with
  | [] => OpNoMatch
  | r :: rs => fold_left OpAlternate rs r
  end.

Definition collapse (f : frame) : Regexp :=
  alternate (concat (cur f) :: alts f).

Definition parseError (code expr : string) : error :=
  "error parsing regexp: " ++ code ++ ": `" ++ expr ++ "`".

Definition isRepeatOp (c : ascii) : bool :=
  Ascii.eqb c "*" || Ascii.eqb c "+" || Ascii.eqb c "?".

Definition repeatOf (c : ascii) (r : Regexp) : Regexp :=
  if Ascii.eqb c "*" then OpStar r
  else if Ascii.eqb c "+" then OpPlus r
  else OpQuest r.

Definition isAlnum (c : ascii) : bool :=
  let n := nat_of_ascii c in
  (Nat.leb 48 n && Nat.leb n 57) || (Nat.leb 65 n && Nat.leb n 90)
  || (Nat.leb 97 n && Nat.leb n 122).

(** A repetition operator [op] (its text, with the [?] of a non-greedy
    form) applied to the last item read. *)
Definition applyRepeat (c : ascii) (op lastRepeat : string) (f : frame)
  : Reply frame :=
  if negb (String.eqb lastRepeat "") then
    Error (parseError "invalid nested repetition operator" (lastRepeat ++ op))
  else
    match cur f with
    | [] => Error (parseError "missing argument to repetition operator" op)
    | r :: items => Value {| alts := alts f; cur := repeatOf c r :: items |}
    end.

Definition push (r : Regexp) (f : frame) : frame :=
  {| alts := alts f; cur := r :: cur f |}.

Definition unsupported : error := "pattern outside the modelled fragment".

(** The parser's loop over the pattern: [stack] holds the enclosing
    groups, [f] the group being read and [lastRepeat] the text of the
    repetition operator just read, if any. *)
Fixpoint parse (whole : string) (t : list ascii) (stack : list frame) (f : frame)
    (lastRepeat : string) : Reply Regexp :=
  match t with
  | [] =>
      match stack with
      | [] => Value (collapse f)
      | _ :: _ => Error (parseError "missing closing )" whole)
      end
  | c :: t' =>
      if Ascii.eqb c "(" then
        match t' with
        | "?"%char :: _ => Error unsupported
        | _ => parse whole t' (f :: stack) emptyFrame ""
        end
      else if Ascii.eqb c "|" then
        parse whole t' stack {| alts := concat (cur f) :: alts f; cur := [] |} ""
      else if Ascii.eqb c ")" then
        match stack with
        | [] => Error (parseError "unexpected )" whole)
        | g :: stack' => parse whole t' stack' (push (collapse f) g) ""
        end
      else if Ascii.eqb c "^" then parse whole t' stack (push OpBeginText f) ""
      else if Ascii.eqb c "$" then parse whole t' stack (push OpEndText f) ""
      else if Ascii.eqb c "." then parse whole t' stack (push OpAnyCharNotNL f) ""
      else if isRepeatOp c then
        match t' with
        | "?"%char :: t'' =>
            let op := String c (String "?" EmptyString) in
            match applyRepeat c op lastRepeat f with
            | Error e => Error e
            | Value f' => parse whole t'' stack f' op
            end
        | _ =>
            let op := String c EmptyString in
            match applyRepeat c op lastRepeat f with
            | Error e => Error e
            | Value f' => parse whole t' stack f' op
            end
        end
      else if Ascii.eqb c "\" then
        match t' with
        | [] => Error (parseError "trailing backslash at end of expression" "")
        | d :: t'' =>
            if Nat.ltb (nat_of_ascii d) 128 && negb (isAlnum d)
            then parse whole t'' stack (push (OpLiteral d) f) ""
            else Error unsupported
        end
      else if Ascii.eqb c "[" || Ascii.eqb c "{" || negb (Nat.ltb (nat_of_ascii c) 128)
      then Error unsupported
      else parse whole t' stack (push (OpLiteral c) f) ""
  end.

Definition Compile (expr : string) : Reply Regexp :=
  parse expr (list_ascii_of_string expr) [] emptyFrame "".

(** *** Matching *)

(** Does [r] match the empty string at a position that is at the
    beginning of the text ([atBegin]) and at its end ([atEnd])? *)
Fixpoint nullable (r : Regexp) (atBegin atEnd : bool) : bool :=
  match r with
  | OpNoMatch => false
  | OpEmptyMatch => true
  | OpLiteral _ => false
  | OpAnyCharNotNL => false
  | OpBeginText => atBegin
  | OpEndText => atEnd
  | OpConcat a b => nullable a atBegin atEnd && nullable b atBegin atEnd
  | OpAlternate a b => nullable a atBegin atEnd || nullable b atBegin atEnd
  | OpStar _ => true
  | OpPlus a => nullable a atBegin atEnd
  | OpQuest _ => true
  end.

Definition newline : ascii := ascii_of_nat 10.

(** What is left of [r] to match once it has read the character [c] at
    a position that is ([atBegin]) or is not at the beginning of the
    text. *)
Fixpoint deriv (atBegin : bool) (c : ascii) (r : Regexp) : Regexp :=
  match r with
  | OpNoMatch => OpNoMatch
  | OpEmptyMatch => OpNoMatch
  | OpLiteral d => if Ascii.eqb c d then OpEmptyMatch else OpNoMatch
  | OpAnyCharNotNL => if Ascii.eqb c newline then OpNoMatch else OpEmptyMatch
  | OpBeginText => OpNoMatch
  | OpEndText => OpNoMatch
  | OpConcat a b =>
      OpAlternate (OpConcat (deriv atBegin c a) b)
        (if nullable a atBegin false then deriv atBegin c b else OpNoMatch)
  | OpAlternate a b => OpAlternate (deriv atBegin c a) (deriv atBegin c b)
  | OpStar a => OpConcat (deriv atBegin c a) (OpStar a)
  | OpPlus a => OpConcat (deriv atBegin c a) (OpStar a)
  | OpQuest a => deriv atBegin c a
  end.

Definition isNil {A : Type} (l : list A) : bool :=
  match l with [] => true | _ :: _ => false end.

(** Does [r] match some prefix of [s], the rest of the text? *)
Fixpoint matchPrefix (r : Regexp) (atBegin : bool) (s : list ascii) : bool :=
  nullable r atBegin (isNil s)
  || match s with
     | [] => false
     | c :: s' => matchPrefix (deriv atBegin c r) false s'
     end.

(** Does [r] match at some position of [s]? *)
Fixpoint search (r : Regexp) (atBegin : bool) (s : list ascii) : bool :=
  matchPrefix r atBegin s
  || match s with
     | [] => false
     | _ :: s' => search r false s'
     end.

(** [MatchString] reports whether the string contains any match of the
    regular expression. *)
Definition MatchString (r : Regexp) (s : string) : bool :=
  search r true (list_ascii_of_string s).

(** The patterns and the texts the model speaks of. *)
Definition inFragment (expr : string) : Prop := Compile expr <> Error unsupported.

Definition isASCII (s : string) : bool :=
  forallb (fun c => Nat.ltb (nat_of_ascii c) 128) (list_ascii_of_string s).

(** *** What a match is *)

(** [Matches r atBegin mid atEnd]: [r] matches the piece [mid] of a
    text, where [atBegin] tells that nothing comes before [mid] and
    [atEnd] that nothing comes after it. *)
Inductive Matches : Regexp -> bool -> list ascii -> bool -> Prop :=
| MEmpty b e : Matches OpEmptyMatch b [] e
| MLiteral c b e : Matches (OpLiteral c) b [c] e
| MAny c b e : c <> newline -> Matches OpAnyCharNotNL b [c] e
| MBegin e : Matches OpBeginText true [] e
| MEnd b : Matches OpEndText b [] true
| MConcat r1 r2 b m1 m2 e :
    Matches r1 b m1 (isNil m2 && e) ->
    Matches r2 (isNil m1 && b) m2 e ->
    Matches (OpConcat r1 r2) b (m1 ++ m2) e
| MAltL r1 r2 b m e : Matches r1 b m e -> Matches (OpAlternate r1 r2) b m e
| MAltR r1 r2 b m e : Matches r2 b m e -> Matches (OpAlternate r1 r2) b m e
| MStarNil r b e : Matches (OpStar r) b [] e
| MStarCons r b m1 m2 e :
    Matches r b m1 (isNil m2 && e) ->
    Matches (OpStar r) (isNil m1 && b) m2 e ->
    Matches (OpStar r) b (m1 ++ m2) e
| MPlus r b m1 m2 e :
    Matches r b m1 (isNil m2 && e) ->
    Matches (OpStar r) (isNil m1 && b) m2 e ->
    Matches (OpPlus r) b (m1 ++ m2) e
| MQuestNil r b e : Matches (OpQuest r) b [] e
| MQuest r b m e : Matches r b m e -> Matches (OpQuest r) b m e.

End GoRegexp.

Definition goRegexp : RegexpLib :=
  {| Regexp := GoRegexp.Regexp;
     Compile := GoRegexp.Compile;
     MatchString := GoRegexp.MatchString |}.

Section Worker.

Context (T : Types).

Local Abbreviation TabletAlias := (TabletAlias T).
Local Abbreviation TabletInfo := (TabletInfo T).
Local Abbreviation ReplicationPosition := (ReplicationPosition T).
Local Abbreviation QueryResultReader := (QueryResultReader T).
Local Abbreviation RowDiffer := (RowDiffer T).
Local Abbreviation DiffReport := (DiffReport T).
Local Abbreviation World := (World T).

(** [topo.ShardInfo]. *)
Record ShardInfo := {
  MasterAlias : TabletAlias;
  SourceShards : list SourceShard
}.

(** [blproto.BlpPosition] and [blproto.BlpPositionList]. *)
Record BlpPosition := {
  bpUid : N;
  bpPosition : ReplicationPosition
}.

Record BlpPositionList := {
  Entries : list BlpPosition
}.

(** Modelled from the spec: [FindBlpPositionById] (package [blproto], not
    part of the source file) looks up the position recorded for a unit
    id; its absence is an error. *)
Definition FindBlpPositionById (bpl : BlpPositionList) (id : N) : option BlpPosition :=
  find (fun e => N.eqb (bpUid e) id) (Entries bpl).

(** ** wrangler.Cleaner *)

Inductive CleanerAction :=
| ChangeSlaveTypeAction (alias : TabletAlias) (TabletType : TabletType)
| StartSlaveAction (tablet : TabletInfo)
| StartBlpAction (tablet : TabletInfo).

Record cleanerActionReference := {
  name : string;
  target : string;
  action : CleanerAction
}.

(** The registered actions, oldest first. *)
Definition Cleaner := list cleanerActionReference.

Definition ChangeSlaveTypeActionName := "ChangeSlaveTypeAction".
Definition StartSlaveActionName := "StartSlaveAction".
Definition StartBlpActionName := "StartBlpAction".

Definition refMatches (n t : string) (r : cleanerActionReference) : bool :=
  String.eqb (name r) n && String.eqb (target r) t.

(** Modelled from the spec: [Cleaner.Record] (package [wrangler], not part
    of the source file).  The cleanup stack is an ordered registry of
    compensating actions keyed by action name and target identity;
    recording pushes an action. *)
Definition RecordAction (c : Cleaner) (n t : string) (a : CleanerAction) : Cleaner :=
  (c ++ [{| name := n; target := t; action := a |}])%list.

(** Modelled from the spec: [Cleaner.RemoveActionByName] (package
    [wrangler], not part of the source file) removes the action
    registered under a name and target; it fails when there is none. *)
Fixpoint RemoveActionByName (c : Cleaner) (n t : string) : option Cleaner :=
  match c with
  | [] => None
  | r :: c' =>
      if refMatches n t r then Some c'
      else match RemoveActionByName c' n t with
           | Some c'' => Some (r :: c'')
           | None => None
           end
  end.

(** Modelled from the spec: [Cleaner.GetActionByName] (package [wrangler],
    not part of the source file) finds the action registered under a
    name and target. *)
Definition GetActionByName (c : Cleaner) (n t : string) : option cleanerActionReference :=
  find (refMatches n t) c.

(** Modelled from the spec: [FindChangeSlaveTypeActionByTarget] (package
    [wrangler], not part of the source file) followed by the source's
    assignment [action.TabletType = ty].  The action found is shared
    with the cleaner, so the assignment mutates the registered "restore
    serving type" action in place. *)
Fixpoint SetChangeSlaveType (c : Cleaner) (t : string) (ty : TabletType) : Reply Cleaner :=
  match c with
  | [] => Error "node doesn't exist"
  | r :: c' =>
      if refMatches ChangeSlaveTypeActionName t r then
        match action r with
        | ChangeSlaveTypeAction a _ =>
            Value ({| name := name r; target := target r;
                      action := ChangeSlaveTypeAction a ty |} :: c')
        | _ => Error "Action with wrong type"
        end
      else match SetChangeSlaveType c' t ty with
           | Value c'' => Value (r :: c'')
           | Error e => Error e
           end
  end.

(** ** Collaborators

    Everything the worker calls that is not in the source file.  A remote
    call reads and changes the world; a per-call timeout that expires is
    one of the errors the call may answer. *)
Record Collab := {
  (* topo.TabletAlias, topo.TabletInfo, myproto.ReplicationPosition *)
  zeroAlias : TabletAlias;
  IsZero : TabletAlias -> bool;
  aliasString : TabletAlias -> string;
  Alias : TabletInfo -> TabletAlias;
  AtLeast : ReplicationPosition -> ReplicationPosition -> bool;
  fmtPosition : ReplicationPosition -> string;
  fmtBlpPositionList : BlpPositionList -> string;
  (* topo.Server *)
  GetKeyspace : string -> World -> Reply KeyspaceInfo * World;
  GetShard : string -> string -> World -> Reply ShardInfo * World;
  GetTablet : TabletAlias -> World -> Reply TabletInfo * World;
  (* tmclient.TabletManagerClient *)
  StopBlp : TabletInfo -> World -> Reply BlpPositionList * World;
  StopSlaveMinimum :
    TabletInfo -> ReplicationPosition -> World -> Reply ReplicationPosition * World;
  RunBlpUntil :
    TabletInfo -> BlpPositionList -> World -> Reply ReplicationPosition * World;
  StartBlp : TabletInfo -> World -> option error * World;
  (* wrangler *)
  GetSchema : TabletAlias -> list string -> World -> Reply SchemaDefinition * World;
  CleanUp : Cleaner -> World -> option error * World;
  (* myproto.DiffSchema: the mismatches it records *)
  DiffSchema : SchemaDefinition -> SchemaDefinition -> list error;
  (* package worker *)
  selectWorkerTablet : string -> string -> string -> World -> Reply TabletAlias * World;
  checkDone : World -> option error * World;
  TableScan : TabletAlias -> TableDefinition -> World -> Reply QueryResultReader * World;
  Close : QueryResultReader -> World -> World;
  NewRowDiffer :
    QueryResultReader -> QueryResultReader -> TableDefinition -> Reply RowDiffer;
  Go : RowDiffer -> World -> Reply DiffReport * World;
  HasDifferences : DiffReport -> bool;
  reportString : DiffReport -> string;
  processedRows : DiffReport -> Z;
  processingQPS : DiffReport -> Z
}.

Context (C : Collab).

(** ** The worker and its environment *)

(** How the goroutine of one table returned. *)
Inductive TaskResult :=
| SourceScanFailed (err : error)
| DestinationScanFailed (err : error)
| NewRowDifferFailed (err : error)
| GoFailed (err : error)
| HasDiffs (report : DiffReport)
| ChecksOut (report : DiffReport).

(** Where the goroutine of one table stands: before [sem.Acquire], before
    each of its four calls (holding what the earlier ones answered), or
    returned. *)
Inductive TaskPc :=
| AtAcquire
| AtScanSource
| AtScanDestination (sourceQueryResultReader : QueryResultReader)
| AtNewRowDiffer (sourceQueryResultReader destinationQueryResultReader : QueryResultReader)
| AtGo (sourceQueryResultReader destinationQueryResultReader : QueryResultReader)
    (differ : RowDiffer)
| Returned (res : TaskResult).

(** What an observer of a run sees: the states the worker went through,
    the remote calls of the replication barrier, of the cleanup and of
    the schema fetches with their answers, and the semaphore operations
    of the table goroutines (by index in the destination schema). *)
Inductive Event :=
| EvSetState (st : WorkerState)
| EvGetTablet (a : TabletAlias) (r : Reply TabletInfo)
| EvStopBlp (t : TabletInfo) (r : Reply BlpPositionList)
| EvStopSlaveMinimum (t : TabletInfo) (p : ReplicationPosition)
    (r : Reply ReplicationPosition)
| EvRunBlpUntil (t : TabletInfo) (l : BlpPositionList) (r : Reply ReplicationPosition)
| EvStartBlp (t : TabletInfo) (r : option error)
| EvCleanUp (c : Cleaner) (r : option error)
| EvGetDestinationSchema (r : Reply SchemaDefinition)
| EvGetSourceSchema (r : Reply SchemaDefinition)
| EvAcquire (i : nat)
| EvRelease (i : nat).

(** The fields of [VerticalSplitDiffWorker]; then the variables of [diff]
    that its goroutines share ([rec], [sem], [wg]) and the goroutines
    themselves; then what the worker's wrangler reaches: the logger's
    output, the remote world and the trace of events. *)
Record VerticalSplitDiffWorker := {
  State : WorkerState;
  cell : string;
  keyspace : string;
  shard : string;
  excludeTables : list string;
  cleaner : Cleaner;
  keyspaceInfo : option KeyspaceInfo;
  shardInfo : option ShardInfo;
  sourceAlias : TabletAlias;
  destinationAlias : TabletAlias;
  sourceSchemaDefinition : option SchemaDefinition;
  destinationSchemaDefinition : option SchemaDefinition;
  rec : AllErrorRecorder.t;
  sem : Semaphore.t;
  wg : nat;
  tasks : list (TableDefinition * TaskPc);
  logs : list LogEntry;
  world : World;
  trace : list Event
}.

Definition NewVerticalSplitDiffWorker (w : World) (cell keyspace shard : string)
    (excludeTables : list string) : VerticalSplitDiffWorker :=
  {| State := WorkerStateNotStarted;
     cell := cell; keyspace := keyspace; shard := shard;
     excludeTables := excludeTables;
     cleaner := [];
     keyspaceInfo := None; shardInfo := None;
     sourceAlias := zeroAlias C; destinationAlias := zeroAlias C;
     sourceSchemaDefinition := None; destinationSchemaDefinition := None;
     rec := AllErrorRecorder.empty; sem := Semaphore.NewSemaphore 0; wg := 0;
     tasks := [];
     logs := []; world := w; trace := [] |}.

Definition set_State (x : WorkerState) (v : VerticalSplitDiffWorker) :=
  {| State := x; cell := cell v; keyspace := keyspace v; shard := shard v;
     excludeTables := excludeTables v; cleaner := cleaner v;
     keyspaceInfo := keyspaceInfo v; shardInfo := shardInfo v;
     sourceAlias := sourceAlias v; destinationAlias := destinationAlias v;
     sourceSchemaDefinition := sourceSchemaDefinition v;
     destinationSchemaDefinition := destinationSchemaDefinition v; rec := rec v;
     sem := sem v; wg := wg v; tasks := tasks v; logs := logs v; world := world v;
     trace := trace v |}.

Definition set_cleaner (x : Cleaner) (v : VerticalSplitDiffWorker) :=
  {| State := State v; cell := cell v; keyspace := keyspace v; shard := shard v;
     excludeTables := excludeTables v; cleaner := x; keyspaceInfo := keyspaceInfo v;
     shardInfo := shardInfo v; sourceAlias := sourceAlias v;
     destinationAlias := destinationAlias v;
     sourceSchemaDefinition := sourceSchemaDefinition v;
     destinationSchemaDefinition := destinationSchemaDefinition v; rec := rec v;
     sem := sem v; wg := wg v; tasks := tasks v; logs := logs v; world := world v;
     trace := trace v |}.

Definition set_keyspaceInfo (x : option KeyspaceInfo) (v : VerticalSplitDiffWorker) :=
  {| State := State v; cell := cell v; keyspace := keyspace v; shard := shard v;
     excludeTables := excludeTables v; cleaner := cleaner v; keyspaceInfo := x;
     shardInfo := shardInfo v; sourceAlias := sourceAlias v;
     destinationAlias := destinationAlias v;
     sourceSchemaDefinition := sourceSchemaDefinition v;
     destinationSchemaDefinition := destinationSchemaDefinition v; rec := rec v;
     sem := sem v; wg := wg v; tasks := tasks v; logs := logs v; world := world v;
     trace := trace v |}.

Definition set_shardInfo (x : option ShardInfo) (v : VerticalSplitDiffWorker) :=
  {| State := State v; cell := cell v; keyspace := keyspace v; shard := shard v;
     excludeTables := excludeTables v; cleaner := cleaner v;
     keyspaceInfo := keyspaceInfo v; shardInfo := x; sourceAlias := sourceAlias v;
     destinationAlias := destinationAlias v;
     sourceSchemaDefinition := sourceSchemaDefinition v;
     destinationSchemaDefinition := destinationSchemaDefinition v; rec := rec v;
     sem := sem v; wg := wg v; tasks := tasks v; logs := logs v; world := world v;
     trace := trace v |}.

Definition set_sourceAlias (x : TabletAlias) (v : VerticalSplitDiffWorker) :=
  {| State := State v; cell := cell v; keyspace := keyspace v; shard := shard v;
     excludeTables := excludeTables v; cleaner := cleaner v;
     keyspaceInfo := keyspaceInfo v; shardInfo := shardInfo v; sourceAlias := x;
     destinationAlias := destinationAlias v;
     sourceSchemaDefinition := sourceSchemaDefinition v;
     destinationSchemaDefinition := destinationSchemaDefinition v; rec := rec v;
     sem := sem v; wg := wg v; tasks := tasks v; logs := logs v; world := world v;
     trace := trace v |}.

Definition set_destinationAlias (x : TabletAlias) (v : VerticalSplitDiffWorker) :=
  {| State := State v; cell := cell v; keyspace := keyspace v; shard := shard v;
     excludeTables := excludeTables v; cleaner := cleaner v;
     keyspaceInfo := keyspaceInfo v; shardInfo := shardInfo v;
     sourceAlias := sourceAlias v; destinationAlias := x;
     sourceSchemaDefinition := sourceSchemaDefinition v;
     destinationSchemaDefinition := destinationSchemaDefinition v; rec := rec v;
     sem := sem v; wg := wg v; tasks := tasks v; logs := logs v; world := world v;
     trace := trace v |}.

Definition set_sourceSchemaDefinition (x : option SchemaDefinition) (v : VerticalSplitDiffWorker) :=
  {| State := State v; cell := cell v; keyspace := keyspace v; shard := shard v;
     excludeTables := excludeTables v; cleaner := cleaner v;
     keyspaceInfo := keyspaceInfo v; shardInfo := shardInfo v;
     sourceAlias := sourceAlias v; destinationAlias := destinationAlias v;
     sourceSchemaDefinition := x;
     destinationSchemaDefinition := destinationSchemaDefinition v; rec := rec v;
     sem := sem v; wg := wg v; tasks := tasks v; logs := logs v; world := world v;
     trace := trace v |}.

Definition set_destinationSchemaDefinition (x : option SchemaDefinition) (v : VerticalSplitDiffWorker) :=
  {| State := State v; cell := cell v; keyspace := keyspace v; shard := shard v;
     excludeTables := excludeTables v; cleaner := cleaner v;
     keyspaceInfo := keyspaceInfo v; shardInfo := shardInfo v;
     sourceAlias := sourceAlias v; destinationAlias := destinationAlias v;
     sourceSchemaDefinition := sourceSchemaDefinition v;
     destinationSchemaDefinition := x; rec := rec v; sem := sem v; wg := wg v;
     tasks := tasks v; logs := logs v; world := world v; trace := trace v |}.

Definition set_rec (x : AllErrorRecorder.t) (v : VerticalSplitDiffWorker) :=
  {| State := State v; cell := cell v; keyspace := keyspace v; shard := shard v;
     excludeTables := excludeTables v; cleaner := cleaner v;
     keyspaceInfo := keyspaceInfo v; shardInfo := shardInfo v;
     sourceAlias := sourceAlias v; destinationAlias := destinationAlias v;
     sourceSchemaDefinition := sourceSchemaDefinition v;
     destinationSchemaDefinition := destinationSchemaDefinition v; rec := x;
     sem := sem v; wg := wg v; tasks := tasks v; logs := logs v; world := world v;
     trace := trace v |}.

Definition set_sem (x : Semaphore.t) (v : VerticalSplitDiffWorker) :=
  {| State := State v; cell := cell v; keyspace := keyspace v; shard := shard v;
     excludeTables := excludeTables v; cleaner := cleaner v;
     keyspaceInfo := keyspaceInfo v; shardInfo := shardInfo v;
     sourceAlias := sourceAlias v; destinationAlias := destinationAlias v;
     sourceSchemaDefinition := sourceSchemaDefinition v;
     destinationSchemaDefinition := destinationSchemaDefinition v; rec := rec v;
     sem := x; wg := wg v; tasks := tasks v; logs := logs v; world := world v;
     trace := trace v |}.

Definition set_wg (x : nat) (v : VerticalSplitDiffWorker) :=
  {| State := State v; cell := cell v; keyspace := keyspace v; shard := shard v;
     excludeTables := excludeTables v; cleaner := cleaner v;
     keyspaceInfo := keyspaceInfo v; shardInfo := shardInfo v;
     sourceAlias := sourceAlias v; destinationAlias := destinationAlias v;
     sourceSchemaDefinition := sourceSchemaDefinition v;
     destinationSchemaDefinition := destinationSchemaDefinition v; rec := rec v;
     sem := sem v; wg := x; tasks := tasks v; logs := logs v; world := world v;
     trace := trace v |}.

Definition set_tasks (x : list (TableDefinition * TaskPc)) (v : VerticalSplitDiffWorker) :=
  {| State := State v; cell := cell v; keyspace := keyspace v; shard := shard v;
     excludeTables := excludeTables v; cleaner := cleaner v;
     keyspaceInfo := keyspaceInfo v; shardInfo := shardInfo v;
     sourceAlias := sourceAlias v; destinationAlias := destinationAlias v;
     sourceSchemaDefinition := sourceSchemaDefinition v;
     destinationSchemaDefinition := destinationSchemaDefinition v; rec := rec v;
     sem := sem v; wg := wg v; tasks := x; logs := logs v; world := world v;
     trace := trace v |}.

Definition set_logs (x : list LogEntry) (v : VerticalSplitDiffWorker) :=
  {| State := State v; cell := cell v; keyspace := keyspace v; shard := shard v;
     excludeTables := excludeTables v; cleaner := cleaner v;
     keyspaceInfo := keyspaceInfo v; shardInfo := shardInfo v;
     sourceAlias := sourceAlias v; destinationAlias := destinationAlias v;
     sourceSchemaDefinition := sourceSchemaDefinition v;
     destinationSchemaDefinition := destinationSchemaDefinition v; rec := rec v;
     sem := sem v; wg := wg v; tasks := tasks v; logs := x; world := world v;
     trace := trace v |}.

Definition set_world (x : World) (v : VerticalSplitDiffWorker) :=
  {| State := State v; cell := cell v; keyspace := keyspace v; shard := shard v;
     excludeTables := excludeTables v; cleaner := cleaner v;
     keyspaceInfo := keyspaceInfo v; shardInfo := shardInfo v;
     sourceAlias := sourceAlias v; destinationAlias := destinationAlias v;
     sourceSchemaDefinition := sourceSchemaDefinition v;
     destinationSchemaDefinition := destinationSchemaDefinition v; rec := rec v;
     sem := sem v; wg := wg v; tasks := tasks v; logs := logs v; world := x;
     trace := trace v |}.

Definition set_trace (x : list Event) (v : VerticalSplitDiffWorker) :=
  {| State := State v; cell := cell v; keyspace := keyspace v; shard := shard v;
     excludeTables := excludeTables v; cleaner := cleaner v;
     keyspaceInfo := keyspaceInfo v; shardInfo := shardInfo v;
     sourceAlias := sourceAlias v; destinationAlias := destinationAlias v;
     sourceSchemaDefinition := sourceSchemaDefinition v;
     destinationSchemaDefinition := destinationSchemaDefinition v; rec := rec v;
     sem := sem v; wg := wg v; tasks := tasks v; logs := logs v; world := world v;
     trace := x |}.

(** ** The monad of worker methods *)

Definition M (A : Type) : Type := VerticalSplitDiffWorker -> Res A * VerticalSplitDiffWorker.

Definition ret {A : Type} (a : A) : M A := fun v => (Ok a, v).

Definition bind {A B : Type} (m : M A) (k : A -> M B) : M B :=
  fun v =>
    match m v with
    | (Ok a, v') => k a v'
    | (Err e, v') => (Err e, v')
    | (Panic, v') => (Panic, v')
    end.

(** [return fmt.Errorf(...)]. *)
Definition fail {A : Type} (e : error) : M A := fun v => (Err e, v).

Definition panic {A : Type} : M A := fun v => (Panic, v).

Definition get : M VerticalSplitDiffWorker := fun v => (Ok v, v).

Definition modify (f : VerticalSplitDiffWorker -> VerticalSplitDiffWorker) : M unit :=
  fun v => (Ok tt, f v).

(** A pointer or an index that must be there: a panic when it is not. *)
Definition deref {A : Type} (o : option A) : M A :=
  match o with Some a => ret a | None => panic end.

(** [err := m]: the error of a call, kept as a value. *)
Definition attempt (m : M unit) : M (option error) :=
  fun v =>
    match m v with
    | (Ok _, v') => (Ok None, v')
    | (Err e, v') => (Ok (Some e), v')
    | (Panic, v') => (Panic, v')
    end.

(** [if err := m; err != nil { return h err }]. *)
Definition mapErr {A : Type} (h : error -> error) (m : M A) : M A :=
  fun v =>
    match m v with
    | (Err e, v') => (Err (h e), v')
    | other => other
    end.

(** [return err], for an [err] that may be nil. *)
Definition returnError (err : option error) : M unit :=
  match err with None => ret tt | Some e => fail e end.

(** A remote call: the world moves on and the answer comes back as a
    value; [ev] is what the trace keeps of it. *)
Definition remote {A : Type} (f : World -> Reply A * World) (ev : Reply A -> list Event)
  : M (Reply A) :=
  fun v =>
    let (r, w) := f (world v) in
    (Ok r, set_trace (trace v ++ ev r)%list (set_world w v)).

Local Notation "x <- m ;; k" := (bind m (fun x => k))
  (at level 61, m at next level, right associativity).
Local Notation "m ;; k" := (bind m (fun _ => k))
  (at level 61, right associativity).
(** [x, err := m; if err != nil { return h }], with [err] bound in [h]. *)
Local Notation "'try' x <- m 'orelse' err => h ;; k" :=
  (bind m (fun r => match r with Value x => k | Error err => fail h end))
  (at level 61, m at next level, x name, err name, h at next level,
   right associativity).

(** Modelled from the spec: [StatusWorker.SetState] (not part of the source
    file) makes the given state the externally observable one. *)
Definition SetState (st : WorkerState) : M unit :=
  fun v => (Ok tt, set_trace (trace v ++ [EvSetState st])%list (set_State st v)).

Definition addLog (l : Level) (msg : string) (v : VerticalSplitDiffWorker) :=
  set_logs (logs v ++ [(l, msg)])%list v.

Definition logf (l : Level) (msg : string) : M unit := modify (addLog l msg).

Definition Infof := logf INFO.
Definition Warningf := logf WARNING.
Definition Errorf := logf ERROR.

(** *** The remote calls, as the worker issues them *)

Definition topoGetKeyspace (ks : string) : M (Reply KeyspaceInfo) :=
  remote (GetKeyspace C ks) (fun _ => []).

Definition topoGetShard (ks sh : string) : M (Reply ShardInfo) :=
  remote (GetShard C ks sh) (fun _ => []).

Definition topoGetTablet (a : TabletAlias) : M (Reply TabletInfo) :=
  remote (GetTablet C a) (fun r => [EvGetTablet a r]).

Definition tmcStopBlp (t : TabletInfo) : M (Reply BlpPositionList) :=
  remote (StopBlp C t) (fun r => [EvStopBlp t r]).

Definition tmcStopSlaveMinimum (t : TabletInfo) (p : ReplicationPosition)
  : M (Reply ReplicationPosition) :=
  remote (StopSlaveMinimum C t p) (fun r => [EvStopSlaveMinimum t p r]).

Definition tmcRunBlpUntil (t : TabletInfo) (l : BlpPositionList)
  : M (Reply ReplicationPosition) :=
  remote (RunBlpUntil C t l) (fun r => [EvRunBlpUntil t l r]).

Definition tmcStartBlp (t : TabletInfo) : M (option error) :=
  fun v =>
    let (r, w) := StartBlp C t (world v) in
    (Ok r, set_trace (trace v ++ [EvStartBlp t r])%list (set_world w v)).

Definition cleanerCleanUp : M (option error) :=
  fun v =>
    let (r, w) := CleanUp C (cleaner v) (world v) in
    (Ok r, set_trace (trace v ++ [EvCleanUp (cleaner v) r])%list (set_world w v)).

Definition ctxCheckDone : M (option error) :=
  fun v => let (r, w) := checkDone C (world v) in (Ok r, set_world w v).

(** *** The wrangler's cleanup recorders *)

(** Modelled from the spec: [wrangler.RecordChangeSlaveTypeAction] (not part
    of the source file) pushes the inverse of a serving-type change, keyed
    by the unit's identity. *)
Definition RecordChangeSlaveTypeAction (a : TabletAlias) (ty : TabletType) : M unit :=
  modify (fun v =>
    set_cleaner (RecordAction (cleaner v) ChangeSlaveTypeActionName (aliasString C a)
                   (ChangeSlaveTypeAction a ty)) v).

(** Modelled from the spec: [wrangler.RecordStartSlaveAction] (not part of
    the source file) pushes the compensating "resume slave" action, keyed
    by the unit's identity. *)
Definition RecordStartSlaveAction (t : TabletInfo) : M unit :=
  modify (fun v =>
    set_cleaner (RecordAction (cleaner v) StartSlaveActionName (aliasString C (Alias C t))
                   (StartSlaveAction t)) v).

(** Modelled from the spec: [wrangler.RecordStartBlpAction] (not part of the
    source file) pushes the compensating "resume filtered replication"
    action, keyed by the unit's identity. *)
Definition RecordStartBlpAction (t : TabletInfo) : M unit :=
  modify (fun v =>
    set_cleaner (RecordAction (cleaner v) StartBlpActionName (aliasString C (Alias C t))
                   (StartBlpAction t)) v).

(** Modelled from the spec: [FindWorkerTablet] (package [worker], not part
    of the source file) selects one eligible unit of the shard through an
    external selector, which applies a temporary serving-type change, and
    pushes the inverse of that change onto the cleanup stack; it fails
    when no unit is eligible. *)
Definition FindWorkerTablet (cell keyspace shard : string) : M (Reply TabletAlias) :=
  r <- remote (selectWorkerTablet C cell keyspace shard) (fun _ => []) ;;
  match r with
  | Error err => ret (Error err)
  | Value a => RecordChangeSlaveTypeAction a TYPE_RDONLY ;; ret (Value a)
  end.

(** ** init *)

Definition init : M unit :=
  SetState WorkerStateInit ;;
  v <- get ;;
  (* read the keyspace and validate it *)
  r <- topoGetKeyspace (keyspace v) ;;
  modify (set_keyspaceInfo (valueOf r)) ;;
  match r with
  | Error err => fail ("cannot read keyspace " ++ keyspace v ++ ": " ++ err)
  | Value keyspaceInfo =>
  if Nat.eqb (List.length (ServedFroms keyspaceInfo)) 0 then
    fail ("keyspace " ++ keyspace v ++ " has no KeyspaceServedFrom")
  else
  (* read the shardinfo and validate it *)
  r <- topoGetShard (keyspace v) (shard v) ;;
  modify (set_shardInfo (valueOf r)) ;;
  match r with
  | Error err =>
      fail ("cannot read shard " ++ keyspace v ++ "/" ++ shard v ++ ": " ++ err)
  | Value shardInfo =>
  if negb (Nat.eqb (List.length (SourceShards shardInfo)) 1) then
    fail ("shard " ++ keyspace v ++ "/" ++ shard v ++ " has bad number of source shards")
  else
  ss0 <- deref (nth_error (SourceShards shardInfo) 0) ;;
  if Nat.eqb (List.length (Tables ss0)) 0 then
    fail ("shard " ++ keyspace v ++ "/" ++ shard v ++ " has no tables in source shard[0]")
  else
  if IsZero C (MasterAlias shardInfo) then
    fail ("shard " ++ keyspace v ++ "/" ++ shard v ++ " has no master")
  else
  ret tt
  end
  end.

(** ** findTargets *)

Definition findTargets : M unit :=
  SetState WorkerStateFindTargets ;;
  v <- get ;;
  (* find an appropriate endpoint in destination shard *)
  r <- FindWorkerTablet (cell v) (keyspace v) (shard v) ;;
  modify (set_destinationAlias
            (match r with Value a => a | Error _ => zeroAlias C end)) ;;
  match r with
  | Error err =>
      fail ("FindWorkerTablet() failed for " ++ cell v ++ "/" ++ keyspace v ++ "/"
            ++ shard v ++ ": " ++ err)
  | Value _ =>
  (* find an appropriate endpoint in the source shard *)
  shardInfo <- deref (shardInfo v) ;;
  ss0 <- deref (nth_error (SourceShards shardInfo) 0) ;;
  r <- FindWorkerTablet (cell v) (Keyspace ss0) (Shard ss0) ;;
  modify (set_sourceAlias
            (match r with Value a => a | Error _ => zeroAlias C end)) ;;
  match r with
  | Error err =>
      fail ("FindWorkerTablet() failed for " ++ cell v ++ "/" ++ Keyspace ss0 ++ "/"
            ++ Shard ss0 ++ ": " ++ err)
  | Value _ => ret tt
  end
  end.

(** ** synchronizeReplication *)

(** [wrangler.FindChangeSlaveTypeActionByTarget(vsdw.cleaner, alias)] and
    [action.TabletType = topo.TYPE_SPARE]. *)
Definition changeSlaveTypeToSpare (a : TabletAlias) : M unit :=
  v <- get ;;
  match SetChangeSlaveType (cleaner v) (aliasString C a) TYPE_SPARE with
  | Error err =>
      fail ("cannot find ChangeSlaveType action for " ++ aliasString C a ++ ": " ++ err)
  | Value c => modify (set_cleaner c)
  end.

Definition synchronizeReplication : M unit :=
  SetState WorkerStateSyncReplication ;;
  v <- get ;;
  shardInfo <- deref (shardInfo v) ;;
  let master := aliasString C (MasterAlias shardInfo) in
  let source := aliasString C (sourceAlias v) in
  let destination := aliasString C (destinationAlias v) in
  try masterInfo <- topoGetTablet (MasterAlias shardInfo)
    orelse err => ("synchronizeReplication: cannot get Tablet record for master "
                   ++ master ++ ": " ++ err) ;;

  (* 1 - stop the master binlog replication, get its current position *)
  Infof ("Stopping master binlog replication on " ++ master) ;;
  try blpPositionList <- tmcStopBlp masterInfo
    orelse err => ("StopBlp on master " ++ master ++ " failed: " ++ err) ;;
  RecordStartBlpAction masterInfo ;;

  (* 2 - stop the source tablet at a binlog position
         higher than the destination master *)
  ss <- deref (nth_error (SourceShards shardInfo) 0) ;;
  (* find where we should be stopping *)
  match FindBlpPositionById blpPositionList (Uid ss) with
  | None => fail ("no binlog position on the master for Uid " ++ fmtN (Uid ss))
  | Some pos =>

  (* stop replication *)
  Infof ("Stopping slave " ++ source ++ " at a minimum of "
         ++ fmtPosition C (bpPosition pos)) ;;
  try sourceTablet <- topoGetTablet (sourceAlias v) orelse err => err ;;
  try stoppedAt <- tmcStopSlaveMinimum sourceTablet (bpPosition pos)
    orelse err => ("cannot stop slave " ++ source ++ " at right binlog position "
                   ++ fmtPosition C (bpPosition pos) ++ ": " ++ err) ;;
  let stopPositionList :=
    {| Entries := [ {| bpUid := Uid ss; bpPosition := stoppedAt |} ] |} in

  (* change the cleaner actions from ChangeSlaveType(rdonly)
     to StartSlave() + ChangeSlaveType(spare) *)
  RecordStartSlaveAction sourceTablet ;;
  changeSlaveTypeToSpare (sourceAlias v) ;;

  (* 3 - ask the master of the destination shard to resume filtered
         replication up to the new list of positions *)
  Infof ("Restarting master " ++ master ++ " until it catches up to "
         ++ fmtBlpPositionList C stopPositionList) ;;
  try masterPos <- tmcRunBlpUntil masterInfo stopPositionList
    orelse err => ("RunBlpUntil on " ++ master ++ " until "
                   ++ fmtBlpPositionList C stopPositionList ++ " failed: " ++ err) ;;

  (* 4 - wait until the destination tablet is equal or passed
         that master binlog position, and stop its replication. *)
  Infof ("Waiting for destination tablet " ++ destination ++ " to catch up to "
         ++ fmtPosition C masterPos) ;;
  try destinationTablet <- topoGetTablet (destinationAlias v) orelse err => err ;;
  try _stopped <- tmcStopSlaveMinimum destinationTablet masterPos
    orelse err => ("StopSlaveMinimum on " ++ destination ++ " at "
                   ++ fmtPosition C masterPos ++ " failed: " ++ err) ;;
  RecordStartSlaveAction destinationTablet ;;
  changeSlaveTypeToSpare (destinationAlias v) ;;

  (* 5 - restart filtered replication on destination master *)
  Infof ("Restarting filtered replication on master " ++ master) ;;
  err <- tmcStartBlp masterInfo ;;
  v5 <- get ;;
  match RemoveActionByName (cleaner v5) StartBlpActionName master with
  | None =>
      Warningf ("Cannot find cleaning action " ++ StartBlpActionName ++ "/" ++ master
                ++ ": node doesn't exist")
  | Some c => modify (set_cleaner c)
  end ;;
  match err with
  | Some err => fail ("StartBlp on " ++ master ++ " failed: " ++ err)
  | None => ret tt
  end
  end.

(** ** diff *)

(** How the goroutines of [diff] are interleaved: which of the two schema
    fetches completes first, and, for the table goroutines, the index of
    the goroutine that takes each next step. *)
Record Schedule := {
  destinationSchemaFirst : bool;
  taskSchedule : list nat
}.

Context (R : RegexpLib).

Definition errOf {A : Type} (r : Reply A) : option error :=
  match r with Error e => Some e | Value _ => None end.

Definition fmtErr (e : option error) : string :=
  match e with Some m => m | None => "<nil>" end.

Definition fmtZ (z : Z) : string := NilEmpty.string_of_int (Z.to_int z).

Definition recordError (err : option error) (v : VerticalSplitDiffWorker) :=
  set_rec (AllErrorRecorder.RecordError (rec v) err) v.

(** The two goroutines that fetch the schemas. *)
Definition getDestinationSchema : M unit :=
  v <- get ;;
  r <- remote (GetSchema C (destinationAlias v) (excludeTables v))
         (fun r => [EvGetDestinationSchema r]) ;;
  modify (set_destinationSchemaDefinition (valueOf r)) ;;
  modify (recordError (errOf r)) ;;
  Infof ("Got schema from destination " ++ aliasString C (destinationAlias v)).

Definition getSourceSchema : M unit :=
  v <- get ;;
  r <- remote (GetSchema C (sourceAlias v) (excludeTables v))
         (fun r => [EvGetSourceSchema r]) ;;
  modify (set_sourceSchemaDefinition (valueOf r)) ;;
  modify (recordError (errOf r)) ;;
  Infof ("Got schema from source " ++ aliasString C (sourceAlias v)).

(** The loop that compiles the table filters. *)
Fixpoint compileTableRegexps (tables : list string) : Reply (list (Regexp R)) :=
  match tables with
  | [] => Value []
  | table :: rest =>
      match Compile R table with
      | Error err =>
          Error ("cannot compile regexp " ++ table ++ " for table: " ++ err)
      | Value re =>
          match compileTableRegexps rest with
          | Value res => Value (re :: res)
          | Error e => Error e
          end
      end
  end.

(** The inner loop over [tableRegexps], with its [break]. *)
Fixpoint found (tableRegexps : list (Regexp R)) (tableName : string) : bool :=
  match tableRegexps with
  | [] => false
  | tableRegexp :: rest =>
      if MatchString R tableRegexp tableName then true else found rest tableName
  end.

(** The loop over the source table definitions. *)
Fixpoint removeUnneededTables (tableRegexps : list (Regexp R))
    (tableDefinitions : list TableDefinition) : M (list TableDefinition) :=
  match tableDefinitions with
  | [] => ret []
  | tableDefinition :: rest =>
      if found tableRegexps (Name tableDefinition) then
        kept <- removeUnneededTables tableRegexps rest ;;
        ret (tableDefinition :: kept)
      else
        Infof ("Removing table " ++ Name tableDefinition ++ " from source schema") ;;
        removeUnneededTables tableRegexps rest
  end.

(** *** The table goroutines *)

Fixpoint setNth {A : Type} (i : nat) (x : A) (l : list A) : list A :=
  match l, i with
  | [], _ => []
  | _ :: l', 0 => x :: l'
  | y :: l', S i' => y :: setNth i' x l'
  end.

Definition setTask (i : nat) (tableDefinition : TableDefinition) (pc : TaskPc)
    (v : VerticalSplitDiffWorker) :=
  set_tasks (setNth i (tableDefinition, pc) (tasks v)) v.

(** The return of goroutine [i]: its deferred calls run, last deferred
    first: the [Close] of the readers it opened, [sem.Release] and
    [wg.Done]. *)
Definition taskReturn (i : nat) (tableDefinition : TableDefinition)
    (opened : list QueryResultReader) (res : TaskResult)
    (v : VerticalSplitDiffWorker) : VerticalSplitDiffWorker :=
  let v := set_world (fold_left (fun w r => Close C r w) opened (world v)) v in
  let v := set_trace (trace v ++ [EvRelease i])%list
             (set_sem (Semaphore.Release (sem v)) v) in
  let v := set_wg (pred (wg v)) v in
  setTask i tableDefinition (Returned res) v.

(** One step of goroutine [i]: up to and including its next call.  A
    goroutine that waits for the semaphore, or has returned, does not
    move. *)
Definition taskStep (i : nat) (v : VerticalSplitDiffWorker) : VerticalSplitDiffWorker :=
  match nth_error (tasks v) i with
  | None => v
  | Some (tableDefinition, pc) =>
      match pc with
      | AtAcquire =>
          match Semaphore.Acquire (sem v) with
          | None => v
          | Some s =>
              setTask i tableDefinition AtScanSource
                (set_trace (trace v ++ [EvAcquire i])%list (set_sem s v))
          end
      | AtScanSource =>
          let v := addLog INFO ("Starting the diff on table " ++ Name tableDefinition) v in
          let (r, w) := TableScan C (sourceAlias v) tableDefinition (world v) in
          let v := set_world w v in
          match r with
          | Error err =>
              let newErr := "TableScan(source) failed: " ++ err in
              let v := recordError (Some newErr) v in
              let v := addLog ERROR newErr v in
              taskReturn i tableDefinition [] (SourceScanFailed err) v
          | Value sourceQueryResultReader =>
              setTask i tableDefinition (AtScanDestination sourceQueryResultReader) v
          end
      | AtScanDestination sourceQueryResultReader =>
          let (r, w) := TableScan C (destinationAlias v) tableDefinition (world v) in
          let v := set_world w v in
          match r with
          | Error err =>
              let newErr := "TableScan(destination) failed: " ++ err in
              let v := recordError (Some newErr) v in
              let v := addLog ERROR newErr v in
              taskReturn i tableDefinition [sourceQueryResultReader]
                (DestinationScanFailed err) v
          | Value destinationQueryResultReader =>
              setTask i tableDefinition
                (AtNewRowDiffer sourceQueryResultReader destinationQueryResultReader) v
          end
      | AtNewRowDiffer sourceQueryResultReader destinationQueryResultReader =>
          match NewRowDiffer C sourceQueryResultReader destinationQueryResultReader
                  tableDefinition with
          | Error err =>
              let newErr := "NewRowDiffer() failed: " ++ err in
              let v := recordError (Some newErr) v in
              let v := addLog ERROR newErr v in
              taskReturn i tableDefinition
                [destinationQueryResultReader; sourceQueryResultReader]
                (NewRowDifferFailed err) v
          | Value differ =>
              setTask i tableDefinition
                (AtGo sourceQueryResultReader destinationQueryResultReader differ) v
          end
      | AtGo sourceQueryResultReader destinationQueryResultReader differ =>
          let (r, w) := Go C differ (world v) in
          let v := set_world w v in
          let opened := [destinationQueryResultReader; sourceQueryResultReader] in
          match r with
          | Error err =>
              let v := addLog ERROR ("Differ.Go failed: " ++ err) v in
              taskReturn i tableDefinition opened (GoFailed err) v
          | Value report =>
              if HasDifferences C report then
                let err := "Table " ++ Name tableDefinition ++ " has differences: "
                           ++ reportString C report in
                let v := recordError (Some err) v in
                let v := addLog ERROR err v in
                taskReturn i tableDefinition opened (HasDiffs report) v
              else
                let v := addLog INFO
                  ("Table " ++ Name tableDefinition ++ " checks out ("
                   ++ fmtZ (processedRows C report) ++ " rows processed, "
                   ++ fmtZ (processingQPS C report) ++ " qps)") v in
                taskReturn i tableDefinition opened (ChecksOut report) v
          end
      | Returned _ => v
      end
  end.

Definition runSchedule (turns : list nat) (v : VerticalSplitDiffWorker)
  : VerticalSplitDiffWorker :=
  fold_left (fun v i => taskStep i v) turns v.

(** Five turns for each of [n] goroutines, in index order. *)
Definition turnsForAll (n : nat) : list nat :=
  flat_map (fun i => repeat i 5) (seq 0 n).

(** [wg.Wait()]: the phase is suspended while the goroutines that have not
    returned run on, each in turn; it resumes when the counter is zero.
    A counter still positive when no goroutine can move is a deadlock. *)
Definition wgWait : M unit :=
  modify (fun v =>
    let n := List.length (tasks v) in
    runSchedule (turnsForAll n ++ turnsForAll n) v) ;;
  v <- get ;;
  if Nat.eqb (wg v) 0 then ret tt else panic.

(** [diff] in the four blocks of its source, each under the comment or
    the log line that opens it there. *)

(** "Gathering schema information...": the two fetching goroutines and
    their join. *)
Definition gatherSchemas (sch : Schedule) : M unit :=
  Infof "Gathering schema information..." ;;
  (* wg := sync.WaitGroup{}; rec := concurrency.AllErrorRecorder{};
     no table goroutine exists yet *)
  modify (set_wg 0) ;;
  modify (set_rec AllErrorRecorder.empty) ;;
  modify (set_tasks []) ;;
  (if destinationSchemaFirst sch
   then getDestinationSchema ;; getSourceSchema
   else getSourceSchema ;; getDestinationSchema) ;;
  v <- get ;;
  if AllErrorRecorder.HasErrors (rec v) then
    returnError (AllErrorRecorder.Error (rec v))
  else ret tt.

(** "Build a list of regexp to exclude tables from source schema" and
    "Remove the tables we don't need from the source schema". *)
Definition filterSourceSchema : M unit :=
  v <- get ;;
  shardInfo <- deref (shardInfo v) ;;
  ss0 <- deref (nth_error (SourceShards shardInfo) 0) ;;
  match compileTableRegexps (Tables ss0) with
  | Error err => fail err
  | Value tableRegexps =>
      _destinationSchema <- deref (destinationSchemaDefinition v) ;;
      sourceSchema <- deref (sourceSchemaDefinition v) ;;
      newSourceTableDefinitions <-
        removeUnneededTables tableRegexps (TableDefinitions sourceSchema) ;;
      modify (set_sourceSchemaDefinition
                (Some {| TableDefinitions := newSourceTableDefinitions |}))
  end.

(** "Check the schema". *)
Definition checkSchema : M unit :=
  Infof "Diffing the schema..." ;;
  modify (set_rec AllErrorRecorder.empty) ;;
  v <- get ;;
  destinationSchema <- deref (destinationSchemaDefinition v) ;;
  sourceSchema <- deref (sourceSchemaDefinition v) ;;
  modify (fun v =>
    fold_left (fun v err => recordError (Some err) v)
      (DiffSchema C destinationSchema sourceSchema) v) ;;
  v <- get ;;
  if AllErrorRecorder.HasErrors (rec v) then
    Warningf ("Different schemas: " ++ fmtErr (AllErrorRecorder.Error (rec v)))
  else
    Infof "Schema match, good.".

(** "run the diffs, 8 at a time": one goroutine for each table of the
    destination schema, the join, and the aggregated error. *)
Definition runDiffs (sch : Schedule) : M unit :=
  Infof "Running the diffs..." ;;
  modify (set_sem (Semaphore.NewSemaphore 8)) ;;
  v <- get ;;
  destinationSchema <- deref (destinationSchemaDefinition v) ;;
  modify (fun v =>
    let tableDefinitions := TableDefinitions destinationSchema in
    set_wg (wg v + List.length tableDefinitions)
      (set_tasks (map (fun tableDefinition => (tableDefinition, AtAcquire))
                    tableDefinitions) v)) ;;
  modify (runSchedule (taskSchedule sch)) ;;
  wgWait ;;
  v <- get ;;
  returnError (AllErrorRecorder.Error (rec v)).

Definition diff (sch : Schedule) : M unit :=
  SetState WorkerStateDiff ;;
  gatherSchemas sch ;;
  filterSourceSchema ;;
  checkSchema ;;
  runDiffs sch.

(** *** Observations on the table goroutines *)

(** A goroutine holds a slot of the semaphore from its [sem.Acquire] to
    its return: it is in its comparison phase. *)
Definition holding (pc : TaskPc) : bool :=
  match pc with
  | AtAcquire | Returned _ => false
  | _ => true
  end.

Definition returned (pc : TaskPc) : bool :=
  match pc with Returned _ => true | _ => false end.

(** The calls a goroutine still has before it. *)
Definition rank (pc : TaskPc) : nat :=
  match pc with
  | AtAcquire => 5
  | AtScanSource => 4
  | AtScanDestination _ => 3
  | AtNewRowDiffer _ _ => 2
  | AtGo _ _ _ => 1
  | Returned _ => 0
  end.

Definition comparing (ts : list (TableDefinition * TaskPc)) : nat :=
  List.length (filter (fun t => holding (snd t)) ts).

Definition pending (ts : list (TableDefinition * TaskPc)) : nat :=
  List.length (filter (fun t => negb (returned (snd t))) ts).

Definition isAcquire (e : Event) : bool :=
  match e with EvAcquire _ => true | _ => false end.

Definition isRelease (e : Event) : bool :=
  match e with EvRelease _ => true | _ => false end.

Definition isCleanUp (e : Event) : bool :=
  match e with EvCleanUp _ _ => true | _ => false end.

Definition acquires (l : list Event) : nat := List.length (filter isAcquire l).
Definition releases (l : list Event) : nat := List.length (filter isRelease l).

(** What the goroutine of a table has put into [rec] when it returns. *)
Definition recorded (tableDefinition : TableDefinition) (res : TaskResult) : list error :=
  match res with
  | SourceScanFailed err => ["TableScan(source) failed: " ++ err]
  | DestinationScanFailed err => ["TableScan(destination) failed: " ++ err]
  | NewRowDifferFailed err => ["NewRowDiffer() failed: " ++ err]
  | GoFailed _ => []
  | HasDiffs report =>
      ["Table " ++ Name tableDefinition ++ " has differences: " ++ reportString C report]
  | ChecksOut _ => []
  end.

(** ** run and Run *)

Definition checkDone_ : M unit :=
  err <- ctxCheckDone ;;
  returnError err.

Definition run (sch : Schedule) : M unit :=
  (* first state: read what we need to do *)
  mapErr (fun err => "init() failed: " ++ err) init ;;
  checkDone_ ;;

  (* second state: find targets *)
  mapErr (fun err => "findTargets() failed: " ++ err) findTargets ;;
  checkDone_ ;;

  (* third phase: synchronize replication *)
  mapErr (fun err => "synchronizeReplication() failed: " ++ err)
    synchronizeReplication ;;
  checkDone_ ;;

  (* fourth phase: diff *)
  mapErr (fun err => "diff() failed: " ++ err) (diff sch) ;;

  ret tt.

(** [Run] is mostly a wrapper to run the cleanup at the end.  ([resetVars]
    resets process-wide counters that the worker never reads.) *)
Definition Run (sch : Schedule) : M unit :=
  err <- attempt (run sch) ;;

  SetState WorkerStateCleanUp ;;
  cerr <- cleanerCleanUp ;;
  err <- match cerr with
         | Some cerr =>
             match err with
             | Some _ =>
                 Errorf ("CleanUp failed in addition to job error: " ++ cerr) ;;
                 ret err
             | None => ret (Some cerr)
             end
         | None => ret err
         end ;;
  match err with
  | Some err => SetState WorkerStateError ;; fail err
  | None => SetState WorkerStateDone ;; ret tt
  end.

End Worker.

Arguments ChangeSlaveTypeAction {T} alias TabletType.
Arguments StartSlaveAction {T} tablet.
Arguments StartBlpAction {T} tablet.
Arguments AtAcquire {T}.
Arguments AtScanSource {T}.
Arguments AtScanDestination {T} sourceQueryResultReader.
Arguments AtNewRowDiffer {T} sourceQueryResultReader destinationQueryResultReader.
Arguments AtGo {T} sourceQueryResultReader destinationQueryResultReader differ.
Arguments Returned {T} res.
Arguments HasDiffs {T} report.
Arguments ChecksOut {T} report.
Arguments EvStopBlp {T} t r.
Arguments EvRunBlpUntil {T} t l r.
Arguments SourceScanFailed {T} err.
Arguments DestinationScanFailed {T} err.
Arguments NewRowDifferFailed {T} err.
Arguments GoFailed {T} err.
Arguments EvSetState {T} st.
Arguments EvStartBlp {T} t r.
Arguments EvCleanUp {T} c r.
Arguments EvGetDestinationSchema {T} r.
Arguments EvGetSourceSchema {T} r.
Arguments EvAcquire {T} i.
Arguments EvRelease {T} i.
Arguments EvGetTablet {T} a r.
Arguments EvStopSlaveMinimum {T} t p r.

(** ** A concrete cluster

    A small scripted world to run the worker in: every collaborator is a
    function of the script, so a run is a computation. *)
Module Demo.

Record Script := {
  checks : nat;                   (* cancellation checks made so far *)
  cancelAt : option nat;          (* the check from which the context is cancelled *)
  servedFroms : list (TabletType * string);
  master : string;
  sourceShards : list SourceShard;
  paused : list (N * Z);          (* the master's positions when paused *)
  startBlpError : option error;
  cleanUpError : option error;
  destinationUnit : string;
  sourceTables : list TableDefinition;
  destinationTables : list TableDefinition;
  unscannable : list string;      (* tables whose source stream does not open *)
  unreadable : list string;       (* tables whose streams fail while read *)
  differing : list string         (* tables with a differing row *)
}.

Definition T : Types :=
  {| TabletAlias := string;
     TabletInfo := string;
     ReplicationPosition := Z;
     QueryResultReader := string * string;
     RowDiffer := string;
     DiffReport := Z * Z;
     World := Script |}.

Definition tick (w : Script) : Script :=
  {| checks := S (checks w); cancelAt := cancelAt w;
     servedFroms := servedFroms w; master := master w;
     sourceShards := sourceShards w; paused := paused w;
     startBlpError := startBlpError w; cleanUpError := cleanUpError w;
     destinationUnit := destinationUnit w;
     sourceTables := sourceTables w; destinationTables := destinationTables w;
     unscannable := unscannable w; unreadable := unreadable w;
     differing := differing w |}.

Definition mem (x : string) (l : list string) : bool := existsb (String.eqb x) l.

Definition extraTables (side : string) (l r : list TableDefinition) : list error :=
  flat_map (fun td =>
    if mem (Name td) (map Name r) then []
    else [side ++ " has an extra table named " ++ Name td]) l.

Definition C : Collab T :=
  {| zeroAlias := "" : TabletAlias T;
     IsZero := fun a => String.eqb a "";
     aliasString := fun a => a;
     Alias := fun t => t;
     AtLeast := fun p q => Z.leb q p;
     fmtPosition := fun p => NilEmpty.string_of_int (Z.to_int p);
     fmtBlpPositionList := fun l =>
       String.concat ","
         (map (fun e : BlpPosition T =>
                 fmtN (bpUid e) ++ ":"
                 ++ NilEmpty.string_of_int (Z.to_int (bpPosition e : Z)))
              (Entries l));
     GetKeyspace := fun _ w => (Value {| ServedFroms := servedFroms w |}, w);
     GetShard := fun _ _ w =>
       (Value {| MasterAlias := master w : TabletAlias T;
                 SourceShards := sourceShards w |}, w);
     GetTablet := fun a w => (Value a, w);
     StopBlp := fun _ w =>
       (Value {| Entries :=
                   map (fun up => {| bpUid := fst up;
                                     bpPosition := snd up : ReplicationPosition T |})
                       (paused w) |}, w);
     StopSlaveMinimum := fun _ p w => (Value (p + 1)%Z, w);
     RunBlpUntil := fun _ l w =>
       (Value (fold_left Z.max
                 (map (fun e : BlpPosition T => (bpPosition e : Z)) (Entries l)) 0
               + 1)%Z, w);
     StartBlp := fun _ w => (startBlpError w, w);
     GetSchema := fun a _ w =>
       (Value {| TableDefinitions :=
                   if String.eqb a (destinationUnit w)
                   then destinationTables w else sourceTables w |}, w);
     CleanUp := fun _ w => (cleanUpError w, w);
     DiffSchema := fun l r =>
       (extraTables "destination" (TableDefinitions l) (TableDefinitions r)
        ++ extraTables "source" (TableDefinitions r) (TableDefinitions l))%list;
     selectWorkerTablet := fun _ ks sh w => (Value (ks ++ "/" ++ sh), w);
     checkDone := fun w =>
       (match cancelAt w with
        | Some n => if Nat.leb n (checks w) then Some "context canceled" else None
        | None => None
        end, tick w);
     TableScan := fun a td w =>
       (if mem (Name td) (unscannable w) then Error "no such table"
        else Value (a, Name td), w);
     Close := fun _ w => w;
     NewRowDiffer := fun _ _ td =>
       match PrimaryKeyColumns td with
       | [] => Error "no primary key"
       | _ :: _ => Value (Name td)
       end;
     Go := fun d w =>
       (if mem d (unreadable w) then Error "connection lost"
        else Value (10, if mem d (differing w) then 1 else 0)%Z, w);
     HasDifferences := fun r => Z.ltb 0 (snd r);
     reportString := fun r => NilEmpty.string_of_int (Z.to_int (snd r)) ++ " rows differ";
     processedRows := fun r => fst r;
     processingQPS := fun _ => 100%Z |}.

Definition table (n : string) : TableDefinition :=
  {| Name := n; Columns := ["id"; "data"]; PrimaryKeyColumns := ["id"] |}.

(** A healthy cluster: the destination shard [dest/0] is fed from the
    source shard [src/0] through the filter [user]. *)
Definition healthy (src dst : list TableDefinition) : Script :=
  {| checks := 0; cancelAt := None;
     servedFroms := [(TYPE_MASTER, "src")];
     master := "cell-0000000001";
     sourceShards :=
       [ {| Uid := 7; Keyspace := "src"; Shard := "0"; Tables := ["user"] |} ];
     paused := [(7%N, 40%Z)];
     startBlpError := None; cleanUpError := None;
     destinationUnit := "dest/0";
     sourceTables := src; destinationTables := dst;
     unscannable := []; unreadable := []; differing := [] |}.

Definition withCancelAt (n : nat) (w : Script) : Script :=
  {| checks := checks w; cancelAt := Some n;
     servedFroms := servedFroms w; master := master w;
     sourceShards := sourceShards w; paused := paused w;
     startBlpError := startBlpError w; cleanUpError := cleanUpError w;
     destinationUnit := destinationUnit w;
     sourceTables := sourceTables w; destinationTables := destinationTables w;
     unscannable := unscannable w; unreadable := unreadable w;
     differing := differing w |}.

Definition withStartBlpError (e : error) (w : Script) : Script :=
  {| checks := checks w; cancelAt := cancelAt w;
     servedFroms := servedFroms w; master := master w;
     sourceShards := sourceShards w; paused := paused w;
     startBlpError := Some e; cleanUpError := cleanUpError w;
     destinationUnit := destinationUnit w;
     sourceTables := sourceTables w; destinationTables := destinationTables w;
     unscannable := unscannable w; unreadable := unreadable w;
     differing := differing w |}.

Definition withUnreadable (l : list string) (w : Script) : Script :=
  {| checks := checks w; cancelAt := cancelAt w;
     servedFroms := servedFroms w; master := master w;
     sourceShards := sourceShards w; paused := paused w;
     startBlpError := startBlpError w; cleanUpError := cleanUpError w;
     destinationUnit := destinationUnit w;
     sourceTables := sourceTables w; destinationTables := destinationTables w;
     unscannable := unscannable w; unreadable := l;
     differing := differing w |}.

Definition withDiffering (l : list string) (w : Script) : Script :=
  {| checks := checks w; cancelAt := cancelAt w;
     servedFroms := servedFroms w; master := master w;
     sourceShards := sourceShards w; paused := paused w;
     startBlpError := startBlpError w; cleanUpError := cleanUpError w;
     destinationUnit := destinationUnit w;
     sourceTables := sourceTables w; destinationTables := destinationTables w;
     unscannable := unscannable w; unreadable := unreadable w;
     differing := l |}.

Definition worker (w : Script) : VerticalSplitDiffWorker T :=
  NewVerticalSplitDiffWorker C w "cell" "dest" "0" [].

Definition inOrder : Schedule :=
  {| destinationSchemaFirst := true; taskSchedule := [] |}.

(** The worker as each phase of [run] leaves it, and after the
    cancellation check that follows the phase. *)
Definition polled (v : VerticalSplitDiffWorker T) : VerticalSplitDiffWorker T :=
  set_world (snd (checkDone C (world v))) v.

Definition afterInit (w : Script) : VerticalSplitDiffWorker T :=
  snd (init C (worker w)).

Definition afterTargets (w : Script) : VerticalSplitDiffWorker T :=
  snd (findTargets C (polled (afterInit w))).

Definition afterBarrier (w : Script) : VerticalSplitDiffWorker T :=
  snd (synchronizeReplication C (polled (afterTargets w))).

Definition atDiff (w : Script) : VerticalSplitDiffWorker T :=
  polled (afterBarrier w).

Definition afterDiff (w : Script) : VerticalSplitDiffWorker T :=
  snd (diff C goRegexp inOrder (atDiff w)).

(** What a phase adds to the trace. *)
Definition eventsSince (v v' : VerticalSplitDiffWorker T) : list (Event T) :=
  skipn (List.length (trace v)) (trace v').

(** The records of the healthy cluster. *)
Definition keyspaceRecord : KeyspaceInfo := {| ServedFroms := [(TYPE_MASTER, "src")] |}.

Definition sourceShard : SourceShard :=
  {| Uid := 7; Keyspace := "src"; Shard := "0"; Tables := ["user"] |}.

Definition shardRecord : ShardInfo T :=
  {| MasterAlias := "cell-0000000001" : TabletAlias T;
     SourceShards := [sourceShard] |}.

(** The filter [user], compiled. *)
Definition filters : list GoRegexp.Regexp :=
  match compileTableRegexps goRegexp (Tables sourceShard) with
  | Value res => res
  | Error _ => []
  end.

(** A split of the tables [user] and [user_extra] out of a source shard
    that also has [orders]; the rows of [user_extra] differ. *)
Definition splitTables : Script :=
  withDiffering ["user_extra"]
    (healthy [table "user"; table "user_extra"; table "orders"]
             [table "user"; table "user_extra"]).

(** The healthy cluster, its context cancelled from the second check
    on. *)
Definition cancelled : Script := withCancelAt 1 (healthy [] []).

(** The healthy cluster, its master refusing to resume filtered
    replication. *)
Definition stalled : Script := withStartBlpError "timeout" (healthy [] []).

(** A destination with a table its source does not have, all rows
    equal. *)
Definition uneven : Script :=
  healthy [table "user"; table "orders"] [table "user"; table "user_extra"].

Definition schemaOf (tables : list string) : SchemaDefinition :=
  {| TableDefinitions := map table tables |}.

(** The collaborators of [C], the source tablet refusing to give its
    schema. *)
Definition offline : Collab T :=
  {| zeroAlias := zeroAlias C;
     IsZero := IsZero C;
     aliasString := aliasString C;
     Alias := Alias C;
     AtLeast := AtLeast C;
     fmtPosition := fmtPosition C;
     fmtBlpPositionList := fmtBlpPositionList C;
     GetKeyspace := GetKeyspace C;
     GetShard := GetShard C;
     GetTablet := GetTablet C;
     StopBlp := StopBlp C;
     StopSlaveMinimum := StopSlaveMinimum C;
     RunBlpUntil := RunBlpUntil C;
     StartBlp := StartBlp C;
     GetSchema := fun a excluded w =>
       if String.eqb a (destinationUnit w) then GetSchema C a excluded w
       else (Error "tablet unreachable", w);
     CleanUp := CleanUp C;
     DiffSchema := DiffSchema C;
     selectWorkerTablet := selectWorkerTablet C;
     checkDone := checkDone C;
     TableScan := TableScan C;
     Close := Close C;
     NewRowDiffer := NewRowDiffer C;
     Go := Go C;
     HasDifferences := HasDifferences C;
     reportString := reportString C;
     processedRows := processedRows C;
     processingQPS := processingQPS C |}.

(** The names of the states, for the status. *)
Definition stateName (st : WorkerState) : string :=
  match st with
  | WorkerStateNotStarted => "not started"
  | WorkerStateInit => "initializing"
  | WorkerStateFindTargets => "finding target instances"
  | WorkerStateSyncReplication => "synchronizing replication"
  | WorkerStateDiff => "running the diff"
  | WorkerStateCleanUp => "cleaning up"
  | WorkerStateDone => "done"
  | WorkerStateError => "error"
  end.

End Demo.

Local Open Scope list_scope.

(** ** What the statements below speak of *)

Section Observations.

Context (T : Types) (C : Collab T).

(** What one step of a goroutine does. *)
Inductive Moved (i : nat) (v v' : VerticalSplitDiffWorker T) : Prop :=
| MovedAcquire tableDefinition :
    nth_error (tasks v) i = Some (tableDefinition, AtAcquire) ->
    tasks v' = setNth i (tableDefinition, AtScanSource) (tasks v) ->
    Semaphore.held (sem v) < Semaphore.slots (sem v) ->
    sem v' = {| Semaphore.slots := Semaphore.slots (sem v);
                Semaphore.held := S (Semaphore.held (sem v)) |} ->
    trace v' = trace v ++ [EvAcquire i] ->
    wg v' = wg v -> rec v' = rec v ->
    Moved i v v'
| MovedOn tableDefinition pc pc' :
    nth_error (tasks v) i = Some (tableDefinition, pc) ->
    tasks v' = setNth i (tableDefinition, pc') (tasks v) ->
    holding pc = true -> holding pc' = true -> rank pc' < rank pc ->
    sem v' = sem v -> trace v' = trace v -> wg v' = wg v -> rec v' = rec v ->
    Moved i v v'
| MovedReturn tableDefinition pc res :
    nth_error (tasks v) i = Some (tableDefinition, pc) ->
    tasks v' = setNth i (tableDefinition, Returned res) (tasks v) ->
    holding pc = true ->
    sem v' = Semaphore.Release (sem v) ->
    trace v' = trace v ++ [EvRelease i] ->
    wg v' = pred (wg v) ->
    rec v' = rec v ++ recorded C tableDefinition res ->
    Moved i v v'.

Definition stuck (i : nat) (v : VerticalSplitDiffWorker T) : Prop :=
  match nth_error (tasks v) i with
  | None => True
  | Some (_, pc) =>
      returned pc = true
      \/ (pc = AtAcquire /\ Semaphore.slots (sem v) <= Semaphore.held (sem v))
  end.

(** The prefixes of a trace never show more than eight goroutines between
    their [Acquire] and their [Release]. *)
Definition bounded (l : list (Event T)) : Prop :=
  forall p s : list (Event T), l = p ++ s -> acquires p <= releases p + 8.

(** The invariant of the table goroutines, from the trace [t0] and the
    accumulator [rec0] they start with. *)
Record PipeInv (t0 : list (Event T)) (rec0 : list error)
    (tds : list TableDefinition) (v : VerticalSplitDiffWorker T) : Prop := {
  pi_slots : Semaphore.slots (sem v) = 8;
  pi_held : Semaphore.held (sem v) = comparing (tasks v);
  pi_wg : wg v = pending (tasks v);
  pi_tables : map fst (tasks v) = tds;
  pi_trace : exists l,
      trace v = t0 ++ l /\ bounded l
      /\ acquires l = releases l + Semaphore.held (sem v)
      /\ Forall (fun e => isAcquire e || isRelease e = true) l;
  pi_rec : forall e,
      In e (rec v) <->
      In e rec0 \/ exists i td res,
        nth_error (tasks v) i = Some (td, Returned res) /\ In e (recorded C td res)
}.

Definition turnsFrom (a n : nat) : list nat :=
  flat_map (fun i => repeat i 5) (seq a n).

(** The fields the table goroutines leave alone. *)
Record Frame (v v' : VerticalSplitDiffWorker T) : Prop := {
  fr_State : State v' = State v;
  fr_cleaner : cleaner v' = cleaner v;
  fr_shardInfo : shardInfo v' = shardInfo v;
  fr_sourceSchema : sourceSchemaDefinition v' = sourceSchemaDefinition v;
  fr_destinationSchema : destinationSchemaDefinition v' = destinationSchemaDefinition v
}.

Definition fetchEvents (sch : Schedule) (rd rs : Reply SchemaDefinition)
  : list (Event T) :=
  if destinationSchemaFirst sch
  then [EvGetDestinationSchema rd; EvGetSourceSchema rs]
  else [EvGetSourceSchema rs; EvGetDestinationSchema rd].

Definition removalLog (tableDefinition : TableDefinition) : LogEntry :=
  (INFO, ("Removing table " ++ Name tableDefinition ++ " from source schema")%string).

Definition addLogs (l : list LogEntry) (v : VerticalSplitDiffWorker T) :=
  fold_left (fun v e => addLog (fst e) (snd e) v) l v.

(** What the schema check logs. *)
Definition schemaVerdict (mismatches : list error) : LogEntry :=
  if AllErrorRecorder.HasErrors mismatches then
    (WARNING, ("Different schemas: " ++ fmtErr (AllErrorRecorder.Error mismatches))%string)
  else (INFO, "Schema match, good.").

End Observations.

Arguments fetchEvents {T} sch rd rs.

Section DiffObservations.

Context (T : Types) (C : Collab T) (R : RegexpLib).

(** The source tables the filters keep, and those they drop. *)
Definition keptTables (tableRegexps : list (Regexp R)) (tds : list TableDefinition) :=
  filter (fun td => found R tableRegexps (Name td)) tds.

Definition droppedTables (tableRegexps : list (Regexp R)) (tds : list TableDefinition) :=
  filter (fun td => negb (found R tableRegexps (Name td))) tds.

(** The ways [diff] ends. *)
Inductive DiffOutcome (sch : Schedule) (v : VerticalSplitDiffWorker T)
    (r : Res unit) (v' : VerticalSplitDiffWorker T) : Prop :=
| DiffFetchFailed rd rs e :
    trace v' = trace v ++ EvSetState WorkerStateDiff :: fetchEvents sch rd rs ->
    errOf rd <> None \/ errOf rs <> None ->
    r = Err e ->
    tasks v' = [] ->
    DiffOutcome sch v r v'
| DiffNoSourceShard dst srcU :
    trace v' = trace v ++ EvSetState WorkerStateDiff
                 :: fetchEvents sch (Value dst) (Value srcU) ->
    (forall si ss, shardInfo v = Some si ->
                   nth_error (SourceShards si) 0 = Some ss -> False) ->
    r = Panic ->
    tasks v' = [] ->
    DiffOutcome sch v r v'
| DiffCompileFailed dst srcU si ss e :
    trace v' = trace v ++ EvSetState WorkerStateDiff
                 :: fetchEvents sch (Value dst) (Value srcU) ->
    shardInfo v = Some si ->
    nth_error (SourceShards si) 0 = Some ss ->
    compileTableRegexps R (Tables ss) = Error e ->
    r = Err e ->
    tasks v' = [] ->
    destinationSchemaDefinition v' = Some dst ->
    sourceSchemaDefinition v' = Some srcU ->
    DiffOutcome sch v r v'
| DiffRan dst srcU si ss res :
    shardInfo v = Some si ->
    nth_error (SourceShards si) 0 = Some ss ->
    compileTableRegexps R (Tables ss) = Value res ->
    let kept := {| TableDefinitions := keptTables res (TableDefinitions srcU) |} in
    destinationSchemaDefinition v' = Some dst ->
    sourceSchemaDefinition v' = Some kept ->
    PipeInv C
      (trace v ++ EvSetState WorkerStateDiff
         :: fetchEvents sch (Value dst) (Value srcU))
      (DiffSchema C dst kept) (TableDefinitions dst) v' ->
    (forall j x, nth_error (tasks v') j = Some x -> returned (snd x) = true) ->
    wg v' = 0 ->
    r = resOfErr (AllErrorRecorder.Error (rec v')) ->
    (exists l1 l2,
        logs v' = logs v ++ l1
                    ++ map removalLog (droppedTables res (TableDefinitions srcU))
                    ++ [(INFO, "Diffing the schema..."%string);
                        schemaVerdict (DiffSchema C dst kept);
                        (INFO, "Running the diffs..."%string)] ++ l2) ->
    DiffOutcome sch v r v'.

(** A table whose goroutine met a failure or found differences. *)
Definition failedOrMismatched (res : TaskResult T) : bool :=
  match res with
  | ChecksOut _ => false
  | _ => true
  end.

(** The last part of claim C1 as the specification has it: the phase
    returns an error iff the goroutine of some table met a failure or
    found differences. *)
Definition errorIffTableFailure (sch : Schedule) (v : VerticalSplitDiffWorker T)
  : Prop :=
  let r := fst (diff C R sch v) in
  let v' := snd (diff C R sch v) in
  r <> Ok tt <->
  exists i td res,
    nth_error (tasks v') i = Some (td, Returned res)
    /\ failedOrMismatched res = true.

(** Claim C7 as the specification has it: what the schema check reports
    is a warning only, that is, none of its mismatches is in the
    accumulator whose aggregate the phase returns. *)
Definition schemaMismatchOnlyWarns (sch : Schedule) (v : VerticalSplitDiffWorker T)
  : Prop :=
  let v' := snd (diff C R sch v) in
  forall dst src,
    destinationSchemaDefinition v' = Some dst ->
    sourceSchemaDefinition v' = Some src ->
    forall e, In e (DiffSchema C dst src) -> ~ In e (rec v').

End DiffObservations.

Section PhaseObservations.

Context (T : Types) (C : Collab T).

(** The remote calls of the replication barrier before its last step. *)
Definition barrierCall (e : Event T) : bool :=
  match e with
  | EvGetTablet _ _ | EvStopBlp _ _ | EvStopSlaveMinimum _ _ _
  | EvRunBlpUntil _ _ _ => true
  | _ => false
  end.

(** What [synchronizeReplication] has been through when it reaches its
    step 5: the answers of steps 1 to 4 and the cleaner [c2] they leave,
    in the world [w7]. *)
Inductive Barrier (v : VerticalSplitDiffWorker T) (si : ShardInfo T) (ss : SourceShard)
    (mi : TabletInfo T) (blp : BlpPositionList T) (pos : BlpPosition T)
    (st : TabletInfo T) (stoppedAt masterPos : ReplicationPosition T)
    (dt : TabletInfo T) (d : ReplicationPosition T)
    (c2 : Cleaner T) (w7 : World T) : Prop :=
| BarrierSteps w1 w2 w3 w4 w5 w6 c1 :
    shardInfo v = Some si ->
    nth_error (SourceShards si) 0 = Some ss ->
    GetTablet C (MasterAlias si) (world v) = (Value mi, w1) ->
    StopBlp C mi w1 = (Value blp, w2) ->
    FindBlpPositionById blp (Uid ss) = Some pos ->
    GetTablet C (sourceAlias v) w2 = (Value st, w3) ->
    StopSlaveMinimum C st (bpPosition pos) w3 = (Value stoppedAt, w4) ->
    SetChangeSlaveType
      (RecordAction
         (RecordAction (cleaner v) StartBlpActionName
            (aliasString C (Alias C mi)) (StartBlpAction mi))
         StartSlaveActionName (aliasString C (Alias C st)) (StartSlaveAction st))
      (aliasString C (sourceAlias v)) TYPE_SPARE = Value c1 ->
    RunBlpUntil C mi
      {| Entries := [ {| bpUid := Uid ss; bpPosition := stoppedAt |} ] |} w4
    = (Value masterPos, w5) ->
    GetTablet C (destinationAlias v) w5 = (Value dt, w6) ->
    StopSlaveMinimum C dt masterPos w6 = (Value d, w7) ->
    SetChangeSlaveType
      (RecordAction c1 StartSlaveActionName (aliasString C (Alias C dt))
         (StartSlaveAction dt))
      (aliasString C (destinationAlias v)) TYPE_SPARE = Value c2 ->
    Barrier v si ss mi blp pos st stoppedAt masterPos dt d c2 w7.

(** The events of steps 1 to 4. *)
Definition barrierTrace (v : VerticalSplitDiffWorker T) (si : ShardInfo T)
    (ss : SourceShard) (mi : TabletInfo T) (blp : BlpPositionList T)
    (pos : BlpPosition T) (st : TabletInfo T)
    (stoppedAt masterPos : ReplicationPosition T) (dt : TabletInfo T)
    (d : ReplicationPosition T) : list (Event T) :=
  [ EvSetState WorkerStateSyncReplication;
    EvGetTablet (MasterAlias si) (Value mi);
    EvStopBlp mi (Value blp);
    EvGetTablet (sourceAlias v) (Value st);
    EvStopSlaveMinimum st (bpPosition pos) (Value stoppedAt);
    EvRunBlpUntil mi
      {| Entries := [ {| bpUid := Uid ss; bpPosition := stoppedAt |} ] |}
      (Value masterPos);
    EvGetTablet (destinationAlias v) (Value dt);
    EvStopSlaveMinimum dt masterPos (Value d) ].

(** The actions a cleaner holds under a name and a target. *)
Definition registered (c : Cleaner T) (n t : string) : nat :=
  List.length (filter (refMatches n t) c).

(** The cleaner after the removal of step 5. *)
Definition afterRemoval (c : Cleaner T) (n t : string) : Cleaner T :=
  match RemoveActionByName c n t with
  | Some c' => c'
  | None => c
  end.

(** No cleanup among the events. *)
Definition quiet (l : list (Event T)) : Prop :=
  Forall (fun e => isCleanUp e = false) l.

(** The ways [synchronizeReplication] ends. *)
Inductive SyncOutcome (v : VerticalSplitDiffWorker T) (r : Res unit)
    (v' : VerticalSplitDiffWorker T) : Prop :=
| SyncPanic l :
    (forall si ss, shardInfo v = Some si ->
                   nth_error (SourceShards si) 0 = Some ss -> False) ->
    r = Panic ->
    trace v' = trace v ++ EvSetState WorkerStateSyncReplication :: l ->
    Forall (fun e => barrierCall e = true) l ->
    SyncOutcome v r v'
| SyncStopped e l :
    r = Err e ->
    trace v' = trace v ++ EvSetState WorkerStateSyncReplication :: l ->
    Forall (fun e => barrierCall e = true) l ->
    SyncOutcome v r v'
| SyncResumed si ss mi blp pos st stoppedAt masterPos dt d c2 w7 res w8 :
    Barrier v si ss mi blp pos st stoppedAt masterPos dt d c2 w7 ->
    StartBlp C mi w7 = (res, w8) ->
    trace v' = trace v
                 ++ barrierTrace v si ss mi blp pos st stoppedAt masterPos dt d
                 ++ [EvStartBlp mi res] ->
    cleaner v' = afterRemoval c2 StartBlpActionName (aliasString C (MasterAlias si)) ->
    r = match res with
        | Some err =>
            Err ("StartBlp on " ++ aliasString C (MasterAlias si) ++ " failed: "
                 ++ err)%string
        | None => Ok tt
        end ->
    SyncOutcome v r v'.

End PhaseObservations.

(** ** More to speak of: the run, the fields, the cleaner, the fetches, the status *)

Section RunObservations.

Context (T : Types).

(** The states a stretch of the trace goes through. *)
Fixpoint states (l : list (Event T)) : list WorkerState :=
  match l with
  | [] => []
  | EvSetState st :: l' => st :: states l'
  | _ :: l' => states l'
  end.

(** The phases of [run]. *)
Inductive Phase := PhaseInit | PhaseFindTargets | PhaseSyncReplication | PhaseDiff.

(** The states [run] has been through when it is in a phase. *)
Definition phaseStates (p : Phase) : list WorkerState :=
  match p with
  | PhaseInit => [WorkerStateInit]
  | PhaseFindTargets => [WorkerStateInit; WorkerStateFindTargets]
  | PhaseSyncReplication =>
      [WorkerStateInit; WorkerStateFindTargets; WorkerStateSyncReplication]
  | PhaseDiff =>
      [WorkerStateInit; WorkerStateFindTargets; WorkerStateSyncReplication;
       WorkerStateDiff]
  end.

(** The context [run] puts before the error of a phase. *)
Definition phaseContext (p : Phase) : string :=
  match p with
  | PhaseInit => "init() failed: "
  | PhaseFindTargets => "findTargets() failed: "
  | PhaseSyncReplication => "synchronizeReplication() failed: "
  | PhaseDiff => "diff() failed: "
  end.

End RunObservations.

Arguments states {T} l.

Section Views.

Context (T : Types).

(** A view [f] of the worker that reads none of the fields the phases
    work on: the state, the cleaner, the schemas, the accumulator, the
    goroutines with their semaphore and counter, the log, the remote
    world and the trace. *)
Record Untouched {B : Type} (f : VerticalSplitDiffWorker T -> B) : Prop := {
  ut_State : forall x v, f (set_State x v) = f v;
  ut_cleaner : forall x v, f (set_cleaner x v) = f v;
  ut_sourceSchema : forall x v, f (set_sourceSchemaDefinition x v) = f v;
  ut_destinationSchema : forall x v, f (set_destinationSchemaDefinition x v) = f v;
  ut_rec : forall x v, f (set_rec x v) = f v;
  ut_sem : forall x v, f (set_sem x v) = f v;
  ut_wg : forall x v, f (set_wg x v) = f v;
  ut_tasks : forall x v, f (set_tasks x v) = f v;
  ut_logs : forall x v, f (set_logs x v) = f v;
  ut_world : forall x v, f (set_world x v) = f v;
  ut_trace : forall x v, f (set_trace x v) = f v
}.

(** A method that leaves the view [f] as it finds it, however it ends. *)
Definition keeps {A B : Type} (f : VerticalSplitDiffWorker T -> B) (m : M T A) : Prop :=
  forall v r v', m v = (r, v') -> f v' = f v.

(** What the caller gave the worker, the records [init] reads and the
    tablets [findTargets] selects. *)
Definition settings (v : VerticalSplitDiffWorker T) :=
  (cell v, keyspace v, shard v, excludeTables v).

Definition topology (v : VerticalSplitDiffWorker T) :=
  (keyspaceInfo v, shardInfo v).

Definition targets (v : VerticalSplitDiffWorker T) :=
  (destinationAlias v, sourceAlias v).

End Views.

Section CleanerObservations.

Context (T : Types).

(** The serving type the first "restore serving type" action registered
    for a target gives back to it. *)
Definition restoresTo (c : Cleaner T) (t : string) : option TabletType :=
  match GetActionByName c ChangeSlaveTypeActionName t with
  | Some r =>
      match action r with
      | ChangeSlaveTypeAction _ ty => Some ty
      | _ => None
      end
  | None => None
  end.

End CleanerObservations.

Section FetchObservations.

Context (T : Types) (C : Collab T).

(** The answers of the two schema fetches, each from the world the
    other left when it completed first. *)
Definition fetchSchemas (sch : Schedule) (v : VerticalSplitDiffWorker T)
  : Reply SchemaDefinition * Reply SchemaDefinition * World T :=
  if destinationSchemaFirst sch then
    let (rd, w1) := GetSchema C (destinationAlias v) (excludeTables v) (world v) in
    let (rs, w2) := GetSchema C (sourceAlias v) (excludeTables v) w1 in
    (rd, rs, w2)
  else
    let (rs, w1) := GetSchema C (sourceAlias v) (excludeTables v) (world v) in
    let (rd, w2) := GetSchema C (destinationAlias v) (excludeTables v) w1 in
    (rd, rs, w2).

(** The errors of the fetches among the events, in their order. *)
Fixpoint fetchErrors (l : list (Event T)) : list error :=
  match l with
  | [] => []
  | EvGetDestinationSchema (Error e) :: l' => e :: fetchErrors l'
  | EvGetSourceSchema (Error e) :: l' => e :: fetchErrors l'
  | _ :: l' => fetchErrors l'
  end.

End FetchObservations.

Section StatusViews.

Context (T : Types).

Definition newline : string := String (ascii_of_nat 10) EmptyString.

(** [StatusAsHTML] and [StatusAsText], of a worker whose mutex is free;
    [stateString] is the [String] method of the state, which the source
    file does not define. *)
Definition StatusAsHTML (stateString : WorkerState -> string)
    (v : VerticalSplitDiffWorker T) : string :=
  let result := ("<b>Working on:</b> " ++ keyspace v ++ "/" ++ shard v ++ "</br>"
                 ++ newline)%string in
  let result := (result ++ ("<b>State:</b> " ++ stateString (State v) ++ "</br>"
                             ++ newline))%string in
  match State v with
  | WorkerStateDiff => (result ++ ("<b>Running</b>:</br>" ++ newline))%string
  | WorkerStateDone => (result ++ ("<b>Success</b>:</br>" ++ newline))%string
  | _ => result
  end.

Definition StatusAsText (stateString : WorkerState -> string)
    (v : VerticalSplitDiffWorker T) : string :=
  let result := ("Working on: " ++ keyspace v ++ "/" ++ shard v ++ newline)%string in
  let result := (result ++ ("State: " ++ stateString (State v) ++ newline))%string in
  match State v with
  | WorkerStateDiff => (result ++ ("Running..." ++ newline))%string
  | WorkerStateDone => (result ++ ("Success." ++ newline))%string
  | _ => result
  end.

End StatusViews.

(** * Facts about the table goroutines *)

Section PipelineFacts.

Context (T : Types) (C : Collab T).

Implicit Types v : VerticalSplitDiffWorker T.

Lemma setNth_length {A} i (x : A) l : List.length (setNth i x l) = List.length l.
Proof. revert i; induction l; destruct i; cbn; auto. Qed.

Lemma setNth_same {A} i (x y : A) l :
  nth_error l i = Some y -> nth_error (setNth i x l) i = Some x.
Proof. revert i; induction l; destruct i; cbn; intros; try discriminate; auto. Qed.

Lemma setNth_other {A} i j (x : A) l :
  i <> j -> nth_error (setNth i x l) j = nth_error l j.
Proof.
  revert i j; induction l; destruct i, j; cbn; intros; try congruence; auto.
Qed.

Lemma setNth_count {A} (f : A -> bool) i (x y : A) l :
  nth_error l i = Some y ->
  List.length (filter f (setNth i x l)) + (if f y then 1 else 0)
  = List.length (filter f l) + (if f x then 1 else 0).
Proof.
  revert i; induction l as [|a l IH]; destruct i; cbn; intros H; try discriminate.
  - inversion H; subst. destruct (f x), (f y); cbn; lia.
  - specialize (IH _ H). destruct (f a); cbn; lia.
Qed.

Lemma setNth_map_fst {A B} i (a : A) (b b' : B) l :
  nth_error l i = Some (a, b) -> map fst (setNth i (a, b') l) = map fst l.
Proof.
  revert i; induction l as [|x l IH]; destruct i; cbn; intros H; try discriminate; auto.
  - inversion H; subst. reflexivity.
  - f_equal; auto.
Qed.

Lemma taskStep_cases i v :
  (taskStep C i v = v /\ stuck i v) \/ Moved C i v (taskStep C i v).
Proof.
  unfold taskStep, stuck.
  destruct (nth_error (tasks v) i) as [[td pc]|] eqn:Hn; [|left; auto].
  destruct pc.
  - unfold Semaphore.Acquire.
    destruct (Nat.ltb_spec (Semaphore.held (sem v)) (Semaphore.slots (sem v))).
    + right. eapply MovedAcquire; eauto; reflexivity.
    + left. split; auto.
  - right. cbn.
    destruct (TableScan C (sourceAlias v) td (world v)) as [[sr|err] w]; cbn.
    + eapply MovedOn; eauto; cbn; auto.
    + eapply MovedReturn with (res := SourceScanFailed err); eauto; cbn; auto.
  - right. cbn.
    destruct (TableScan C (destinationAlias v) td (world v)) as [[dr|err] w]; cbn.
    + eapply MovedOn; eauto; cbn; auto.
    + eapply MovedReturn with (res := DestinationScanFailed err); eauto; cbn; auto.
  - right.
    destruct (NewRowDiffer C sourceQueryResultReader destinationQueryResultReader td) as [d|err]; cbn.
    + eapply MovedOn; eauto; cbn; auto.
    + eapply MovedReturn with (res := NewRowDifferFailed err); eauto; cbn; auto.
  - right. cbn.
    destruct (Go C differ (world v)) as [[report|err] w]; cbn.
    + destruct (HasDifferences C report) eqn:Hd; cbn.
      * eapply MovedReturn with (res := HasDiffs report); eauto; cbn; auto.
      * eapply MovedReturn with (res := ChecksOut report); eauto; cbn; auto.
        now rewrite app_nil_r.
    + eapply MovedReturn with (res := GoFailed err); eauto; cbn; auto.
      now rewrite app_nil_r.
  - left. split; auto.
Qed.

Lemma stuck_taskStep i v : stuck i v -> taskStep C i v = v.
Proof.
  intros Hs. destruct (taskStep_cases i v) as [[H _]|H]; auto.
  exfalso. unfold stuck in Hs.
  destruct H as [td Hn _ Hlt _ _ _ _ | td pc pc' Hn _ Hh _ _ _ _ _ _
                | td pc res Hn _ Hh _ _ _ _];
    rewrite Hn in Hs; destruct Hs as [Hr|[Hp Hle]]; subst;
    try discriminate; try lia; destruct pc; discriminate.
Qed.

Lemma stuck_turns i k v : stuck i v -> runSchedule C (repeat i k) v = v.
Proof.
  intros Hs. induction k; cbn; auto.
  rewrite stuck_taskStep; auto.
Qed.

Lemma bounded_nil : bounded (@nil (Event T)).
Proof.
  intros p s H. symmetry in H. apply app_eq_nil in H. destruct H; subst. cbn. lia.
Qed.

Lemma bounded_snoc (l : list (Event T)) e :
  bounded l -> acquires (l ++ [e]) <= releases (l ++ [e]) + 8 -> bounded (l ++ [e]).
Proof.
  intros Hb Hl p s H.
  destruct s as [|x s] using rev_ind.
  - rewrite app_nil_r in H. subst. exact Hl.
  - clear IHs. rewrite app_assoc in H. apply app_inj_tail in H.
    destruct H as [H _]. eapply Hb; eauto.
Qed.

Lemma acquires_app (l l' : list (Event T)) : acquires (l ++ l') = acquires l + acquires l'.
Proof. unfold acquires. now rewrite filter_app, length_app. Qed.

Lemma releases_app (l l' : list (Event T)) : releases (l ++ l') = releases l + releases l'.
Proof. unfold releases. now rewrite filter_app, length_app. Qed.

Lemma PipeInv_held_le t0 rec0 tds v :
  PipeInv C t0 rec0 tds v -> Semaphore.held (sem v) <= 8.
Proof.
  intros [_ _ _ _ (l & _ & Hb & Ha & _) _].
  specialize (Hb l [] (eq_sym (app_nil_r l))). lia.
Qed.

Lemma Moved_PipeInv t0 rec0 tds i v v' :
  Moved C i v v' -> PipeInv C t0 rec0 tds v -> PipeInv C t0 rec0 tds v'.
Proof.
  intros Hm Hi. pose proof (PipeInv_held_le Hi) as Hle.
  destruct Hi as [Hs Hh Hw Ht (l & Hl & Hb & Ha & Hf) Hr].
  destruct Hm as [td Hn Htk Hlt Hsem Htr Hwg Hrec
                 | td pc pc' Hn Htk Hh1 Hh2 Hrk Hsem Htr Hwg Hrec
                 | td pc res Hn Htk Hh1 Hsem Htr Hwg Hrec].
  - pose proof (@setNth_count _ (fun t => holding (snd t)) i (td, @AtScanSource T) _ _ Hn) as Hc.
    pose proof (@setNth_count _ (fun t => negb (returned (snd t))) i (td, @AtScanSource T) _ _ Hn) as Hp.
    cbn in Hc, Hp.
    constructor.
    + rewrite Hsem. cbn. exact Hs.
    + rewrite Hsem, Htk. cbn. unfold comparing in *. lia.
    + rewrite Hwg, Htk. unfold pending in *. lia.
    + rewrite Htk. erewrite setNth_map_fst; eauto.
    + exists (l ++ [EvAcquire i]). rewrite Htr, Hl, Hsem. cbn.
      rewrite app_assoc. split; [reflexivity|].
      assert (Hacq : acquires (l ++ [EvAcquire i]) = S (acquires l))
        by (rewrite acquires_app; cbn; lia).
      assert (Hrel : releases (l ++ [@EvAcquire T i]) = releases l)
        by (rewrite releases_app; cbn; lia).
      split; [|split].
      * apply bounded_snoc; auto. lia.
      * lia.
      * apply Forall_app. split; auto.
    + intros e. rewrite Hrec, Hr, Htk. apply or_iff_compat_l.
      split; intros (j & td' & res & Hj & He); exists j, td', res; split; auto.
      * destruct (Nat.eq_dec i j) as [->|Hne].
        -- rewrite Hn in Hj. discriminate.
        -- rewrite setNth_other; auto.
      * destruct (Nat.eq_dec i j) as [->|Hne].
        -- erewrite setNth_same in Hj; eauto. discriminate.
        -- rewrite setNth_other in Hj; auto.
  - pose proof (@setNth_count _ (fun t => holding (snd t)) i (td, pc') _ _ Hn) as Hc.
    pose proof (@setNth_count _ (fun t => negb (returned (snd t))) i (td, pc') _ _ Hn) as Hp.
    cbn in Hc, Hp. rewrite Hh1, Hh2 in Hc.
    assert (Hr1 : returned pc = false) by (destruct pc; cbn in *; congruence).
    assert (Hr2 : returned pc' = false) by (destruct pc'; cbn in *; congruence).
    rewrite Hr1, Hr2 in Hp. cbn in Hp.
    constructor.
    + now rewrite Hsem.
    + rewrite Hsem, Htk. unfold comparing in *. lia.
    + rewrite Hwg, Htk. unfold pending in *. lia.
    + rewrite Htk. erewrite setNth_map_fst; eauto.
    + exists l. rewrite Htr, Hsem. auto.
    + intros e. rewrite Hrec, Hr, Htk. apply or_iff_compat_l.
      split; intros (j & td' & res & Hj & He); exists j, td', res; split; auto.
      * destruct (Nat.eq_dec i j) as [->|Hne].
        -- rewrite Hn in Hj. inversion Hj; subst. discriminate.
        -- rewrite setNth_other; auto.
      * destruct (Nat.eq_dec i j) as [->|Hne].
        -- erewrite setNth_same in Hj; eauto. inversion Hj; subst. discriminate.
        -- rewrite setNth_other in Hj; auto.
  - pose proof (@setNth_count _ (fun t => holding (snd t)) i (td, Returned res) _ _ Hn) as Hc.
    pose proof (@setNth_count _ (fun t => negb (returned (snd t))) i (td, Returned res) _ _ Hn) as Hp.
    cbn in Hc, Hp. rewrite Hh1 in Hc.
    assert (Hr1 : returned pc = false) by (destruct pc; cbn in *; congruence).
    rewrite Hr1 in Hp. cbn in Hp.
    constructor.
    + rewrite Hsem. exact Hs.
    + rewrite Hsem, Htk. cbn. unfold comparing in *. lia.
    + rewrite Hwg, Htk. unfold pending in *. lia.
    + rewrite Htk. erewrite setNth_map_fst; eauto.
    + exists (l ++ [EvRelease i]). rewrite Htr, Hl, Hsem. cbn.
      rewrite app_assoc. split; [reflexivity|].
      assert (Hacq : acquires (l ++ [@EvRelease T i]) = acquires l)
        by (rewrite acquires_app; cbn; lia).
      assert (Hrel : releases (l ++ [@EvRelease T i]) = S (releases l))
        by (rewrite releases_app; cbn; lia).
      assert (0 < Semaphore.held (sem v)) by (unfold comparing in *; lia).
      split; [|split].
      * apply bounded_snoc; auto. lia.
      * lia.
      * apply Forall_app. split; auto.
    + intros e. rewrite Hrec, in_app_iff, Hr, Htk.
      split.
      * intros [[H|(j & td' & res' & Hj & He)]|H].
        -- now left.
        -- right. exists j, td', res'. split; auto.
           destruct (Nat.eq_dec i j) as [->|Hne].
           ++ rewrite Hn in Hj. inversion Hj; subst. discriminate.
           ++ rewrite setNth_other; auto.
        -- right. exists i, td, res. split; auto. eapply setNth_same; eauto.
      * intros [H|(j & td' & res' & Hj & He)].
        -- left. now left.
        -- destruct (Nat.eq_dec i j) as [->|Hne].
           ++ erewrite setNth_same in Hj; eauto. inversion Hj; subst. now right.
           ++ rewrite setNth_other in Hj; auto.
              left. right. exists j, td', res'. auto.
Qed.

Lemma taskStep_PipeInv t0 rec0 tds i v :
  PipeInv C t0 rec0 tds v -> PipeInv C t0 rec0 tds (taskStep C i v).
Proof.
  intros Hi. destruct (taskStep_cases i v) as [[-> _]|Hm]; auto.
  eapply Moved_PipeInv; eauto.
Qed.

Lemma runSchedule_PipeInv t0 rec0 tds turns v :
  PipeInv C t0 rec0 tds v -> PipeInv C t0 rec0 tds (runSchedule C turns v).
Proof.
  revert v. induction turns as [|i turns IH]; cbn; intros v Hi; auto.
  apply IH. now apply taskStep_PipeInv.
Qed.

Lemma runSchedule_app l l' v :
  runSchedule C (l ++ l') v = runSchedule C l' (runSchedule C l v).
Proof. unfold runSchedule. now rewrite fold_left_app. Qed.


Lemma Moved_others i v v' :
  Moved C i v v' ->
  (forall j, j <> i -> nth_error (tasks v') j = nth_error (tasks v) j).
Proof.
  intros Hm j Hj.
  destruct Hm as [td Hn Htk _ _ _ _ _ | td pc pc' Hn Htk _ _ _ _ _ _ _
                 | td pc res Hn Htk _ _ _ _ _];
    rewrite Htk; apply setNth_other; auto.
Qed.

Lemma taskStep_others i v j :
  j <> i -> nth_error (tasks (taskStep C i v)) j = nth_error (tasks v) j.
Proof.
  intros Hj. destruct (taskStep_cases i v) as [[-> _]|Hm]; auto.
  eapply Moved_others; eauto.
Qed.

Lemma turns_others i k v j :
  j <> i ->
  nth_error (tasks (runSchedule C (repeat i k) v)) j = nth_error (tasks v) j.
Proof.
  intros Hj. revert v. induction k; cbn; intros v; auto.
  unfold runSchedule in IHk. rewrite IHk. now apply taskStep_others.
Qed.

(** Goroutine [i], given [k] turns, returns, unless it finds the
    semaphore full, or has more than [k] calls before it. *)
Lemma turns_progress i k v td pc :
  nth_error (tasks v) i = Some (td, pc) ->
  exists pc',
    nth_error (tasks (runSchedule C (repeat i k) v)) i = Some (td, pc')
    /\ (returned pc' = true
        \/ (pc' = AtAcquire /\ pc = AtAcquire
            /\ Semaphore.slots (sem v) <= Semaphore.held (sem v))
        \/ rank pc' + k <= rank pc).
Proof.
  revert v pc. induction k as [|k IH]; intros v pc Hn.
  - cbn. exists pc. split; auto. right. right. lia.
  - destruct (taskStep_cases i v) as [[He Hs]|Hm].
    + rewrite stuck_turns by
        (unfold stuck in *; rewrite Hn in *; exact Hs).
      exists pc. split; auto.
      unfold stuck in Hs. rewrite Hn in Hs.
      destruct Hs as [Hr|[-> Hle]]; auto.
    + change (runSchedule C (repeat i (S k)) v)
        with (runSchedule C (repeat i k) (taskStep C i v)).
      destruct Hm as [td' Hn' Htk Hlt _ _ _ _ | td' pc0 pc1 Hn' Htk _ Hh Hrk _ _ _ _
                     | td' pc0 res Hn' Htk _ _ _ _ _];
        rewrite Hn in Hn'; inversion Hn'; subst td' ; try subst pc; try subst pc0.
      * assert (H1 : nth_error (tasks (taskStep C i v)) i = Some (td, @AtScanSource T))
          by (rewrite Htk; eapply setNth_same; eauto).
        destruct (IH _ _ H1) as (pc' & Hp & Hc). exists pc'. split; auto.
        destruct Hc as [Hc|[(_ & Hc & _)|Hc]]; auto; try discriminate.
        right. right. cbn in *. lia.
      * assert (H1 : nth_error (tasks (taskStep C i v)) i = Some (td, pc1))
          by (rewrite Htk; eapply setNth_same; eauto).
        destruct (IH _ _ H1) as (pc' & Hp & Hc). exists pc'. split; auto.
        destruct Hc as [Hc|[(_ & Hc & _)|Hc]]; auto.
        -- subst. discriminate.
        -- right. right. lia.
      * assert (H1 : nth_error (tasks (taskStep C i v)) i = Some (td, Returned res))
          by (rewrite Htk; eapply setNth_same; eauto).
        destruct (IH _ _ H1) as (pc' & Hp & Hc). exists pc'. split; auto.
        destruct Hc as [Hc|[(_ & Hc & _)|Hc]]; auto; try discriminate.
        left. cbn in Hc. destruct pc'; cbn in *; auto; lia.
Qed.

Lemma rank_le pc : rank (T := T) pc <= 5.
Proof. destruct pc; cbn; lia. Qed.

Lemma rank_zero pc : rank (T := T) pc = 0 -> returned pc = true.
Proof. destruct pc; cbn; auto; discriminate. Qed.

(** After five turns a goroutine has returned or still waits for the
    semaphore, which was full when its turns began. *)
Lemma five_turns i v td pc :
  nth_error (tasks v) i = Some (td, pc) ->
  exists pc',
    nth_error (tasks (runSchedule C (repeat i 5) v)) i = Some (td, pc')
    /\ (returned pc' = true
        \/ (pc' = AtAcquire /\ Semaphore.slots (sem v) <= Semaphore.held (sem v))).
Proof.
  intros Hn. destruct (@turns_progress i 5 v td pc Hn) as (pc' & Hp & Hc).
  exists pc'. split; auto.
  destruct Hc as [Hc|[(Hc & _ & Hle)|Hc]]; auto.
  left. apply rank_zero. pose proof (rank_le pc). lia.
Qed.

Lemma comparing_zero ts :
  (forall j x, nth_error ts j = Some x -> holding (T := T) (snd x) = false) ->
  comparing ts = 0.
Proof.
  induction ts as [|t ts IH]; intros H; auto.
  unfold comparing in *. cbn.
  rewrite (H 0 t eq_refl). apply IH. intros j x Hj. apply (H (S j) x Hj).
Qed.

Lemma pending_zero ts :
  (forall j x, nth_error ts j = Some x -> returned (T := T) (snd x) = true) ->
  pending ts = 0.
Proof.
  induction ts as [|t ts IH]; intros H; auto.
  unfold pending in *. cbn.
  rewrite (H 0 t eq_refl). cbn. apply IH. intros j x Hj. apply (H (S j) x Hj).
Qed.

(** First round: every goroutine that holds a slot returns. *)
Lemma first_round n a v :
  (forall j x, j < a -> nth_error (tasks v) j = Some x -> holding (snd x) = false) ->
  forall j x, j < a + n ->
    nth_error (tasks (runSchedule C (turnsFrom a n) v)) j = Some x ->
    holding (snd x) = false.
Proof.
  revert a v. induction n as [|n IH]; intros a v Hlow j x Hj Hx.
  - cbn in Hx. apply (Hlow j x); auto. lia.
  - unfold turnsFrom in *. cbn [seq flat_map] in Hx.
    rewrite runSchedule_app in Hx.
    apply (IH (S a) (runSchedule C (repeat a 5) v)) with (j := j); auto; [|lia].
    intros j' x' Hj' Hx'.
    destruct (Nat.eq_dec j' a) as [->|Hne].
    + destruct (nth_error (tasks v) a) as [[td pc]|] eqn:Hn.
      * destruct (@five_turns a v td pc Hn) as (pc' & Hp & Hc).
        rewrite Hp in Hx'. inversion Hx'; subst. cbn.
        destruct Hc as [Hc|[-> _]]; auto. destruct pc'; cbn in *; auto; discriminate.
      * assert (Hst : stuck a v) by (unfold stuck; now rewrite Hn).
        rewrite stuck_turns in Hx' by auto. congruence.
    + rewrite turns_others in Hx' by auto. apply (Hlow j' x'); auto. lia.
Qed.

(** Second round: with no slot held, every goroutine still waiting gets
    one and returns. *)
Lemma second_round t0 rec0 tds n a v :
  PipeInv C t0 rec0 tds v ->
  (forall j x, nth_error (tasks v) j = Some x -> holding (snd x) = false) ->
  (forall j x, j < a -> nth_error (tasks v) j = Some x -> returned (snd x) = true) ->
  forall j x, j < a + n ->
    nth_error (tasks (runSchedule C (turnsFrom a n) v)) j = Some x ->
    returned (snd x) = true.
Proof.
  revert a v. induction n as [|n IH]; intros a v Hi Hnh Hlow j x Hj Hx.
  - cbn in Hx. apply (Hlow j x); auto. lia.
  - unfold turnsFrom in *. cbn [seq flat_map] in Hx.
    rewrite runSchedule_app in Hx.
    assert (Hheld : Semaphore.held (sem v) = 0)
      by (rewrite (pi_held Hi); now apply comparing_zero).
    pose proof (pi_slots Hi) as Hslots.
    assert (Ha : forall x', nth_error (tasks (runSchedule C (repeat a 5) v)) a = Some x' ->
                       returned (snd x') = true).
    { intros x' Hx'.
      destruct (nth_error (tasks v) a) as [[td pc]|] eqn:Hn.
      - destruct (@five_turns a v td pc Hn) as (pc' & Hp & Hc).
        rewrite Hp in Hx'. inversion Hx'; subst. cbn.
        destruct Hc as [Hc|[_ Hle]]; auto. lia.
      - assert (Hst : stuck a v) by (unfold stuck; now rewrite Hn).
        rewrite stuck_turns in Hx' by auto. congruence. }
    apply (IH (S a) (runSchedule C (repeat a 5) v)) with (j := j); auto; [| | |lia].
    + now apply runSchedule_PipeInv.
    + intros j' x' Hx'.
      destruct (Nat.eq_dec j' a) as [->|Hne].
      * specialize (Ha x' Hx'). destruct x' as [? []]; cbn in *; auto; discriminate.
      * rewrite turns_others in Hx' by auto. eauto.
    + intros j' x' Hj' Hx'.
      destruct (Nat.eq_dec j' a) as [->|Hne]; auto.
      rewrite turns_others in Hx' by auto. apply (Hlow j' x'); auto. lia.
Qed.

Lemma runSchedule_length turns v :
  List.length (tasks (runSchedule C turns v)) = List.length (tasks v).
Proof.
  revert v. induction turns as [|i turns IH]; cbn; intros v; auto.
  unfold runSchedule in IH. rewrite IH.
  destruct (taskStep_cases i v) as [[-> _]|Hm]; auto.
  destruct Hm as [td Hn Htk _ _ _ _ _ | td pc pc' Hn Htk _ _ _ _ _ _ _
                 | td pc res Hn Htk _ _ _ _ _];
    rewrite Htk; apply setNth_length.
Qed.

(** When the phase waits, every goroutine returns. *)
Lemma wait_completes t0 rec0 tds v :
  PipeInv C t0 rec0 tds v ->
  let n := List.length (tasks v) in
  let v' := runSchedule C (turnsForAll n ++ turnsForAll n) v in
  PipeInv C t0 rec0 tds v'
  /\ (forall j x, nth_error (tasks v') j = Some x -> returned (snd x) = true)
  /\ wg v' = 0.
Proof.
  intros Hi n v'.
  assert (Hi' : PipeInv C t0 rec0 tds v') by now apply runSchedule_PipeInv.
  assert (Hall : forall j x, nth_error (tasks v') j = Some x -> returned (snd x) = true).
  { subst v'. rewrite runSchedule_app.
    set (v1 := runSchedule C (turnsForAll n) v).
    assert (Hlen : List.length (tasks v1) = n) by apply runSchedule_length.
    intros j x Hx.
    assert (Hj : j < n).
    { rewrite <- Hlen. erewrite <- runSchedule_length.
      apply nth_error_Some. rewrite Hx. discriminate. }
    apply (@second_round t0 rec0 tds n 0 v1) with (j := j); auto.
    - now apply runSchedule_PipeInv.
    - intros j' x' Hx'.
      assert (Hj' : j' < n)
        by (rewrite <- Hlen; apply nth_error_Some; rewrite Hx'; discriminate).
      apply (@first_round n 0 v) with (j := j'); auto.
      intros ? ? Hlt. lia.
    - intros ? ? Hlt. lia. }
  split; [|split]; auto.
  rewrite (pi_wg Hi'). now apply pending_zero.
Qed.

End PipelineFacts.


(** * What the table goroutines leave alone *)

Section FrameFacts.

Context (T : Types) (C : Collab T) (R : RegexpLib).

Implicit Types v : VerticalSplitDiffWorker T.

Lemma Frame_refl v : Frame v v.
Proof. constructor; reflexivity. Qed.

Lemma Frame_trans v1 v2 v3 : Frame v1 v2 -> Frame v2 v3 -> Frame v1 v3.
Proof. intros [] []; constructor; congruence. Qed.

Lemma taskStep_Frame i v : Frame v (taskStep C i v).
Proof.
  unfold taskStep.
  destruct (nth_error (tasks v) i) as [[td pc]|]; [|apply Frame_refl].
  destruct pc; try apply Frame_refl.
  - destruct (Semaphore.Acquire (sem v)); [constructor; reflexivity|apply Frame_refl].
  - cbn. destruct (TableScan C (sourceAlias v) td (world v)) as [[?|?] ?];
      constructor; reflexivity.
  - cbn. destruct (TableScan C (destinationAlias v) td (world v)) as [[?|?] ?];
      constructor; reflexivity.
  - destruct (NewRowDiffer C sourceQueryResultReader destinationQueryResultReader td);
      constructor; reflexivity.
  - cbn. destruct (Go C differ (world v)) as [[report|?] ?];
      [destruct (HasDifferences C report)|]; constructor; reflexivity.
Qed.

Lemma runSchedule_Frame turns v : Frame v (runSchedule C turns v).
Proof.
  revert v. induction turns as [|i turns IH]; cbn; intros v; [apply Frame_refl|].
  eapply Frame_trans; [apply taskStep_Frame|apply IH].
Qed.

End FrameFacts.

Local Arguments String.append : simpl never.

(** * Running the monad step by step *)

Section Stepping.

Context (T : Types) (C : Collab T).

Implicit Types v : VerticalSplitDiffWorker T.

Lemma bind_run {A B} (m : M T A) (k : A -> M T B) v r v1 :
  m v = (r, v1) ->
  bind m k v = match r with
               | Ok a => k a v1
               | Err e => (Err e, v1)
               | Panic => (Panic, v1)
               end.
Proof. intros H. unfold bind. now rewrite H. Qed.

Lemma remote_run {A} (f : World T -> Reply A * World T) ev v r w :
  f (world v) = (r, w) ->
  remote f ev v = (Ok r, set_trace (trace v ++ ev r) (set_world w v)).
Proof. intros H. unfold remote. now rewrite H. Qed.

Lemma tmcStartBlp_run t v r w :
  StartBlp C t (world v) = (r, w) ->
  tmcStartBlp C t v = (Ok r, set_trace (trace v ++ [EvStartBlp t r]) (set_world w v)).
Proof. intros H. unfold tmcStartBlp. now rewrite H. Qed.

Lemma cleanerCleanUp_run v r w :
  CleanUp C (cleaner v) (world v) = (r, w) ->
  cleanerCleanUp C v
  = (Ok r, set_trace (trace v ++ [EvCleanUp (cleaner v) r]) (set_world w v)).
Proof. intros H. unfold cleanerCleanUp. now rewrite H. Qed.

Lemma checkDone_run v r w :
  checkDone C (world v) = (r, w) ->
  checkDone_ C v = (resOfErr r, set_world w v).
Proof.
  intros H. unfold checkDone_, ctxCheckDone, bind, returnError. rewrite H.
  destruct r; reflexivity.
Qed.

Lemma mapErr_run {A} (h : error -> error) (m : M T A) v r v1 :
  m v = (r, v1) ->
  mapErr h m v = (match r with Err e => Err (h e) | _ => r end, v1).
Proof. intros H. unfold mapErr. rewrite H. destruct r; reflexivity. Qed.

Lemma attempt_run (m : M T unit) v r v1 :
  m v = (r, v1) ->
  attempt m v = (match r with
                 | Ok _ => Ok None
                 | Err e => Ok (Some e)
                 | Panic => Panic
                 end, v1).
Proof. intros H. unfold attempt. rewrite H. destruct r; reflexivity. Qed.

Lemma changeSlaveTypeToSpare_run a v :
  changeSlaveTypeToSpare C a v
  = match SetChangeSlaveType (cleaner v) (aliasString C a) TYPE_SPARE with
    | Error err =>
        (Err ("cannot find ChangeSlaveType action for " ++ aliasString C a ++ ": "
              ++ err)%string, v)
    | Value c => (Ok tt, set_cleaner c v)
    end.
Proof.
  unfold changeSlaveTypeToSpare, bind, get, modify, fail.
  destruct (SetChangeSlaveType _ _ _); reflexivity.
Qed.

End Stepping.

(** Reduce the projections of a state built by setters. *)
Ltac fields :=
  cbn [State cell keyspace shard excludeTables cleaner keyspaceInfo shardInfo
       sourceAlias destinationAlias sourceSchemaDefinition
       destinationSchemaDefinition rec sem wg tasks logs world trace
       set_State set_cleaner set_keyspaceInfo set_shardInfo set_sourceAlias
       set_destinationAlias set_sourceSchemaDefinition
       set_destinationSchemaDefinition set_rec set_sem set_wg set_tasks
       set_logs set_world set_trace addLog recordError] in *.

(** One step of a primitive action of the monad. *)
Ltac prim :=
  erewrite bind_run by reflexivity; cbv beta iota.

(** One remote call, whose answer is the hypothesis [H]. *)
Ltac call H :=
  erewrite bind_run by
    (first [ unfold topoGetKeyspace | unfold topoGetShard | unfold topoGetTablet
           | unfold tmcStopBlp | unfold tmcStopSlaveMinimum | unfold tmcRunBlpUntil
           | idtac ];
     apply remote_run; fields; exact H);
  cbv beta iota.

(** Name the answer of a call without touching the goal. *)
Ltac answer t r w H :=
  let X := fresh in
  assert (X : exists r' w', t = (r', w')) by (destruct t; eauto);
  destruct X as (r & w & H).

(** * Facts about the blocks of [diff] *)

Section DiffFacts.

Context (T : Types) (C : Collab T) (R : RegexpLib).

Implicit Types v : VerticalSplitDiffWorker T.

Lemma getDestinationSchema_run v rd w :
  GetSchema C (destinationAlias v) (excludeTables v) (world v) = (rd, w) ->
  getDestinationSchema C v
  = (Ok tt,
     addLog INFO ("Got schema from destination " ++ aliasString C (destinationAlias v))
       (recordError (errOf rd)
          (set_destinationSchemaDefinition (valueOf rd)
             (set_trace (trace v ++ [EvGetDestinationSchema rd]) (set_world w v))))).
Proof.
  intros H. unfold getDestinationSchema. prim. call H. prim. prim. reflexivity.
Qed.

Lemma getSourceSchema_run v rs w :
  GetSchema C (sourceAlias v) (excludeTables v) (world v) = (rs, w) ->
  getSourceSchema C v
  = (Ok tt,
     addLog INFO ("Got schema from source " ++ aliasString C (sourceAlias v))
       (recordError (errOf rs)
          (set_sourceSchemaDefinition (valueOf rs)
             (set_trace (trace v ++ [EvGetSourceSchema rs]) (set_world w v))))).
Proof.
  intros H. unfold getSourceSchema. prim. call H. prim. prim. reflexivity.
Qed.

Lemma gatherSchemas_spec sch v :
  exists rd rs r v',
    gatherSchemas C sch v = (r, v')
    /\ trace v' = trace v ++ fetchEvents sch rd rs
    /\ destinationSchemaDefinition v' = valueOf rd
    /\ sourceSchemaDefinition v' = valueOf rs
    /\ State v' = State v /\ cleaner v' = cleaner v /\ shardInfo v' = shardInfo v
    /\ tasks v' = [] /\ wg v' = 0
    /\ (exists l, logs v' = logs v ++ l)
    /\ ((exists dst src, rd = Value dst /\ rs = Value src /\ r = Ok tt)
        \/ ((errOf rd <> None \/ errOf rs <> None) /\ exists e, r = Err e)).
Proof.
  unfold fetchEvents.
  destruct (destinationSchemaFirst sch) eqn:Hfirst.
  - answer (GetSchema C (destinationAlias v) (excludeTables v) (world v)) rd w1 H1.
    answer (GetSchema C (sourceAlias v) (excludeTables v) w1) rs w2 H2.
    exists rd, rs.
    unfold gatherSchemas. rewrite Hfirst.
    prim. prim. prim. prim.
    erewrite bind_run.
    2:{ erewrite bind_run by (apply getDestinationSchema_run; fields; exact H1).
        cbv beta iota. apply getSourceSchema_run. fields. exact H2. }
    cbv beta iota. prim. fields.
    destruct rd as [dst|e1], rs as [src|e2]; cbn [errOf AllErrorRecorder.RecordError
      AllErrorRecorder.HasErrors AllErrorRecorder.Error AllErrorRecorder.empty app
      returnError valueOf];
      do 2 eexists; (split; [reflexivity|]); fields; rewrite <- ?app_assoc;
      repeat (split; [reflexivity|]); (split; [eexists; reflexivity|]).
    + left. exists dst, src. auto.
    + right. split; [right; discriminate|eexists; reflexivity].
    + right. split; [left; discriminate|eexists; reflexivity].
    + right. split; [left; discriminate|eexists; reflexivity].
  - answer (GetSchema C (sourceAlias v) (excludeTables v) (world v)) rs w1 H1.
    answer (GetSchema C (destinationAlias v) (excludeTables v) w1) rd w2 H2.
    exists rd, rs.
    unfold gatherSchemas. rewrite Hfirst.
    prim. prim. prim. prim.
    erewrite bind_run.
    2:{ erewrite bind_run by (apply getSourceSchema_run; fields; exact H1).
        cbv beta iota. apply getDestinationSchema_run. fields. exact H2. }
    cbv beta iota. prim. fields.
    destruct rd as [dst|e1], rs as [src|e2]; cbn [errOf AllErrorRecorder.RecordError
      AllErrorRecorder.HasErrors AllErrorRecorder.Error AllErrorRecorder.empty app
      returnError valueOf];
      do 2 eexists; (split; [reflexivity|]); fields; rewrite <- ?app_assoc;
      repeat (split; [reflexivity|]); (split; [eexists; reflexivity|]).
    + left. exists dst, src. auto.
    + right. split; [right; discriminate|eexists; reflexivity].
    + right. split; [left; discriminate|eexists; reflexivity].
    + right. split; [left; discriminate|eexists; reflexivity].
Qed.


Lemma removeUnneededTables_spec res tds v :
  removeUnneededTables R res tds v
  = (Ok (keptTables R res tds), addLogs (map removalLog (droppedTables R res tds)) v).
Proof.
  unfold keptTables, droppedTables.
  revert v. induction tds as [|td tds IH]; intros v; [reflexivity|].
  cbn [removeUnneededTables filter map]. destruct (found R res (Name td)).
  - erewrite bind_run by apply IH. reflexivity.
  - prim. rewrite IH. reflexivity.
Qed.

Lemma found_existsb res n :
  found R res n = existsb (fun re => MatchString R re n) res.
Proof.
  induction res as [|re res IH]; cbn; auto.
  destruct (MatchString R re n); auto.
Qed.

Lemma addLogs_fields l v :
  Frame v (addLogs l v) /\ trace (addLogs l v) = trace v
  /\ tasks (addLogs l v) = tasks v /\ wg (addLogs l v) = wg v
  /\ rec (addLogs l v) = rec v /\ logs (addLogs l v) = logs v ++ l.
Proof.
  revert v. induction l as [|e l IH]; intros v.
  - cbn. repeat split; auto. now rewrite app_nil_r.
  - change (addLogs (e :: l) v) with (addLogs l (addLog (fst e) (snd e) v)).
    destruct (IH (addLog (fst e) (snd e) v)) as (Hf & H1 & H2 & H3 & H4 & Hl).
    destruct Hf. repeat split; auto.
    rewrite Hl. fields. rewrite <- app_assoc. destruct e; reflexivity.
Qed.

Lemma filterSourceSchema_ok v dst srcU si ss res :
  shardInfo v = Some si ->
  nth_error (SourceShards si) 0 = Some ss ->
  compileTableRegexps R (Tables ss) = Value res ->
  destinationSchemaDefinition v = Some dst ->
  sourceSchemaDefinition v = Some srcU ->
  filterSourceSchema R v
  = (Ok tt,
     set_sourceSchemaDefinition
       (Some {| TableDefinitions := keptTables R res (TableDefinitions srcU) |})
       (addLogs (map removalLog (droppedTables R res (TableDefinitions srcU))) v)).
Proof.
  intros Hsi Hss Hc Hd Hs. unfold filterSourceSchema.
  prim. rewrite Hsi. prim. rewrite Hss. prim. rewrite Hc, Hd. prim. rewrite Hs. prim.
  erewrite bind_run by apply removeUnneededTables_spec.
  reflexivity.
Qed.

Lemma filterSourceSchema_error v si ss e :
  shardInfo v = Some si ->
  nth_error (SourceShards si) 0 = Some ss ->
  compileTableRegexps R (Tables ss) = Error e ->
  filterSourceSchema R v = (Err e, v).
Proof.
  intros Hsi Hss Hc. unfold filterSourceSchema.
  prim. rewrite Hsi. prim. rewrite Hss. prim. rewrite Hc. reflexivity.
Qed.

Lemma filterSourceSchema_panic v :
  (forall si ss, shardInfo v = Some si -> nth_error (SourceShards si) 0 = Some ss -> False) ->
  filterSourceSchema R v = (Panic, v).
Proof.
  intros H. unfold filterSourceSchema. prim.
  destruct (shardInfo v) as [si|]; [|reflexivity]. prim.
  destruct (nth_error (SourceShards si) 0) as [ss|] eqn:Hss; [|reflexivity].
  exfalso. eapply H; eauto.
Qed.

Lemma recordErrors_fields l v :
  let v' := fold_left (fun v err => recordError (Some err) v) l v in
  Frame v v' /\ trace v' = trace v /\ tasks v' = tasks v /\ wg v' = wg v
  /\ rec v' = rec v ++ l /\ logs v' = logs v.
Proof.
  revert v. induction l as [|e l IH]; intros v.
  - cbn. repeat split; auto. now rewrite app_nil_r.
  - cbn [fold_left].
    destruct (IH (recordError (Some e) v)) as (Hf & H1 & H2 & H3 & Hr & Hl).
    destruct Hf. cbv zeta. repeat split; auto.
    rewrite Hr. cbn. now rewrite <- app_assoc.
Qed.

Lemma checkSchema_spec v dst src :
  destinationSchemaDefinition v = Some dst ->
  sourceSchemaDefinition v = Some src ->
  exists v',
    checkSchema C v = (Ok tt, v')
    /\ rec v' = DiffSchema C dst src
    /\ Frame v v' /\ trace v' = trace v /\ tasks v' = tasks v /\ wg v' = wg v
    /\ logs v' = logs v ++ [(INFO, "Diffing the schema..."%string);
                            schemaVerdict (DiffSchema C dst src)].
Proof.
  intros Hd Hs. unfold checkSchema.
  prim. prim. prim. fields. rewrite Hd. prim. rewrite Hs. prim. prim.
  set (v0 := set_rec AllErrorRecorder.empty (addLog INFO "Diffing the schema..." v)).
  destruct (recordErrors_fields (DiffSchema C dst src) v0)
    as (Hf & Ht & Hk & Hw & Hr & Hl).
  cbv zeta in Hf, Ht, Hk, Hw, Hr, Hl.
  set (v1 := fold_left _ (DiffSchema C dst src) v0) in *.
  assert (Hrec : rec v1 = DiffSchema C dst src) by (rewrite Hr; reflexivity).
  prim. unfold schemaVerdict. rewrite Hrec.
  destruct Hf.
  destruct (AllErrorRecorder.HasErrors (DiffSchema C dst src));
    eexists; (split; [reflexivity|]); fields;
    rewrite ?Hrec, ?Ht, ?Hk, ?Hw, ?Hl; subst v0; fields;
    (repeat split; auto); now rewrite <- app_assoc.
Qed.

Lemma comparing_launch (tds : list TableDefinition) :
  comparing (map (fun td => (td, @AtAcquire T)) tds) = 0.
Proof. unfold comparing. induction tds; cbn; auto. Qed.

Lemma pending_launch (tds : list TableDefinition) :
  pending (map (fun td => (td, @AtAcquire T)) tds) = List.length tds.
Proof. unfold pending. induction tds; cbn; auto. Qed.

Lemma taskStep_logs i v : exists l, logs (taskStep C i v) = logs v ++ l.
Proof.
  unfold taskStep.
  destruct (nth_error (tasks v) i) as [[td pc]|];
    [|exists []; now rewrite app_nil_r].
  destruct pc; try (exists []; now rewrite app_nil_r).
  - destruct (Semaphore.Acquire (sem v)); exists []; now rewrite app_nil_r.
  - cbn. destruct (TableScan C (sourceAlias v) td (world v)) as [[?|?] ?]; cbn;
      rewrite <- ?app_assoc; eexists; reflexivity.
  - cbn. destruct (TableScan C (destinationAlias v) td (world v)) as [[?|?] ?]; cbn;
      [exists []; now rewrite app_nil_r|eexists; reflexivity].
  - destruct (NewRowDiffer C sourceQueryResultReader destinationQueryResultReader td);
      cbn; [exists []; now rewrite app_nil_r|eexists; reflexivity].
  - cbn. destruct (Go C differ (world v)) as [[report|?] ?];
      [destruct (HasDifferences C report)|]; cbn; eexists; reflexivity.
Qed.

Lemma runSchedule_logs turns v : exists l, logs (runSchedule C turns v) = logs v ++ l.
Proof.
  revert v. induction turns as [|i turns IH]; cbn; intros v.
  - exists []. now rewrite app_nil_r.
  - destruct (taskStep_logs i v) as (l1 & H1).
    destruct (IH (taskStep C i v)) as (l2 & H2).
    exists (l1 ++ l2). unfold runSchedule in H2. rewrite H2, H1. now rewrite app_assoc.
Qed.

Lemma wgWait_run v :
  wg (runSchedule C (turnsForAll (List.length (tasks v))
                     ++ turnsForAll (List.length (tasks v))) v) = 0 ->
  wgWait C v
  = (Ok tt, runSchedule C (turnsForAll (List.length (tasks v))
                           ++ turnsForAll (List.length (tasks v))) v).
Proof.
  intros H. unfold wgWait. prim. prim. rewrite H. reflexivity.
Qed.

Lemma runDiffs_spec sch v dst :
  destinationSchemaDefinition v = Some dst ->
  wg v = 0 ->
  exists v',
    runDiffs C sch v = (resOfErr (AllErrorRecorder.Error (rec v')), v')
    /\ PipeInv C (trace v) (rec v) (TableDefinitions dst) v'
    /\ (forall j x, nth_error (tasks v') j = Some x -> returned (snd x) = true)
    /\ wg v' = 0
    /\ Frame v v'
    /\ exists l, logs v' = logs v ++ (INFO, "Running the diffs..."%string) :: l.
Proof.
  intros Hd Hw. unfold runDiffs.
  prim. prim. prim. fields. rewrite Hd. prim. prim. prim.
  set (v00 := set_sem (Semaphore.NewSemaphore 8) (addLog INFO "Running the diffs..." v)).
  set (v0 := set_wg _ (set_tasks _ v00)).
  assert (Hi0 : PipeInv C (trace v) (rec v) (TableDefinitions dst) v0).
  { subst v0 v00. constructor; fields.
    - reflexivity.
    - now rewrite comparing_launch.
    - rewrite pending_launch. cbn. lia.
    - rewrite map_map. cbn. apply map_id.
    - exists []. rewrite app_nil_r. repeat split; auto.
      intros p s H. symmetry in H. apply app_eq_nil in H. destruct H; subst. cbn. lia.
    - intros e. split; auto. intros [H|(j & td & res & Hj & _)]; auto.
      exfalso. rewrite nth_error_map in Hj.
      destruct (nth_error (TableDefinitions dst) j); discriminate. }
  set (v1 := runSchedule C (taskSchedule sch) v0).
  assert (Hi1 : PipeInv C (trace v) (rec v) (TableDefinitions dst) v1)
    by now apply runSchedule_PipeInv.
  destruct (wait_completes Hi1) as (Hi2 & Hall & Hwg).
  cbv zeta in Hi2, Hall, Hwg.
  erewrite bind_run by (apply wgWait_run; exact Hwg).
  cbv beta iota.
  set (v2 := runSchedule C _ v1) in *.
  prim.
  exists v2. split.
  - destruct (AllErrorRecorder.Error (rec v2)); reflexivity.
  - split; [exact Hi2|]. split; [exact Hall|]. split; [exact Hwg|]. split.
    + eapply Frame_trans; [|apply runSchedule_Frame].
      eapply Frame_trans; [|apply runSchedule_Frame].
      subst v0 v00. constructor; reflexivity.
    + destruct (runSchedule_logs (taskSchedule sch) v0) as (l1 & H1).
      destruct (runSchedule_logs
                  (turnsForAll (List.length (tasks v1))
                   ++ turnsForAll (List.length (tasks v1))) v1) as (l2 & H2).
      exists (l1 ++ l2). subst v2. rewrite H2. subst v1. rewrite H1.
      subst v0 v00. fields. rewrite <- !app_assoc. reflexivity.
Qed.

Lemma diff_outcome sch v :
  exists r v',
    diff C R sch v = (r, v')
    /\ DiffOutcome C R sch v r v'
    /\ cleaner v' = cleaner v /\ shardInfo v' = shardInfo v.
Proof.
  unfold diff. prim.
  set (v0 := set_trace _ (set_State _ v)).
  destruct (gatherSchemas_spec sch v0)
    as (rd & rs & r1 & v1 & E1 & Htr & Hdst & Hsrc & _ & Hcl & Hsi & Htk & Hwg & Hlg & Hcase).
  erewrite bind_run by exact E1.
  assert (Htr1 : trace v1 = trace v ++ EvSetState WorkerStateDiff :: fetchEvents sch rd rs).
  { rewrite Htr. subst v0. fields. now rewrite <- app_assoc. }
  assert (Hcl1 : cleaner v1 = cleaner v) by (rewrite Hcl; reflexivity).
  assert (Hsi1 : shardInfo v1 = shardInfo v) by (rewrite Hsi; reflexivity).
  destruct Hcase as [(dst & srcU & -> & -> & ->)|(Herr & e & ->)].
  2:{ do 2 eexists. split; [reflexivity|]. split; [|split; auto].
      eapply DiffFetchFailed; eauto. }
  cbn [valueOf] in Hdst, Hsrc.
  destruct (shardInfo v) as [si|] eqn:Esi.
  2:{ erewrite bind_run.
      2:{ apply filterSourceSchema_panic. intros ? ? H. congruence. }
      do 2 eexists. split; [reflexivity|]. split; [|split; auto].
      eapply DiffNoSourceShard; eauto. intros; congruence. }
  destruct (nth_error (SourceShards si) 0) as [ss|] eqn:Ess.
  2:{ erewrite bind_run.
      2:{ apply filterSourceSchema_panic. intros ? ? H1 H2. congruence. }
      do 2 eexists. split; [reflexivity|]. split; [|split; auto].
      eapply DiffNoSourceShard; eauto. intros ? ? H1 H2. congruence. }
  destruct (compileTableRegexps R (Tables ss)) as [res|e] eqn:Ec.
  2:{ erewrite bind_run by (eapply filterSourceSchema_error; eauto).
      do 2 eexists. split; [reflexivity|]. split; [|split; auto].
      eapply DiffCompileFailed; eauto. }
  erewrite bind_run by (eapply filterSourceSchema_ok; eauto).
  cbv beta iota.
  set (kept := {| TableDefinitions := keptTables R res (TableDefinitions srcU) |}).
  set (ls := map removalLog _).
  set (v2 := set_sourceSchemaDefinition (Some kept) (addLogs ls v1)).
  destruct (addLogs_fields ls v1) as (Hf2 & Ht2 & Hk2 & Hw2 & Hr2 & Hl2).
  assert (Hd2 : destinationSchemaDefinition v2 = Some dst)
    by (subst v2; fields; rewrite (fr_destinationSchema Hf2); auto).
  assert (Hs2 : sourceSchemaDefinition v2 = Some kept) by reflexivity.
  destruct (@checkSchema_spec v2 dst kept Hd2 Hs2)
    as (v3 & E3 & Hr3 & Hf3 & Ht3 & Hk3 & Hw3 & Hl3).
  erewrite bind_run by exact E3. cbv beta iota.
  assert (Hd3 : destinationSchemaDefinition v3 = Some dst)
    by (rewrite (fr_destinationSchema Hf3); auto).
  assert (Hwg3 : wg v3 = 0) by (rewrite Hw3; subst v2; fields; congruence).
  destruct (@runDiffs_spec sch v3 dst Hd3 Hwg3)
    as (v4 & E4 & Hi4 & Hall & Hwg4 & Hf4 & l4 & Hl4).
  exists (resOfErr (AllErrorRecorder.Error (rec v4))), v4.
  split; [exact E4|].
  assert (Htr3 : trace v3 = trace v ++ EvSetState WorkerStateDiff
                              :: fetchEvents sch (Value dst) (Value srcU)).
  { rewrite Ht3. subst v2. fields. rewrite Ht2. exact Htr1. }
  split; [|split].
  - eapply DiffRan with (dst := dst) (srcU := srcU); eauto.
    + rewrite (fr_destinationSchema Hf4). auto.
    + rewrite (fr_sourceSchema Hf4), (fr_sourceSchema Hf3). reflexivity.
    + rewrite Htr3, Hr3 in Hi4. exact Hi4.
    + rewrite Hl4, Hl3. subst v2. fields. rewrite Hl2.
      destruct Hlg as (l1 & Hlg). rewrite Hlg. subst v0. fields.
      exists l1, l4. rewrite <- !app_assoc. reflexivity.
  - rewrite (fr_cleaner Hf4), (fr_cleaner Hf3). subst v2. fields.
    rewrite (fr_cleaner Hf2). exact Hcl1.
  - rewrite (fr_shardInfo Hf4), (fr_shardInfo Hf3). subst v2. fields.
    rewrite (fr_shardInfo Hf2). exact Hsi1.
Qed.

End DiffFacts.
(** * Facts about the phases before [diff] *)

Section PhaseFacts.

Context (T : Types) (C : Collab T).

Implicit Types v : VerticalSplitDiffWorker T.

Ltac all_true :=
  cbn [app]; repeat first [apply Forall_nil | apply Forall_cons; [reflexivity|]].

Ltac stop :=
  do 2 eexists; (split; [reflexivity|]);
  split; [eapply SyncStopped;
          [reflexivity
          |fields; rewrite <- ?app_assoc; reflexivity
          |all_true]
         |fields; auto].

Lemma sync_outcome v :
  exists r v',
    synchronizeReplication C v = (r, v')
    /\ SyncOutcome C v r v'
    /\ shardInfo v' = shardInfo v.
Proof.
  unfold synchronizeReplication. prim. prim. fields.
  destruct (shardInfo v) as [si|] eqn:Hsi.
  2:{ do 2 eexists. split; [reflexivity|]. split; [|fields; auto].
      eapply SyncPanic with (l := []); try reflexivity; auto. intros; congruence. }
  prim.
  answer (GetTablet C (MasterAlias si) (world v)) r1 w1 H1.
  destruct r1 as [mi|e]; call H1; [|stop].
  prim.
  answer (StopBlp C mi w1) r2 w2 H2.
  destruct r2 as [blp|e]; call H2; [|stop].
  prim.
  destruct (nth_error (SourceShards si) 0) as [ss|] eqn:Hss.
  2:{ do 2 eexists. split; [reflexivity|]. split; [|fields; auto].
      eapply SyncPanic; [intros; congruence|reflexivity| |].
      - fields. rewrite <- ?app_assoc. reflexivity.
      - all_true. }
  prim.
  destruct (FindBlpPositionById blp (Uid ss)) as [pos|] eqn:Hpos; [|stop].
  prim.
  answer (GetTablet C (sourceAlias v) w2) r3 w3 H3.
  destruct r3 as [st|e]; call H3; [|stop].
  answer (StopSlaveMinimum C st (bpPosition pos) w3) r4 w4 H4.
  destruct r4 as [stoppedAt|e]; call H4; [|stop].
  prim.
  destruct (SetChangeSlaveType
      (RecordAction
         (RecordAction (cleaner v) StartBlpActionName
            (aliasString C (Alias C mi)) (StartBlpAction mi))
         StartSlaveActionName (aliasString C (Alias C st)) (StartSlaveAction st))
      (aliasString C (sourceAlias v)) TYPE_SPARE) as [c1|e] eqn:Hc1;
    (erewrite bind_run by
        (rewrite changeSlaveTypeToSpare_run; fields; rewrite Hc1; reflexivity));
    cbv beta iota; [|stop].
  prim.
  answer (RunBlpUntil C mi
            {| Entries := [ {| bpUid := Uid ss; bpPosition := stoppedAt |} ] |} w4)
    r5 w5 H5.
  destruct r5 as [masterPos|e]; call H5; [|stop].
  prim.
  answer (GetTablet C (destinationAlias v) w5) r6 w6 H6.
  destruct r6 as [dt|e]; call H6; [|stop].
  answer (StopSlaveMinimum C dt masterPos w6) r7 w7 H7.
  destruct r7 as [d|e]; call H7; [|stop].
  prim.
  destruct (SetChangeSlaveType
      (RecordAction c1 StartSlaveActionName (aliasString C (Alias C dt))
         (StartSlaveAction dt))
      (aliasString C (destinationAlias v)) TYPE_SPARE) as [c2|e] eqn:Hc2;
    (erewrite bind_run by
        (rewrite changeSlaveTypeToSpare_run; fields; rewrite Hc2; reflexivity));
    cbv beta iota; [|stop].
  prim.
  answer (StartBlp C mi w7) res w8 H8.
  erewrite bind_run by (apply tmcStartBlp_run; fields; exact H8).
  cbv beta iota. prim. fields.
  assert (HB : Barrier C v si ss mi blp pos st stoppedAt masterPos dt d c2 w7)
    by (eapply BarrierSteps; eauto).
  destruct (RemoveActionByName c2 StartBlpActionName (aliasString C (MasterAlias si)))
    as [c3|] eqn:Hc3; prim; destruct res as [err|];
    do 2 eexists; (split; [reflexivity|]); (split; [|fields; auto]);
    (eapply SyncResumed;
     [exact HB
     |exact H8
     |fields; unfold barrierTrace; rewrite <- ?app_assoc; reflexivity
     |fields; unfold afterRemoval; rewrite Hc3; reflexivity
     |reflexivity]).
Qed.


Lemma init_outcome v :
  exists r v',
    init C v = (r, v')
    /\ r <> Panic
    /\ trace v' = trace v ++ [EvSetState WorkerStateInit]
    /\ cleaner v' = cleaner v
    /\ (r = Ok tt ->
        exists ki si ss,
          keyspaceInfo v' = Some ki /\ ServedFroms ki <> []
          /\ shardInfo v' = Some si /\ SourceShards si = [ss]
          /\ Tables ss <> [] /\ IsZero C (MasterAlias si) = false).
Proof.
  unfold init. prim. prim. fields.
  answer (GetKeyspace C (keyspace v) (world v)) r1 w1 H1.
  destruct r1 as [ki|e]; call H1; prim; cbn [valueOf].
  2:{ do 2 eexists. split; [reflexivity|]. fields. rewrite !app_nil_r.
      repeat split; auto; discriminate. }
  destruct (ServedFroms ki) as [|sf sfs] eqn:Hsf; cbn [List.length Nat.eqb].
  { do 2 eexists. split; [reflexivity|]. fields. rewrite !app_nil_r.
    repeat split; auto; discriminate. }
  answer (GetShard C (keyspace v) (shard v) w1) r2 w2 H2.
  destruct r2 as [si|e]; call H2; prim; cbn [valueOf].
  2:{ do 2 eexists. split; [reflexivity|]. fields. rewrite !app_nil_r.
      repeat split; auto; discriminate. }
  destruct (SourceShards si) as [|ss [|ss2 sss]] eqn:Hss;
    cbn [List.length Nat.eqb negb nth_error].
  1,3: (do 2 eexists; (split; [reflexivity|]); fields; rewrite !app_nil_r;
        repeat split; auto; discriminate).
  prim.
  destruct (Tables ss) as [|tb tbs] eqn:Htb; cbn [List.length Nat.eqb].
  { do 2 eexists. split; [reflexivity|]. fields. rewrite !app_nil_r.
    repeat split; auto; discriminate. }
  destruct (IsZero C (MasterAlias si)) eqn:Hz.
  { do 2 eexists. split; [reflexivity|]. fields. rewrite !app_nil_r.
    repeat split; auto; discriminate. }
  do 2 eexists. split; [reflexivity|]. fields. rewrite !app_nil_r.
  repeat split; auto; try discriminate.
  intros _. exists ki, si, ss. rewrite Hsf, Hss, Htb.
  repeat split; auto; discriminate.
Qed.

Lemma FindWorkerTablet_run cell ks sh v r w :
  selectWorkerTablet C cell ks sh (world v) = (r, w) ->
  FindWorkerTablet C cell ks sh v
  = (Ok r,
     match r with
     | Value a =>
         set_cleaner
           (RecordAction (cleaner v) ChangeSlaveTypeActionName (aliasString C a)
              (ChangeSlaveTypeAction a TYPE_RDONLY))
           (set_trace (trace v ++ []) (set_world w v))
     | Error _ => set_trace (trace v ++ []) (set_world w v)
     end).
Proof.
  intros H. unfold FindWorkerTablet. call H.
  destruct r; [|reflexivity]. unfold RecordChangeSlaveTypeAction. prim. reflexivity.
Qed.

(** The compensating action [FindWorkerTablet] pushes for a tablet. *)
Lemma findTargets_outcome v si ss :
  shardInfo v = Some si ->
  nth_error (SourceShards si) 0 = Some ss ->
  exists r v',
    findTargets C v = (r, v')
    /\ r <> Panic
    /\ trace v' = trace v ++ [EvSetState WorkerStateFindTargets]
    /\ shardInfo v' = shardInfo v
    /\ exists pushed,
        cleaner v' = cleaner v ++ pushed
        /\ Forall (fun a => name a = ChangeSlaveTypeActionName) pushed
        /\ (r = Ok tt ->
            pushed = [ {| name := ChangeSlaveTypeActionName;
                          target := aliasString C (destinationAlias v');
                          action := ChangeSlaveTypeAction (destinationAlias v')
                                      TYPE_RDONLY |};
                       {| name := ChangeSlaveTypeActionName;
                          target := aliasString C (sourceAlias v');
                          action := ChangeSlaveTypeAction (sourceAlias v')
                                      TYPE_RDONLY |} ]).
Proof.
  intros Hsi Hss. unfold findTargets. prim. prim. fields.
  answer (selectWorkerTablet C (cell v) (keyspace v) (shard v) (world v)) r1 w1 H1.
  erewrite bind_run by (apply FindWorkerTablet_run; fields; exact H1).
  cbv beta iota.
  destruct r1 as [da|e]; prim.
  2:{ do 2 eexists. split; [reflexivity|]. fields. rewrite !app_nil_r.
      split; [discriminate|]. split; [reflexivity|]. split; [auto|].
      exists []. rewrite app_nil_r. repeat split; auto. discriminate. }
  rewrite Hsi. prim. rewrite Hss. prim.
  answer (selectWorkerTablet C (cell v) (Keyspace ss) (Shard ss) w1) r2 w2 H2.
  erewrite bind_run by (apply FindWorkerTablet_run; fields; exact H2).
  cbv beta iota.
  destruct r2 as [sa|e]; prim.
  - do 2 eexists. split; [reflexivity|]. fields. rewrite !app_nil_r.
    split; [discriminate|]. split; [reflexivity|]. split; [auto|].
    unfold RecordAction. rewrite <- app_assoc. eexists. split; [reflexivity|].
    split; [repeat constructor|]. intros _. reflexivity.
  - do 2 eexists. split; [reflexivity|]. fields. rewrite !app_nil_r.
    split; [discriminate|]. split; [reflexivity|]. split; [auto|].
    unfold RecordAction. eexists. split; [reflexivity|].
    split; [repeat constructor|]. discriminate.
Qed.

End PhaseFacts.

(** * Facts about [run] and [Run] *)

Section RunFacts.

Context (T : Types) (C : Collab T) (R : RegexpLib).

Implicit Types v : VerticalSplitDiffWorker T.

Lemma quiet_app (l l' : list (Event T)) : quiet l -> quiet l' -> quiet (l ++ l').
Proof. intros. apply Forall_app. split; auto. Qed.

Lemma quiet_barrier (l : list (Event T)) :
  Forall (fun e => barrierCall e = true) l -> quiet l.
Proof.
  intros H. eapply Forall_impl; [|exact H]. intros [] He; cbn in *; congruence.
Qed.

Lemma quiet_semaphore (l : list (Event T)) :
  Forall (fun e => isAcquire e || isRelease e = true) l -> quiet l.
Proof.
  intros H. eapply Forall_impl; [|exact H]. intros [] He; cbn in *; congruence.
Qed.

Lemma quiet_fetch sch rd rs : quiet (fetchEvents (T := T) sch rd rs).
Proof. unfold fetchEvents. destruct (destinationSchemaFirst sch); repeat constructor. Qed.

Lemma SyncOutcome_quiet v r v' :
  SyncOutcome C v r v' -> exists l, trace v' = trace v ++ l /\ quiet l.
Proof.
  intros [l _ _ Ht Hf | e l _ Ht Hf
         | si ss mi blp pos st stoppedAt masterPos dt d c2 w7 res w8 _ _ Ht _ _].
  - eexists. split; [exact Ht|]. constructor; [reflexivity|now apply quiet_barrier].
  - eexists. split; [exact Ht|]. constructor; [reflexivity|now apply quiet_barrier].
  - eexists. split; [exact Ht|]. unfold barrierTrace. repeat constructor.
Qed.

Lemma DiffOutcome_quiet sch v r v' :
  DiffOutcome C R sch v r v' -> exists l, trace v' = trace v ++ l /\ quiet l.
Proof.
  intros [rd rs e Ht _ _ _ | dst srcU Ht _ _ _ | dst srcU si ss e Ht _ _ _ _ _ _ _
         | dst srcU si ss res _ _ _ kept _ _ Hi _ _ _ _].
  - eexists. split; [exact Ht|]. constructor; [reflexivity|apply quiet_fetch].
  - eexists. split; [exact Ht|]. constructor; [reflexivity|apply quiet_fetch].
  - eexists. split; [exact Ht|]. constructor; [reflexivity|apply quiet_fetch].
  - destruct (pi_trace Hi) as (l & Hl & _ & _ & Hf).
    eexists. rewrite Hl, <- app_assoc. split; [reflexivity|].
    apply quiet_app; [|now apply quiet_semaphore].
    constructor; [reflexivity|apply quiet_fetch].
Qed.

(** [run] never panics, and never runs the cleanup. *)
Lemma run_outcome sch v :
  exists r v',
    run C R sch v = (r, v')
    /\ r <> Panic
    /\ exists l, trace v' = trace v ++ l /\ quiet l.
Proof.
  unfold run.
  destruct (init_outcome C v) as (r1 & v1 & E1 & Hp1 & Ht1 & _ & Hok1).
  erewrite bind_run by (apply mapErr_run; exact E1).
  assert (Hq1 : exists l, trace v1 = trace v ++ l /\ quiet l)
    by (eexists; split; [exact Ht1|repeat constructor]).
  destruct r1 as [[]|e1|]; [|do 2 eexists; split; [reflexivity|];
                               split; [discriminate|exact Hq1]|congruence].
  destruct (Hok1 eq_refl) as (ki & si & ss & _ & _ & Hsi & Hss & _ & _).
  answer (checkDone C (world v1)) c1 w1 Hc1.
  erewrite bind_run by (apply checkDone_run; exact Hc1).
  destruct c1 as [e|]; cbn [resOfErr];
    [do 2 eexists; split; [reflexivity|]; split; [discriminate|exact Hq1]|].
  set (v1' := set_world w1 v1).
  assert (Hss0 : nth_error (SourceShards si) 0 = Some ss) by (rewrite Hss; reflexivity).
  destruct (@findTargets_outcome T C v1' si ss Hsi Hss0)
    as (r2 & v2 & E2 & Hp2 & Ht2 & Hsi2 & _).
  erewrite bind_run by (apply mapErr_run; exact E2).
  assert (Hq2 : exists l, trace v2 = trace v ++ l /\ quiet l).
  { destruct Hq1 as (l1 & Hl1 & Hq1). rewrite Ht2. subst v1'. fields. rewrite Hl1.
    rewrite <- app_assoc. eexists. split; [reflexivity|].
    apply quiet_app; auto. repeat constructor. }
  destruct r2 as [[]|e2|]; [|do 2 eexists; split; [reflexivity|];
                               split; [discriminate|exact Hq2]|congruence].
  answer (checkDone C (world v2)) c2 w2 Hc2.
  erewrite bind_run by (apply checkDone_run; exact Hc2).
  destruct c2 as [e|]; cbn [resOfErr];
    [do 2 eexists; split; [reflexivity|]; split; [discriminate|exact Hq2]|].
  set (v2' := set_world w2 v2).
  assert (Hsi2' : shardInfo v2' = Some si) by (subst v2' v1'; fields; congruence).
  destruct (sync_outcome C v2') as (r3 & v3 & E3 & Ho3 & Hsi3).
  erewrite bind_run by (apply mapErr_run; exact E3).
  assert (Hq3 : exists l, trace v3 = trace v ++ l /\ quiet l).
  { destruct (SyncOutcome_quiet Ho3) as (l3 & Hl3 & Hq3).
    destruct Hq2 as (l2 & Hl2 & Hq2). rewrite Hl3. subst v2'. fields. rewrite Hl2.
    rewrite <- app_assoc. eexists. split; [reflexivity|]. now apply quiet_app. }
  assert (Hp3 : r3 <> Panic).
  { destruct Ho3 as [l Hno -> _ _ | e l -> _ _
                    | ? ? ? ? ? ? ? ? ? ? ? ? res ? _ _ _ _ ->];
      try discriminate; [|destruct res; discriminate].
    exfalso. eapply Hno; eauto. }
  destruct r3 as [[]|e3|]; [|do 2 eexists; split; [reflexivity|];
                               split; [discriminate|exact Hq3]|congruence].
  answer (checkDone C (world v3)) c3 w3 Hc3.
  erewrite bind_run by (apply checkDone_run; exact Hc3).
  destruct c3 as [e|]; cbn [resOfErr];
    [do 2 eexists; split; [reflexivity|]; split; [discriminate|exact Hq3]|].
  set (v3' := set_world w3 v3).
  assert (Hsi3' : shardInfo v3' = Some si) by (subst v3'; fields; congruence).
  destruct (diff_outcome C R sch v3') as (r4 & v4 & E4 & Ho4 & _ & _).
  erewrite bind_run by (apply mapErr_run; exact E4).
  assert (Hq4 : exists l, trace v4 = trace v ++ l /\ quiet l).
  { destruct (DiffOutcome_quiet Ho4) as (l4 & Hl4 & Hq4).
    destruct Hq3 as (l3 & Hl3 & Hq3). rewrite Hl4. subst v3'. fields. rewrite Hl3.
    rewrite <- app_assoc. eexists. split; [reflexivity|]. now apply quiet_app. }
  assert (Hp4 : r4 <> Panic).
  { destruct Ho4 as [rd rs e _ _ -> _ | dst srcU _ Hno _ _ | dst srcU ? ? e _ _ _ _ -> _ _ _
                    | dst srcU ? ? res _ _ _ kept _ _ _ _ _ -> _];
      try discriminate.
    - exfalso. eapply Hno; eauto.
    - destruct (AllErrorRecorder.Error (rec v4)); discriminate. }
  destruct r4 as [[]|e4|]; [| |congruence];
    do 2 eexists; (split; [reflexivity|]); (split; [discriminate|exact Hq4]).
Qed.

End RunFacts.

(** * The lifecycle: [Run], [run] and [init] *)

Section Lifecycle.

Context (T : Types) (C : Collab T) (R : RegexpLib).

Implicit Types v : VerticalSplitDiffWorker T.

(** C2: whatever the inner [run] returns (an error of a phase, a
    cancellation, or nil), [Run] then drains the cleanup stack exactly
    once: the trace of [run] shows no cleanup, and [Run] adds to it the
    state CleanUp, one cleanup of the cleaner as [run] left it, and the
    terminal state.  A failure of the cleanup becomes the result only when
    [run] returned nil, otherwise it is logged; [Run] returns nil iff the
    terminal state is Done, the other terminal state being Error; and an
    error of [run] is returned unchanged.  [run] never panics. *)
Theorem Run_cleans_up_exactly_once sch v :
  exists r0 v0 cerr w r v',
    run C R sch v = (r0, v0)
    /\ r0 <> Panic
    /\ (exists l, trace v0 = trace v ++ l /\ quiet l)
    /\ CleanUp C (cleaner v0) (world v0) = (cerr, w)
    /\ Run C R sch v = (r, v')
    /\ trace v' = trace v0 ++ [EvSetState WorkerStateCleanUp;
                              EvCleanUp (cleaner v0) cerr;
                              EvSetState (State v')]
    /\ r = match r0 with
           | Err e => Err e
           | _ => resOfErr cerr
           end
    /\ (forall e ce, r0 = Err e -> cerr = Some ce ->
          In (ERROR, ("CleanUp failed in addition to job error: " ++ ce)%string)
             (logs v'))
    /\ (r = Ok tt <-> State v' = WorkerStateDone)
    /\ (State v' = WorkerStateDone \/ State v' = WorkerStateError).
Proof.
  destruct (run_outcome C R sch v) as (r0 & v0 & E0 & Hp & Hq).
  answer (CleanUp C (cleaner v0) (world v0)) cerr w Hc.
  exists r0, v0, cerr, w.
  unfold Run.
  erewrite bind_run by (apply attempt_run; exact E0).
  destruct r0 as [[]|e|]; [| |congruence];
    prim; (erewrite bind_run by (apply cleanerCleanUp_run; fields; exact Hc));
    cbv beta iota; destruct cerr as [ce|]; repeat prim;
    do 2 eexists; (split; [exact E0|]); (split; [exact Hp|]);
    (split; [exact Hq|]); (split; [exact Hc|]); (split; [reflexivity|]);
    fields; rewrite <- ?app_assoc; (split; [reflexivity|]);
    (split; [reflexivity|]).
  - split; [discriminate|]. split; [split; discriminate|]. auto.
  - split; [discriminate|]. split; [split; reflexivity|]. auto.
  - split.
    { intros e' ce' He' Hce'. inversion Hce'; subst.
      apply in_or_app. right. left. reflexivity. }
    split; [split; discriminate|]. auto.
  - split; [discriminate|]. split; [split; discriminate|]. auto.
Qed.


(** C8: when the cancellation check between [findTargets] and
    [synchronizeReplication] finds the context cancelled ([init] and
    [findTargets] having succeeded and the check between them having
    passed), [Run] returns the cancellation error as it is, with no phase
    context around it; neither [synchronizeReplication] nor [diff] is
    entered; the cleanup runs exactly once, on the cleaner as
    [findTargets] left it; and the terminal state is Error. *)
Theorem cancellation_after_findTargets sch v v1 w1 v2 cancelled w2 :
  init C v = (Ok tt, v1) ->
  checkDone C (world v1) = (None, w1) ->
  findTargets C (set_world w1 v1) = (Ok tt, v2) ->
  checkDone C (world v2) = (Some cancelled, w2) ->
  exists v' cerr w3,
    Run C R sch v = (Err cancelled, v')
    /\ CleanUp C (cleaner v2) w2 = (cerr, w3)
    /\ trace v' = trace v ++ [EvSetState WorkerStateInit;
                              EvSetState WorkerStateFindTargets;
                              EvSetState WorkerStateCleanUp;
                              EvCleanUp (cleaner v2) cerr;
                              EvSetState WorkerStateError]
    /\ State v' = WorkerStateError.
Proof.
  intros E1 Hc1 E2 Hc2.
  destruct (init_outcome C v) as (r1 & v1' & E1' & _ & Ht1 & _ & Hok1).
  rewrite E1 in E1'. inversion E1'; subst r1 v1'. clear E1'.
  destruct (Hok1 eq_refl) as (ki & si & ss & _ & _ & Hsi & Hss & _ & _).
  assert (Hss0 : nth_error (SourceShards si) 0 = Some ss) by (rewrite Hss; reflexivity).
  destruct (@findTargets_outcome T C (set_world w1 v1) si ss Hsi Hss0)
    as (r2 & v2' & E2' & _ & Ht2 & _).
  rewrite E2 in E2'. inversion E2'; subst r2 v2'. clear E2'.
  fields.
  answer (CleanUp C (cleaner v2) w2) cerr w3 Hc.
  assert (Erun : run C R sch v = (Err cancelled, set_world w2 v2)).
  { unfold run.
    erewrite bind_run by (apply mapErr_run; exact E1). cbv beta iota.
    erewrite bind_run by (apply checkDone_run; exact Hc1). cbn [resOfErr].
    erewrite bind_run by (apply mapErr_run; exact E2). cbv beta iota.
    erewrite bind_run by (apply checkDone_run; exact Hc2). reflexivity. }
  unfold Run.
  erewrite bind_run by (apply attempt_run; exact Erun). cbv beta iota.
  prim. erewrite bind_run by (apply cleanerCleanUp_run; fields; exact Hc).
  cbv beta iota.
  destruct cerr as [ce|]; repeat prim;
    do 3 eexists; (split; [reflexivity|]); (split; [exact Hc|]); fields;
    rewrite Ht2, Ht1, <- ?app_assoc; split; reflexivity.
Qed.

(** C4: for a shard whose keyspace and shard records are readable and
    which has exactly one source shard, [init] returns nil iff the
    keyspace has a served-from record, the source shard has a table
    filter and the shard has a master; otherwise it returns the error of
    the first of these three that fails; and in every case it leaves the
    cleaner as it found it. *)
Theorem init_succeeds_iff_preconditions v ki w1 si w2 ss :
  GetKeyspace C (keyspace v) (world v) = (Value ki, w1) ->
  GetShard C (keyspace v) (shard v) w1 = (Value si, w2) ->
  SourceShards si = [ss] ->
  exists r v',
    init C v = (r, v')
    /\ (r = Ok tt <->
        ServedFroms ki <> [] /\ Tables ss <> [] /\ IsZero C (MasterAlias si) = false)
    /\ (ServedFroms ki = [] ->
        r = Err ("keyspace " ++ keyspace v ++ " has no KeyspaceServedFrom")%string)
    /\ (ServedFroms ki <> [] -> Tables ss = [] ->
        r = Err ("shard " ++ keyspace v ++ "/" ++ shard v
                 ++ " has no tables in source shard[0]")%string)
    /\ (ServedFroms ki <> [] -> Tables ss <> [] ->
        IsZero C (MasterAlias si) = true ->
        r = Err ("shard " ++ keyspace v ++ "/" ++ shard v ++ " has no master")%string)
    /\ cleaner v' = cleaner v.
Proof.
  intros H1 H2 Hss. unfold init. prim. prim. fields. call H1. prim. cbn [valueOf].
  destruct (ServedFroms ki) as [|sf sfs] eqn:Hsf; cbn [List.length Nat.eqb].
  { do 2 eexists. split; [reflexivity|]. fields.
    split; [split; [discriminate|intros (H & _); congruence]|].
    repeat split; auto; congruence. }
  call H2. prim. rewrite Hss. cbn [List.length Nat.eqb negb nth_error valueOf]. prim.
  destruct (Tables ss) as [|tb tbs] eqn:Htb; cbn [List.length Nat.eqb].
  { do 2 eexists. split; [reflexivity|]. fields.
    split; [split; [discriminate|intros (_ & H & _); congruence]|].
    repeat split; auto; congruence. }
  destruct (IsZero C (MasterAlias si)) eqn:Hz.
  { do 2 eexists. split; [reflexivity|]. fields.
    split; [split; [discriminate|intros (_ & _ & H); congruence]|].
    repeat split; auto; congruence. }
  do 2 eexists. split; [reflexivity|]. fields.
  split; [split; [intros _; repeat split; congruence|reflexivity]|].
  repeat split; auto; congruence.
Qed.

End Lifecycle.

(** * The replication barrier *)

Section BarrierFacts.

Context (T : Types) (C : Collab T).

Implicit Types v : VerticalSplitDiffWorker T.
Implicit Types c : Cleaner T.

Lemma registered_RecordAction c n t n' t' a :
  registered (RecordAction c n' t' a) n t
  = registered c n t + (if String.eqb n' n && String.eqb t' t then 1 else 0).
Proof.
  unfold registered, RecordAction. rewrite filter_app, length_app. cbn.
  unfold refMatches at 2. cbn.
  destruct (String.eqb n' n && String.eqb t' t); reflexivity.
Qed.

Lemma registered_SetChangeSlaveType c t0 ty c' n t :
  SetChangeSlaveType c t0 ty = Value c' -> registered c' n t = registered c n t.
Proof.
  revert c'. induction c as [|r c IH]; intros c' H; cbn in H; [discriminate|].
  destruct (refMatches ChangeSlaveTypeActionName t0 r).
  - destruct (action r); inversion H; subst. unfold registered. cbn.
    unfold refMatches. cbn. destruct (String.eqb (name r) n && String.eqb (target r) t);
      reflexivity.
  - destruct (SetChangeSlaveType c t0 ty) as [c''|] eqn:E; inversion H; subst.
    unfold registered in *. cbn.
    destruct (refMatches n t r); cbn; rewrite (IH c'' eq_refl); reflexivity.
Qed.

Lemma registered_RemoveActionByName_Some c n t c' :
  RemoveActionByName c n t = Some c' -> registered c n t = S (registered c' n t).
Proof.
  revert c'. induction c as [|r c IH]; intros c' H; cbn in H; [discriminate|].
  unfold registered in *. cbn.
  destruct (refMatches n t r) eqn:Hm.
  - inversion H; subst. reflexivity.
  - destruct (RemoveActionByName c n t) as [c''|] eqn:E; inversion H; subst.
    cbn. rewrite Hm. apply IH. reflexivity.
Qed.

Lemma registered_RemoveActionByName_None c n t :
  RemoveActionByName c n t = None -> registered c n t = 0.
Proof.
  induction c as [|r c IH]; intros H; cbn in H; [reflexivity|].
  unfold registered in *. cbn.
  destruct (refMatches n t r) eqn:Hm; [discriminate|].
  destruct (RemoveActionByName c n t); [discriminate|]. auto.
Qed.

Lemma registered_GetActionByName c n t :
  registered c n t = 0 <-> GetActionByName c n t = None.
Proof.
  unfold registered, GetActionByName.
  induction c as [|r c IH]; cbn; [tauto|].
  destruct (refMatches n t r); cbn; [split; discriminate|exact IH].
Qed.


Lemma barrier_events_not_StartBlp (l : list (Event T)) mi res :
  Forall (fun e => barrierCall e = true) l -> ~ In (EvStartBlp mi res) l.
Proof.
  intros Hf Hin. rewrite Forall_forall in Hf. specialize (Hf _ Hin). discriminate.
Qed.

(** A run of the barrier that called [StartBlp] went through all of its
    steps. *)
Lemma sync_reached_step5 v r v' l mi res :
  synchronizeReplication C v = (r, v') ->
  trace v' = trace v ++ l ->
  In (EvStartBlp mi res) l ->
  exists si ss blp pos st stoppedAt masterPos dt d c2 w7 w8,
    Barrier C v si ss mi blp pos st stoppedAt masterPos dt d c2 w7
    /\ StartBlp C mi w7 = (res, w8)
    /\ l = barrierTrace v si ss mi blp pos st stoppedAt masterPos dt d
             ++ [EvStartBlp mi res]
    /\ cleaner v' = afterRemoval c2 StartBlpActionName (aliasString C (MasterAlias si))
    /\ r = match res with
           | Some err =>
               Err ("StartBlp on " ++ aliasString C (MasterAlias si) ++ " failed: "
                    ++ err)%string
           | None => Ok tt
           end.
Proof.
  intros E Ht Hin.
  destruct (sync_outcome C v) as (r' & v'' & E' & Ho & _).
  rewrite E in E'. inversion E'; subst r' v''. clear E'.
  destruct Ho as [l0 _ _ Ht0 Hf | e l0 _ Ht0 Hf
                 | si ss mi0 blp pos st stoppedAt masterPos dt d c2 w7 res0 w8
                     HB H8 Ht0 Hc Hr].
  - exfalso. rewrite Ht in Ht0. apply app_inv_head in Ht0. subst l.
    destruct Hin as [Hin|Hin]; [discriminate|].
    eapply barrier_events_not_StartBlp; eauto.
  - exfalso. rewrite Ht in Ht0. apply app_inv_head in Ht0. subst l.
    destruct Hin as [Hin|Hin]; [discriminate|].
    eapply barrier_events_not_StartBlp; eauto.
  - rewrite Ht in Ht0. apply app_inv_head in Ht0. subst l.
    apply in_app_or in Hin. destruct Hin as [Hin|[Hin|[]]].
    + exfalso. unfold barrierTrace in Hin. cbn in Hin.
      repeat (destruct Hin as [Hin|Hin]; [discriminate|]). exact Hin.
    + inversion Hin; subst mi0 res0.
      exists si, ss, blp, pos, st, stoppedAt, masterPos, dt, d, c2, w7, w8.
      repeat split; auto.
Qed.

(** C3: if [StopSlaveMinimum] answers with a position at least its
    minimum, then a successful [synchronizeReplication] has stopped the
    source tablet at a position at least the one the paused master held
    for the uid of the source shard, and the destination tablet at a
    position at least the one [RunBlpUntil] answered for the master once
    it had caught up with the source's stop position.  The answers may
    depend in any way on the remote world at the time of each call. *)
Theorem barrier_stops_at_or_beyond v v' :
  (forall t p w p' w',
      StopSlaveMinimum C t p w = (Value p', w') -> AtLeast C p' p = true) ->
  synchronizeReplication C v = (Ok tt, v') ->
  exists si ss mi blp pos st stoppedAt masterPos dt d,
    shardInfo v = Some si
    /\ nth_error (SourceShards si) 0 = Some ss
    /\ FindBlpPositionById blp (Uid ss) = Some pos
    /\ trace v' = trace v
                    ++ barrierTrace v si ss mi blp pos st stoppedAt masterPos dt d
                    ++ [EvStartBlp mi None]
    /\ AtLeast C stoppedAt (bpPosition pos) = true
    /\ AtLeast C d masterPos = true.
Proof.
  intros Hcontract E.
  destruct (sync_outcome C v) as (r' & v'' & E' & Ho & _).
  rewrite E in E'. inversion E'; subst r' v''. clear E'.
  destruct Ho as [l0 _ Hr _ _ | e l0 Hr _ _
                 | si ss mi blp pos st stoppedAt masterPos dt d c2 w7 res w8
                     HB H8 Ht Hc Hr]; try discriminate.
  destruct res as [err|]; [discriminate|].
  destruct HB as [w1 w2 w3 w4 w5 w6 c1 Hsi Hss H1 H2 Hpos H3 H4 Hc1 H5 H6 H7 Hc2].
  exists si, ss, mi, blp, pos, st, stoppedAt, masterPos, dt, d.
  repeat split; eauto.
Qed.


End BarrierFacts.

(** * The regexp model: the matcher finds exactly the matches *)

Section RegexpFacts.

Local Abbreviation Matches := GoRegexp.Matches.
Local Abbreviation nullable := GoRegexp.nullable.
Local Abbreviation deriv := GoRegexp.deriv.
Local Abbreviation matchPrefix := GoRegexp.matchPrefix.
Local Abbreviation search := GoRegexp.search.
Local Abbreviation nil_ := GoRegexp.isNil.

Lemma Matches_nullable r b m e :
  Matches r b m e -> m = [] -> nullable r b e = true.
Proof.
  induction 1 as [ | | | | | r1 r2 b m1 m2 e _ IH1 _ IH2 | r1 r2 b m e _ IH
                 | r1 r2 b m e _ IH | | | r b m1 m2 e _ IH1 _ IH2 | | r b m e _ IH];
    intros E; try discriminate; cbn; auto.
  - apply app_eq_nil in E. destruct E as (-> & ->). cbn in IH1, IH2.
    now rewrite IH1, IH2.
  - now rewrite IH.
  - rewrite IH by assumption. apply orb_true_r.
  - apply app_eq_nil in E. destruct E as (-> & ->). cbn in IH1. now apply IH1.
Qed.

Lemma nullable_Matches r b e :
  nullable r b e = true -> Matches r b [] e.
Proof.
  revert b e. induction r as [ | | c | | | | r1 IH1 r2 IH2 | r1 IH1 r2 IH2
                             | r IH | r IH | r IH]; cbn; intros b e H;
    try discriminate.
  - constructor.
  - subst. constructor.
  - subst. constructor.
  - apply andb_true_iff in H. destruct H as (H1 & H2).
    change (@nil ascii) with (@nil ascii ++ []). constructor; cbn; auto.
  - apply orb_true_iff in H. destruct H as [H|H].
    + apply GoRegexp.MAltL; auto.
    + apply GoRegexp.MAltR; auto.
  - constructor.
  - change (@nil ascii) with (@nil ascii ++ []). constructor; cbn; auto.
    constructor.
  - apply GoRegexp.MQuestNil.
Qed.

Lemma Matches_deriv r b m0 e :
  Matches r b m0 e -> forall c m, m0 = c :: m -> Matches (deriv b c r) false m e.
Proof.
  induction 1 as [ | c0 b e | c0 b e Hnl | | | r1 r2 b m1 m2 e H1 IH1 H2 IH2
                 | r1 r2 b m e _ IH | r1 r2 b m e _ IH | 
                 | r b m1 m2 e H1 IH1 H2 IH2 | r b m1 m2 e H1 IH1 H2 IH2 |
                 | r b m e _ IH];
    intros c mm E; try discriminate; cbn [GoRegexp.deriv].
  - injection E as -> <-. rewrite Ascii.eqb_refl. constructor.
  - injection E as -> <-.
    destruct (Ascii.eqb c GoRegexp.newline) eqn:Ec.
    + apply Ascii.eqb_eq in Ec. contradiction.
    + constructor.
  - destruct m1 as [|a m1]; cbn in E.
    + subst m2. cbn in H1, IH2. apply GoRegexp.MAltR.
      rewrite (Matches_nullable H1 eq_refl). now apply IH2.
    + injection E as -> <-. apply GoRegexp.MAltL. constructor.
      * now apply IH1.
      * rewrite andb_false_r. exact H2.
  - apply GoRegexp.MAltL. now apply IH.
  - apply GoRegexp.MAltR. now apply IH.
  - destruct m1 as [|a m1]; cbn in E.
    + subst m2. cbn in IH2. now apply (IH2 c mm).
    + injection E as -> <-. constructor.
      * now apply IH1.
      * rewrite andb_false_r. exact H2.
  - destruct m1 as [|a m1]; cbn in E.
    + subst m2. cbn in IH2. now apply (IH2 c mm).
    + injection E as -> <-. constructor.
      * now apply IH1.
      * rewrite andb_false_r. exact H2.
  - now apply IH.
Qed.

Lemma deriv_Matches r b c m e :
  Matches (deriv b c r) false m e -> Matches r b (c :: m) e.
Proof.
  revert b m e. induction r as [ | | d | | | | r1 IH1 r2 IH2 | r1 IH1 r2 IH2
                               | r IH | r IH | r IH];
    cbn [GoRegexp.deriv]; intros b m e H.
  - inversion H.
  - inversion H.
  - destruct (Ascii.eqb c d) eqn:Ec; inversion H; subst.
    apply Ascii.eqb_eq in Ec. subst. constructor.
  - destruct (Ascii.eqb c GoRegexp.newline) eqn:Ec; inversion H; subst.
    apply Ascii.eqb_neq in Ec. now constructor.
  - inversion H.
  - inversion H.
  - inversion H as [ | | | | | | ? ? ? ? ? HL | ? ? ? ? ? HR | | | | | ]; subst.
    + inversion HL as [ | | | | | ? ? ? m1 m2 ? Ha Hb | | | | | | | ]; subst.
      change (c :: m1 ++ m2) with ((c :: m1) ++ m2). constructor.
      * now apply IH1.
      * cbn. rewrite andb_false_r in Hb. exact Hb.
    + destruct (nullable r1 b false) eqn:En; [|inversion HR].
      change (c :: m) with ([] ++ c :: m). constructor.
      * cbn. now apply nullable_Matches.
      * cbn. now apply IH2.
  - inversion H; subst.
    + apply GoRegexp.MAltL. now apply IH1.
    + apply GoRegexp.MAltR. now apply IH2.
  - inversion H as [ | | | | | ? ? ? m1 m2 ? Ha Hb | | | | | | | ]; subst.
    change (c :: m1 ++ m2) with ((c :: m1) ++ m2). apply GoRegexp.MStarCons.
    + now apply IH.
    + cbn. rewrite andb_false_r in Hb. exact Hb.
  - inversion H as [ | | | | | ? ? ? m1 m2 ? Ha Hb | | | | | | | ]; subst.
    change (c :: m1 ++ m2) with ((c :: m1) ++ m2). constructor.
    + now apply IH.
    + cbn. rewrite andb_false_r in Hb. exact Hb.
  - apply GoRegexp.MQuest. now apply IH.
Qed.

Lemma matchPrefix_Matches s :
  forall r b,
    matchPrefix r b s = true
    <-> exists m post, s = m ++ post /\ Matches r b m (nil_ post).
Proof.
  induction s as [|c s IH]; intros r b; cbn [GoRegexp.matchPrefix].
  - rewrite orb_false_r. split.
    + intros H. exists [], []. split; [reflexivity|]. now apply nullable_Matches.
    + intros (m & post & E & H). symmetry in E. apply app_eq_nil in E.
      destruct E as (-> & ->). exact (Matches_nullable H eq_refl).
  - rewrite orb_true_iff, IH. split.
    + intros [H|(m & post & -> & H)].
      * exists [], (c :: s). split; [reflexivity|]. now apply nullable_Matches.
      * exists (c :: m), post. split; [reflexivity|]. now apply deriv_Matches.
    + intros (m & post & E & H). destruct m as [|a m]; cbn in E.
      * left. subst post. exact (Matches_nullable H eq_refl).
      * right. injection E as <- ->. exists m, post. split; [reflexivity|].
        exact (Matches_deriv H eq_refl).
Qed.

Lemma search_Matches s :
  forall r b,
    search r b s = true
    <-> exists pre m post,
          s = pre ++ m ++ post /\ Matches r (nil_ pre && b) m (nil_ post).
Proof.
  induction s as [|c s IH]; intros r b; cbn [GoRegexp.search].
  - rewrite orb_false_r, matchPrefix_Matches. split.
    + intros (m & post & E & H). exists [], m, post. auto.
    + intros (pre & m & post & E & H). symmetry in E.
      apply app_eq_nil in E. destruct E as (-> & E).
      exists m, post. auto.
  - rewrite orb_true_iff, matchPrefix_Matches, IH. split.
    + intros [(m & post & E & H)|(pre & m & post & -> & H)].
      * exists [], m, post. auto.
      * exists (c :: pre), m, post. split; [reflexivity|].
        rewrite andb_false_r in H. exact H.
    + intros (pre & m & post & E & H). destruct pre as [|a pre]; cbn in E, H.
      * left. exists m, post. auto.
      * right. injection E as <- ->. exists pre, m, post. split; [reflexivity|].
        now rewrite andb_false_r.
Qed.

(** [MatchString] holds exactly when the expression matches some piece of
    the string: [^] only where the piece starts the string and [$] only
    where it ends it. *)
Lemma MatchString_Matches r s :
  GoRegexp.MatchString r s = true
  <-> exists pre m post,
        list_ascii_of_string s = pre ++ m ++ post
        /\ Matches r (nil_ pre) m (nil_ post).
Proof.
  unfold GoRegexp.MatchString. rewrite search_Matches.
  split; intros (pre & m & post & E & H); exists pre, m, post;
    (split; [exact E|]); now rewrite andb_true_r in *.
Qed.

End RegexpFacts.

(** * The diff phase *)

Section DiffClaims.

Context (T : Types) (C : Collab T) (R : RegexpLib).

Implicit Types v : VerticalSplitDiffWorker T.

Lemma acquires_none (l : list (Event T)) :
  Forall (fun e => isAcquire e = false) l -> acquires l = 0.
Proof.
  unfold acquires. induction 1 as [|e l He _ IH]; cbn; [reflexivity|].
  now rewrite He.
Qed.

Lemma bounded_after (pre l : list (Event T)) :
  Forall (fun e => isAcquire e = false) pre -> bounded l -> bounded (pre ++ l).
Proof.
  intros Hpre Hl p s E.
  apply app_eq_app in E. destruct E as (m & [(-> & ->)|(-> & ->)]).
  - apply Forall_app in Hpre. destruct Hpre as (Hp & _).
    rewrite (acquires_none Hp). lia.
  - rewrite acquires_app, releases_app, (acquires_none Hpre).
    specialize (Hl m s eq_refl). lia.
Qed.

Lemma fetch_no_semaphore sch (rd rs : Reply SchemaDefinition) :
  Forall (fun e : Event T => isAcquire e = false /\ isRelease e = false)
    (EvSetState WorkerStateDiff :: fetchEvents sch rd rs).
Proof.
  unfold fetchEvents. destruct (destinationSchemaFirst sch);
    repeat (constructor; [split; reflexivity|]); constructor.
Qed.

Lemma fetch_answers sch (rd rs : Reply SchemaDefinition) (l' : list (Event T)) dst srcU :
  Forall (fun e => isAcquire e || isRelease e = true) l' ->
  In (EvGetDestinationSchema (Value dst))
     (EvSetState WorkerStateDiff :: fetchEvents sch rd rs ++ l') ->
  In (EvGetSourceSchema (Value srcU))
     (EvSetState WorkerStateDiff :: fetchEvents sch rd rs ++ l') ->
  rd = Value dst /\ rs = Value srcU.
Proof.
  intros Hl' Hd Hs. rewrite Forall_forall in Hl'.
  destruct Hd as [Hd|Hd]; [discriminate|].
  destruct Hs as [Hs|Hs]; [discriminate|].
  apply in_app_or in Hd. apply in_app_or in Hs.
  destruct Hd as [Hd|Hd]; [|apply Hl' in Hd; discriminate].
  destruct Hs as [Hs|Hs]; [|apply Hl' in Hs; discriminate].
  unfold fetchEvents in *. destruct (destinationSchemaFirst sch); cbn in Hd, Hs.
  - destruct Hd as [Hd|[Hd|[]]]; [|discriminate].
    destruct Hs as [Hs|[Hs|[]]]; [discriminate|].
    injection Hd as ->. injection Hs as ->. auto.
  - destruct Hd as [Hd|[Hd|[]]]; [discriminate|].
    destruct Hs as [Hs|[Hs|[]]]; [|discriminate].
    injection Hd as ->. injection Hs as ->. auto.
Qed.

(** What a run of [diff] that got both schemas and compiled its filters
    has done. *)
Lemma diff_ran sch v r v' l dst srcU si ss res :
  diff C R sch v = (r, v') ->
  trace v' = trace v ++ l ->
  In (EvGetDestinationSchema (Value dst)) l ->
  In (EvGetSourceSchema (Value srcU)) l ->
  shardInfo v = Some si ->
  nth_error (SourceShards si) 0 = Some ss ->
  compileTableRegexps R (Tables ss) = Value res ->
  let kept := {| TableDefinitions := keptTables R res (TableDefinitions srcU) |} in
  destinationSchemaDefinition v' = Some dst
  /\ sourceSchemaDefinition v' = Some kept
  /\ PipeInv C
       (trace v ++ EvSetState WorkerStateDiff
          :: fetchEvents sch (Value dst) (Value srcU))
       (DiffSchema C dst kept) (TableDefinitions dst) v'
  /\ (forall j x, nth_error (tasks v') j = Some x -> returned (snd x) = true)
  /\ r = resOfErr (AllErrorRecorder.Error (rec v'))
  /\ exists l1 l2,
       logs v' = logs v ++ l1
                   ++ map removalLog (droppedTables R res (TableDefinitions srcU))
                   ++ [(INFO, "Diffing the schema..."%string);
                       schemaVerdict (DiffSchema C dst kept);
                       (INFO, "Running the diffs..."%string)] ++ l2.
Proof.
  intros E Ht Hd Hs Hsi Hss Hc kept.
  destruct (diff_outcome C R sch v) as (r0 & v0 & E0 & O & _).
  rewrite E in E0. injection E0 as <- <-.
  destruct O as [rd rs e Ht' Herr _ _
                | dst' srcU' _ Hno _ _
                | dst' srcU' si' ss' e _ Hsi' Hss' Hc' _ _ _ _
                | dst' srcU' si' ss' res' Hsi' Hss' Hc' kept' Hd' Hs' Hi Hall Hwg Hr Hl].
  - exfalso. rewrite Ht in Ht'. apply app_inv_head in Ht'. subst l.
    destruct (@fetch_answers sch rd rs [] dst srcU) as (-> & ->).
    + constructor.
    + now rewrite app_nil_r.
    + now rewrite app_nil_r.
    + destruct Herr as [H|H]; now apply H.
  - exfalso. eapply Hno; eauto.
  - exfalso. congruence.
  - assert (si' = si) by congruence. subst si'.
    assert (ss' = ss) by congruence. subst ss'.
    assert (res' = res) by congruence. subst res'.
    destruct (pi_trace Hi) as (l' & Ht' & _ & _ & Hsem).
    rewrite Ht, <- app_assoc in Ht'. apply app_inv_head in Ht'. subst l.
    cbn [app] in Hd, Hs.
    destruct (fetch_answers _ _ _ Hsem Hd Hs) as (Ed & Es).
    injection Ed as ->. injection Es as ->.
    subst kept'. fold kept in Hs', Hi, Hl |- *.
    repeat (split; [assumption|]). exact Hl.
Qed.

(** A run of [diff] that got both schemas and whose filters do not
    compile. *)
Lemma diff_rejected sch v r v' l dst srcU si ss e :
  diff C R sch v = (r, v') ->
  trace v' = trace v ++ l ->
  In (EvGetDestinationSchema (Value dst)) l ->
  In (EvGetSourceSchema (Value srcU)) l ->
  shardInfo v = Some si ->
  nth_error (SourceShards si) 0 = Some ss ->
  compileTableRegexps R (Tables ss) = Error e ->
  r = Err e /\ tasks v' = []
  /\ l = EvSetState WorkerStateDiff :: fetchEvents sch (Value dst) (Value srcU).
Proof.
  intros E Ht Hd Hs Hsi Hss Hc.
  destruct (diff_outcome C R sch v) as (r0 & v0 & E0 & O & _).
  rewrite E in E0. injection E0 as <- <-.
  destruct O as [rd rs e' Ht' Herr _ _
                | dst' srcU' _ Hno _ _
                | dst' srcU' si' ss' e' Ht' Hsi' Hss' Hc' Hr Htk _ _
                | dst' srcU' si' ss' res' Hsi' Hss' Hc' kept' _ _ _ _ _ _ _].
  - exfalso. rewrite Ht in Ht'. apply app_inv_head in Ht'. subst l.
    destruct (@fetch_answers sch rd rs [] dst srcU) as (-> & ->).
    + constructor.
    + now rewrite app_nil_r.
    + now rewrite app_nil_r.
    + destruct Herr as [H|H]; now apply H.
  - exfalso. eapply Hno; eauto.
  - assert (si' = si) by congruence. subst si'.
    assert (ss' = ss) by congruence. subst ss'.
    assert (e' = e) by congruence. subst e'.
    rewrite Ht in Ht'. apply app_inv_head in Ht'. subst l.
    destruct (@fetch_answers sch (Value dst') (Value srcU') [] dst srcU) as (Ed & Es).
    + constructor.
    + now rewrite app_nil_r.
    + now rewrite app_nil_r.
    + injection Ed as ->. injection Es as ->. auto.
  - exfalso. congruence.
Qed.

Lemma Forall2_in_r {A B} (P : A -> B -> Prop) l l' :
  Forall2 P l l' -> forall b, In b l' -> exists a, In a l /\ P a b.
Proof.
  induction 1 as [|a b l l' H _ IH]; intros b0 Hin; [destruct Hin|].
  destruct Hin as [<-|Hin].
  - exists a. split; [now left|exact H].
  - destruct (IH _ Hin) as (a0 & Ha & Hp). exists a0. split; [now right|exact Hp].
Qed.

Lemma Forall2_in_l {A B} (P : A -> B -> Prop) l l' :
  Forall2 P l l' -> forall a, In a l -> exists b, In b l' /\ P a b.
Proof.
  induction 1 as [|a b l l' H _ IH]; intros a0 Hin; [destruct Hin|].
  destruct Hin as [<-|Hin].
  - exists b. split; [now left|exact H].
  - destruct (IH _ Hin) as (b0 & Hb & Hp). exists b0. split; [now right|exact Hp].
Qed.

Lemma compileTableRegexps_Value tables res :
  compileTableRegexps R tables = Value res ->
  Forall2 (fun table re => Compile R table = Value re) tables res.
Proof.
  revert res. induction tables as [|table tables IH]; cbn; intros res H.
  - injection H as <-. constructor.
  - destruct (Compile R table) as [re|err] eqn:Ec; [|discriminate].
    destruct (compileTableRegexps R tables) as [res'|e]; [|discriminate].
    injection H as <-. constructor; auto.
Qed.

Lemma compileTableRegexps_Error tables e :
  compileTableRegexps R tables = Error e ->
  exists table err,
    In table tables /\ Compile R table = Error err
    /\ e = ("cannot compile regexp " ++ table ++ " for table: " ++ err)%string.
Proof.
  induction tables as [|table tables IH]; cbn; intros H; [discriminate|].
  destruct (Compile R table) as [re|err] eqn:Ec.
  - destruct (compileTableRegexps R tables) as [res'|e']; [discriminate|].
    injection H as ->. destruct (IH eq_refl) as (t & err & Hin & Hc & He).
    exists t, err. auto.
  - injection H as <-. exists table, err. auto.
Qed.

(** ** The table goroutines and the semaphore *)

(** Claim C5.  Whatever the schedule and however many tables the
    destination schema has, no prefix of the trace of [diff] shows more
    than eight goroutines between their [sem.Acquire] and their
    [sem.Release]; when [diff] returns, every goroutine it launched has
    acquired, released and returned. *)
Theorem at_most_eight_tables_compared sch v :
  exists r v' l,
    diff C R sch v = (r, v')
    /\ trace v' = trace v ++ l
    /\ bounded l
    /\ acquires l = releases l
    /\ (forall j td pc, nth_error (tasks v') j = Some (td, pc) -> returned pc = true)
    /\ comparing (tasks v') = 0.
Proof.
  destruct (diff_outcome C R sch v) as (r & v' & E & O & _).
  exists r, v'.
  assert (Hq : forall rd rs,
             bounded (EvSetState WorkerStateDiff :: fetchEvents (T := T) sch rd rs)
             /\ acquires (EvSetState WorkerStateDiff :: fetchEvents (T := T) sch rd rs)
                = releases (EvSetState WorkerStateDiff
                              :: fetchEvents (T := T) sch rd rs)).
  { intros rd rs. split.
    - rewrite <- (app_nil_r (_ :: _)). apply bounded_after; [|apply bounded_nil].
      eapply Forall_impl; [|apply fetch_no_semaphore]. now intros ? (? & _).
    - unfold fetchEvents. now destruct (destinationSchemaFirst sch). }
  assert (Hnone : tasks v' = [] ->
                  (forall j td pc, nth_error (tasks v') j = Some (td, pc) ->
                                   returned pc = true)
                  /\ comparing (tasks v') = 0).
  { intros ->. split; [|reflexivity]. intros [|j] ? ? H; discriminate. }
  destruct O as [rd rs e Ht _ _ Htk
                | dst srcU Ht _ _ Htk
                | dst srcU si ss e Ht _ _ _ _ Htk _ _
                | dst srcU si ss res _ _ _ kept _ _ Hi Hall _ _ _].
  - eexists. split; [exact E|]. split; [exact Ht|].
    destruct (Hq rd rs) as (Hb & Ha). destruct (Hnone Htk). auto.
  - eexists. split; [exact E|]. split; [exact Ht|].
    destruct (Hq (Value dst) (Value srcU)) as (Hb & Ha). destruct (Hnone Htk). auto.
  - eexists. split; [exact E|]. split; [exact Ht|].
    destruct (Hq (Value dst) (Value srcU)) as (Hb & Ha). destruct (Hnone Htk). auto.
  - destruct (pi_trace Hi) as (l' & Ht & Hb & Ha & Hsem).
    assert (Hz : comparing (tasks v') = 0).
    { apply comparing_zero. intros j x Hj. specialize (Hall j x Hj).
      destruct (snd x); now try discriminate. }
    exists ((EvSetState WorkerStateDiff :: fetchEvents sch (Value dst) (Value srcU)) ++ l').
    split; [exact E|]. split; [now rewrite app_assoc|].
    split; [|split; [|split]].
    + apply bounded_after; [|exact Hb].
      eapply Forall_impl; [|apply fetch_no_semaphore]. now intros ? (? & _).
    + rewrite acquires_app, releases_app, Ha, (pi_held Hi), Hz.
      destruct (Hq (Value dst) (Value srcU)) as (_ & ->). lia.
    + intros j td pc Hj. apply (Hall j _ Hj).
    + exact Hz.
Qed.

(** ** The filter on the source schema *)

Lemma keptTables_filter res tds :
  keptTables R res tds
  = filter (fun td => existsb (fun re => MatchString R re (Name td)) res) tds.
Proof.
  unfold keptTables. apply filter_ext. intros td. apply found_existsb.
Qed.

Lemma droppedTables_filter res tds :
  droppedTables R res tds
  = filter (fun td => negb (existsb (fun re => MatchString R re (Name td)) res)) tds.
Proof.
  unfold droppedTables. apply filter_ext. intros td. now rewrite found_existsb.
Qed.


(** ** The schema check *)

(** Claim C7, amended.  In a run of [diff] that got both schemas and
    whose filters compile, whatever the schema check reports, one
    goroutine is launched for each table of the destination schema, in
    its order, and each has returned when [diff] does; the verdict of the
    check is logged, as a warning when there are mismatches; and the
    mismatches stay in the accumulator, so [diff] returns an error
    whenever the check reports one. *)
Theorem schema_mismatch_stays_in_result sch v r v' l dst srcU si ss res :
  diff C R sch v = (r, v') ->
  trace v' = trace v ++ l ->
  In (EvGetDestinationSchema (Value dst)) l ->
  In (EvGetSourceSchema (Value srcU)) l ->
  shardInfo v = Some si ->
  nth_error (SourceShards si) 0 = Some ss ->
  compileTableRegexps R (Tables ss) = Value res ->
  let kept := {| TableDefinitions := keptTables R res (TableDefinitions srcU) |} in
  map fst (tasks v') = TableDefinitions dst
  /\ (forall j td pc, nth_error (tasks v') j = Some (td, pc) ->
                      exists result, pc = Returned result)
  /\ In (schemaVerdict (DiffSchema C dst kept)) (logs v')
  /\ (DiffSchema C dst kept <> [] ->
      fst (schemaVerdict (DiffSchema C dst kept)) = WARNING)
  /\ (forall e, In e (DiffSchema C dst kept) -> In e (rec v'))
  /\ (DiffSchema C dst kept <> [] -> exists e, r = Err e).
Proof.
  intros E Ht Hd Hs Hsi Hss Hc kept.
  destruct (@diff_ran sch v r v' l dst srcU si ss res E Ht Hd Hs Hsi Hss Hc)
    as (_ & _ & Hi & Hall & Hr & l1 & l2 & Hl).
  fold kept in Hi, Hl.
  assert (Hin : forall e, In e (DiffSchema C dst kept) -> In e (rec v')).
  { intros e He. apply (pi_rec Hi). now left. }
  split; [exact (pi_tables Hi)|]. split; [|split; [|split; [|split]]].
  - intros j td pc Hj. specialize (Hall j _ Hj). cbn in Hall.
    destruct pc; try discriminate. eauto.
  - rewrite Hl. apply in_or_app. right. apply in_or_app. right.
    apply in_or_app. right. apply in_or_app. left. right. now left.
  - intros Hne. unfold schemaVerdict.
    destruct (DiffSchema C dst kept); [congruence|reflexivity].
  - exact Hin.
  - intros Hne. rewrite Hr.
    destruct (rec v') as [|e0 rest] eqn:Erec.
    + exfalso. destruct (DiffSchema C dst kept) as [|e ?]; [congruence|].
      apply (Hin e). now left.
    + cbn. eauto.
Qed.

(** ** The result of the table goroutines *)


End DiffClaims.

(** * The filters as Go regular expressions *)

Section FilterClaims.

Context (T : Types) (C : Collab T).

Implicit Types v : VerticalSplitDiffWorker T.


End FilterClaims.

(** * More of [init] and [findTargets] *)

Section EarlyPhases.

Context (T : Types) (C : Collab T).

Implicit Types v : VerticalSplitDiffWorker T.

(** What [init] does with a topology it cannot use: an unreadable
    keyspace record, or one with no served-from, ends it before the
    shard is read; an unreadable shard record, or one whose number of
    source shards is not one, ends it with the error that names the
    shard.  What it read of the keyspace it keeps. *)
Theorem init_rejects_unusable_topology v rk w1 rs w2 :
  GetKeyspace C (keyspace v) (world v) = (rk, w1) ->
  GetShard C (keyspace v) (shard v) w1 = (rs, w2) ->
  exists r v',
    init C v = (r, v')
    /\ keyspaceInfo v' = valueOf rk
    /\ (forall e, rk = Error e ->
          r = Err ("cannot read keyspace " ++ keyspace v ++ ": " ++ e)%string
          /\ world v' = w1 /\ shardInfo v' = shardInfo v)
    /\ (forall ki, rk = Value ki -> ServedFroms ki = [] ->
          world v' = w1 /\ shardInfo v' = shardInfo v)
    /\ (forall ki, rk = Value ki -> ServedFroms ki <> [] ->
          world v' = w2 /\ shardInfo v' = valueOf rs)
    /\ (forall ki e, rk = Value ki -> ServedFroms ki <> [] -> rs = Error e ->
          r = Err ("cannot read shard " ++ keyspace v ++ "/" ++ shard v ++ ": " ++ e)%string)
    /\ (forall ki si, rk = Value ki -> ServedFroms ki <> [] -> rs = Value si ->
          List.length (SourceShards si) <> 1 ->
          r = Err ("shard " ++ keyspace v ++ "/" ++ shard v
                   ++ " has bad number of source shards")%string).
Proof.
  intros H1 H2. unfold init. prim. prim. fields.
  destruct rk as [ki|e]; call H1; prim; cbn [valueOf].
  2:{ do 2 eexists. split; [reflexivity|]. fields.
      split; [reflexivity|]. split; [|repeat split; intros; discriminate].
      intros e0 He. injection He as <-. auto. }
  destruct (ServedFroms ki) as [|sf sfs] eqn:Hsf; cbn [List.length Nat.eqb].
  { do 2 eexists. split; [reflexivity|]. fields.
    split; [reflexivity|]. split; [intros; discriminate|].
    split; [intros ki0 Hk _; auto|].
    split; [intros ki0 Hk Hne; injection Hk as <-; congruence|].
    split; intros ki0 x Hk Hne; injection Hk as <-; congruence. }
  destruct rs as [si|e]; call H2; prim; cbn [valueOf].
  2:{ do 2 eexists. split; [reflexivity|]. fields.
      split; [reflexivity|]. split; [intros; discriminate|].
      split; [intros ki0 Hk Hnil; injection Hk as <-; congruence|].
      split; [auto|]. split; [|intros; discriminate].
      intros ki0 e0 _ _ He. injection He as <-. reflexivity. }
  destruct (SourceShards si) as [|ss [|ss2 sss]] eqn:Hss;
    cbn [List.length Nat.eqb negb nth_error].
  1,3: (do 2 eexists; (split; [reflexivity|]); fields;
        (split; [reflexivity|]); (split; [intros; discriminate|]);
        (split; [intros ki0 Hk Hnil; injection Hk as <-; congruence|]);
        (split; [auto|]); (split; [intros; discriminate|]);
        intros ki0 si0 _ _ Hs _; reflexivity).
  prim.
  assert (Hrest : forall (r : Res unit) v',
             keyspaceInfo v' = Some ki -> world v' = w2 -> shardInfo v' = Some si ->
             keyspaceInfo v' = Some ki
             /\ (forall e, Value ki = Error e ->
                   r = Err ("cannot read keyspace " ++ keyspace v ++ ": " ++ e)%string
                   /\ world v' = w1 /\ shardInfo v' = shardInfo v)
             /\ (forall ki0, Value ki = Value ki0 -> ServedFroms ki0 = [] ->
                   world v' = w1 /\ shardInfo v' = shardInfo v)
             /\ (forall ki0, Value ki = Value ki0 -> ServedFroms ki0 <> [] ->
                   world v' = w2 /\ shardInfo v' = Some si)
             /\ (forall ki0 e, Value ki = Value ki0 -> ServedFroms ki0 <> [] ->
                   Value si = Error e ->
                   r = Err ("cannot read shard " ++ keyspace v ++ "/" ++ shard v ++ ": "
                            ++ e)%string)
             /\ (forall ki0 si0, Value ki = Value ki0 -> ServedFroms ki0 <> [] ->
                   Value si = Value si0 ->
                   List.length (SourceShards si0) <> 1 ->
                   r = Err ("shard " ++ keyspace v ++ "/" ++ shard v
                            ++ " has bad number of source shards")%string)).
  { intros r v' Hk Hw Hs. split; [exact Hk|]. split; [intros; discriminate|].
    split; [intros ki0 E Hnil; injection E as <-; congruence|].
    split; [auto|]. split; [intros; discriminate|].
    intros ki0 si0 _ _ E Hlen. injection E as <-. rewrite Hss in Hlen.
    exfalso. now apply Hlen. }
  destruct (Tables ss) as [|tb tbs]; cbn [List.length Nat.eqb];
    [|destruct (IsZero C (MasterAlias si))];
    do 2 eexists; (split; [reflexivity|]); apply Hrest; reflexivity.
Qed.

(** [findTargets] selects the destination tablet first and the
    source tablet after it, from the shard record of [init].  When no
    destination tablet is found, it ends without a selection in the
    source shard and with the cleaner as it was; when no source tablet
    is found, the action that restores the destination tablet stays
    registered for the cleanup; when both are found, their two actions
    are registered, the destination's first. *)
Theorem findTargets_registers_each_selected_tablet v si ss r1 w1 r2 w2 :
  shardInfo v = Some si ->
  nth_error (SourceShards si) 0 = Some ss ->
  selectWorkerTablet C (cell v) (keyspace v) (shard v) (world v) = (r1, w1) ->
  selectWorkerTablet C (cell v) (Keyspace ss) (Shard ss) w1 = (r2, w2) ->
  exists r v',
    findTargets C v = (r, v')
    /\ match r1, r2 with
       | Error e, _ =>
           r = Err ("FindWorkerTablet() failed for " ++ cell v ++ "/" ++ keyspace v
                    ++ "/" ++ shard v ++ ": " ++ e)%string
           /\ world v' = w1
           /\ cleaner v' = cleaner v
       | Value da, Error e =>
           r = Err ("FindWorkerTablet() failed for " ++ cell v ++ "/" ++ Keyspace ss
                    ++ "/" ++ Shard ss ++ ": " ++ e)%string
           /\ world v' = w2
           /\ destinationAlias v' = da
           /\ cleaner v'
              = cleaner v
                  ++ [ {| name := ChangeSlaveTypeActionName;
                          target := aliasString C da;
                          action := ChangeSlaveTypeAction da TYPE_RDONLY |} ]
       | Value da, Value sa =>
           r = Ok tt
           /\ world v' = w2
           /\ destinationAlias v' = da
           /\ sourceAlias v' = sa
           /\ cleaner v'
              = cleaner v
                  ++ [ {| name := ChangeSlaveTypeActionName;
                          target := aliasString C da;
                          action := ChangeSlaveTypeAction da TYPE_RDONLY |};
                       {| name := ChangeSlaveTypeActionName;
                          target := aliasString C sa;
                          action := ChangeSlaveTypeAction sa TYPE_RDONLY |} ]
       end.
Proof.
  intros Hsi Hss H1 H2. unfold findTargets. prim. prim. fields.
  erewrite bind_run by (apply FindWorkerTablet_run; fields; exact H1).
  cbv beta iota.
  destruct r1 as [da|e]; prim.
  2:{ do 2 eexists. split; [reflexivity|]. fields. auto. }
  rewrite Hsi. prim. rewrite Hss. prim.
  erewrite bind_run by (apply FindWorkerTablet_run; fields; exact H2).
  cbv beta iota.
  destruct r2 as [sa|e]; prim;
    do 2 eexists; (split; [reflexivity|]); fields; unfold RecordAction;
    rewrite <- ?app_assoc; auto.
Qed.

End EarlyPhases.

(** * The compensating actions of the barrier *)

Section CompensationFacts.

Context (T : Types) (C : Collab T).

Implicit Types v : VerticalSplitDiffWorker T.
Implicit Types c : Cleaner T.

Lemma refMatches_other n t n' t' (r : cleanerActionReference T) :
  refMatches n t r = true -> refMatches n' t' r = true -> n = n' /\ t = t'.
Proof.
  unfold refMatches. rewrite !andb_true_iff, !String.eqb_eq.
  intros (<- & <-) (<- & <-). auto.
Qed.

Lemma restoresTo_SetChangeSlaveType c t ty c' t0 :
  SetChangeSlaveType c t ty = Value c' ->
  restoresTo c' t0 = if String.eqb t t0 then Some ty else restoresTo c t0.
Proof.
  unfold restoresTo, GetActionByName.
  revert c'. induction c as [|r c IH]; intros c' H; cbn in H; [discriminate|].
  destruct (refMatches ChangeSlaveTypeActionName t r) eqn:Hm.
  - destruct (action r) as [a ty0| |] eqn:Ha; inversion H; subst. cbn.
    unfold refMatches at 1 3. cbn. fold (refMatches ChangeSlaveTypeActionName t0 r).
    destruct (String.eqb t t0) eqn:Ht.
    + apply String.eqb_eq in Ht. subst t0. now rewrite Hm.
    + destruct (refMatches ChangeSlaveTypeActionName t0 r) eqn:Hm0.
      * destruct (refMatches_other _ _ _ _ _ Hm Hm0) as (_ & <-).
        now rewrite String.eqb_refl in Ht.
      * reflexivity.
  - destruct (SetChangeSlaveType c t ty) as [c''|] eqn:E; inversion H; subst. cbn.
    destruct (refMatches ChangeSlaveTypeActionName t0 r) eqn:Hm0.
    + destruct (String.eqb t t0) eqn:Ht; [|reflexivity].
      apply String.eqb_eq in Ht. subst t0. congruence.
    + apply IH. reflexivity.
Qed.

Lemma restoresTo_RecordAction c n t a t0 ty :
  restoresTo c t0 = Some ty -> restoresTo (RecordAction c n t a) t0 = Some ty.
Proof.
  unfold restoresTo, GetActionByName, RecordAction.
  induction c as [|r c IH]; cbn; [discriminate|].
  destruct (refMatches ChangeSlaveTypeActionName t0 r); auto.
Qed.

Lemma restoresTo_RemoveActionByName c n t c' t0 :
  n <> ChangeSlaveTypeActionName ->
  RemoveActionByName c n t = Some c' ->
  restoresTo c' t0 = restoresTo c t0.
Proof.
  intros Hn. unfold restoresTo, GetActionByName.
  revert c'. induction c as [|r c IH]; intros c' H; cbn in H; [discriminate|].
  destruct (refMatches n t r) eqn:Hm.
  - inversion H; subst. cbn.
    destruct (refMatches ChangeSlaveTypeActionName t0 r) eqn:Hm0; [|reflexivity].
    destruct (refMatches_other _ _ _ _ _ Hm Hm0) as (-> & _). contradiction.
  - destruct (RemoveActionByName c n t) as [c''|] eqn:E; inversion H; subst. cbn.
    destruct (refMatches ChangeSlaveTypeActionName t0 r); [reflexivity|].
    apply IH. reflexivity.
Qed.

Lemma registered_RemoveActionByName_other c n t c' n' t' :
  n <> n' ->
  RemoveActionByName c n t = Some c' ->
  registered c' n' t' = registered c n' t'.
Proof.
  intros Hn. unfold registered.
  revert c'. induction c as [|r c IH]; intros c' H; cbn in H; [discriminate|].
  destruct (refMatches n t r) eqn:Hm.
  - inversion H; subst. cbn.
    destruct (refMatches n' t' r) eqn:Hm0; [|reflexivity].
    destruct (refMatches_other _ _ _ _ _ Hm Hm0) as (-> & _). contradiction.
  - destruct (RemoveActionByName c n t) as [c''|] eqn:E; inversion H; subst. cbn.
    destruct (refMatches n' t' r); cbn; rewrite (IH c'' eq_refl); reflexivity.
Qed.

Lemma registered_afterRemoval_other c n t n' t' :
  n <> n' -> registered (afterRemoval c n t) n' t' = registered c n' t'.
Proof.
  intros Hn. unfold afterRemoval.
  destruct (RemoveActionByName c n t) eqn:E; [|reflexivity].
  eapply registered_RemoveActionByName_other; eauto.
Qed.

Lemma restoresTo_afterRemoval c n t t0 :
  n <> ChangeSlaveTypeActionName ->
  restoresTo (afterRemoval c n t) t0 = restoresTo c t0.
Proof.
  intros Hn. unfold afterRemoval.
  destruct (RemoveActionByName c n t) eqn:E; [|reflexivity].
  eapply restoresTo_RemoveActionByName; eauto.
Qed.

(** A barrier that succeeds leaves the cleaner ready for the end of
    the run: one more action to restart the slave for the source tablet
    and one more for the destination tablet; the serving type that the
    selection of these tablets had registered for restoration replaced by
    spare, so that neither goes back into rotation; the other
    registrations of serving-type changes in number as they were; and, if
    the master's tablet record carries the master's alias, as many
    actions to resume filtered replication as before the barrier. *)
Theorem barrier_turns_the_cleaner_to_spare_and_restart v v' :
  synchronizeReplication C v = (Ok tt, v') ->
  exists si mi st dt,
    shardInfo v = Some si
    /\ In (EvGetTablet (MasterAlias si) (Value mi)) (trace v')
    /\ In (EvGetTablet (sourceAlias v) (Value st)) (trace v')
    /\ In (EvGetTablet (destinationAlias v) (Value dt)) (trace v')
    /\ (forall t,
           registered (cleaner v') StartSlaveActionName t
           = registered (cleaner v) StartSlaveActionName t
             + (if String.eqb (aliasString C (Alias C st)) t then 1 else 0)
             + (if String.eqb (aliasString C (Alias C dt)) t then 1 else 0))
    /\ restoresTo (cleaner v') (aliasString C (sourceAlias v)) = Some TYPE_SPARE
    /\ restoresTo (cleaner v') (aliasString C (destinationAlias v)) = Some TYPE_SPARE
    /\ (forall t,
           registered (cleaner v') ChangeSlaveTypeActionName t
           = registered (cleaner v) ChangeSlaveTypeActionName t)
    /\ (aliasString C (Alias C mi) = aliasString C (MasterAlias si) ->
        registered (cleaner v') StartBlpActionName (aliasString C (MasterAlias si))
        = registered (cleaner v) StartBlpActionName (aliasString C (MasterAlias si))).
Proof.
  intros E.
  destruct (sync_outcome C v) as (r0 & v0 & E0 & O & _).
  rewrite E in E0. injection E0 as <- <-.
  destruct O as [l _ Hr _ _ | e l Hr _ _
                | si ss mi blp pos st stoppedAt masterPos dt d c2 w7 res w8 HB _ Ht Hcl Hr];
    try discriminate.
  destruct HB as [w1 w2 w3 w4 w5 w6 c1 Hsi Hss _ _ _ _ _ Hc1 _ _ _ Hc2].
  exists si, mi, st, dt. split; [exact Hsi|].
  assert (Hin : forall e, In e (barrierTrace v si ss mi blp pos st stoppedAt masterPos dt d)
                          -> In e (trace v')).
  { intros e He. rewrite Ht. apply in_or_app. right. apply in_or_app. now left. }
  split; [apply Hin; cbn; auto|]. split; [apply Hin; cbn; auto 10|].
  split; [apply Hin; cbn; auto 10|].
  rewrite Hcl. split; [|split; [|split; [|split]]].
  - intros t. rewrite registered_afterRemoval_other by discriminate.
    rewrite (registered_SetChangeSlaveType _ _ _ _ _ Hc2), registered_RecordAction.
    rewrite (registered_SetChangeSlaveType _ _ _ _ _ Hc1), !registered_RecordAction.
    cbn. rewrite ?Nat.add_0_r. reflexivity.
  - rewrite restoresTo_afterRemoval by discriminate.
    rewrite (restoresTo_SetChangeSlaveType _ _ _ _ Hc2).
    destruct (String.eqb _ _); [reflexivity|].
    apply restoresTo_RecordAction.
    rewrite (restoresTo_SetChangeSlaveType _ _ _ _ Hc1).
    now rewrite String.eqb_refl.
  - rewrite restoresTo_afterRemoval by discriminate.
    rewrite (restoresTo_SetChangeSlaveType _ _ _ _ Hc2).
    now rewrite String.eqb_refl.
  - intros t. rewrite registered_afterRemoval_other by discriminate.
    rewrite (registered_SetChangeSlaveType _ _ _ _ _ Hc2), registered_RecordAction.
    rewrite (registered_SetChangeSlaveType _ _ _ _ _ Hc1), !registered_RecordAction.
    cbn. rewrite ?Nat.add_0_r. reflexivity.
  - intros Ha.
    assert (Hc2n : registered c2 StartBlpActionName (aliasString C (MasterAlias si))
                   = S (registered (cleaner v) StartBlpActionName
                          (aliasString C (MasterAlias si)))).
    { rewrite (registered_SetChangeSlaveType _ _ _ _ _ Hc2), registered_RecordAction.
      rewrite (registered_SetChangeSlaveType _ _ _ _ _ Hc1), !registered_RecordAction.
      rewrite Ha, !String.eqb_refl. cbn. lia. }
    unfold afterRemoval.
    destruct (RemoveActionByName c2 StartBlpActionName (aliasString C (MasterAlias si)))
      as [c3|] eqn:Hc3.
    + apply registered_RemoveActionByName_Some in Hc3. lia.
    + apply registered_RemoveActionByName_None in Hc3. lia.
Qed.

End CompensationFacts.

Ltac counted :=
  repeat first
    [ rewrite registered_RecordAction
    | erewrite registered_SetChangeSlaveType by eassumption
    | match goal with
      | H : RemoveActionByName ?c ?n ?t = Some ?c3 |- context [registered ?c3 ?n' ?t'] =>
          let E := fresh in
          assert (E : registered c3 n' t' = registered c n' t')
            by (eapply registered_RemoveActionByName_other; [|exact H]; discriminate);
          rewrite E; clear E
      end ];
  rewrite ?String.eqb_refl; cbn [andb]; lia.

Ltac which Hin :=
  cbn [In app] in Hin;
  repeat (destruct Hin as [Hin|Hin]; [try discriminate Hin|]);
  try contradiction.

Ltac settled :=
  do 3 eexists; (split; [reflexivity|]);
  (split; [fields; unfold barrierTrace; rewrite <- ?app_assoc; reflexivity|]);
  fields;
  split;
  [ let mi0 := fresh "mi0" in let blp0 := fresh "blp0" in
    let Hin := fresh "Hin" in let Hno := fresh "Hno" in
    intros mi0 blp0 Hin Hno; which Hin;
    try (injection Hin as <- <-);
    first [ counted
          | exfalso; eapply Hno; cbn [In app]; eauto 12 ]
  | let t0 := fresh "t0" in let p0 := fresh "p0" in let q0 := fresh "q0" in
    let Hin := fresh "Hin" in
    intros t0 p0 q0 Hin; which Hin;
    try (injection Hin as <- <- <-); counted ].

Section CompensationKept.

Context (T : Types) (C : Collab T).

Implicit Types v : VerticalSplitDiffWorker T.

Lemma sync_compensations v :
  exists r v' l,
    synchronizeReplication C v = (r, v')
    /\ trace v' = trace v ++ l
    /\ (forall mi blp,
           In (EvStopBlp mi (Value blp)) l ->
           (forall res, ~ In (EvStartBlp mi res) l) ->
           1 <= registered (cleaner v') StartBlpActionName (aliasString C (Alias C mi)))
    /\ (forall t p q,
           In (EvStopSlaveMinimum t p (Value q)) l ->
           1 <= registered (cleaner v') StartSlaveActionName (aliasString C (Alias C t))).
Proof.
  unfold synchronizeReplication. prim. prim. fields.
  destruct (shardInfo v) as [si|] eqn:Hsi; [|settled].
  prim.
  answer (GetTablet C (MasterAlias si) (world v)) r1 w1 H1.
  destruct r1 as [mi|e]; call H1; [|settled].
  prim.
  answer (StopBlp C mi w1) r2 w2 H2.
  destruct r2 as [blp|e]; call H2; [|settled].
  prim.
  destruct (nth_error (SourceShards si) 0) as [ss|] eqn:Hss; [|settled].
  prim.
  destruct (FindBlpPositionById blp (Uid ss)) as [pos|] eqn:Hpos; [|settled].
  prim.
  answer (GetTablet C (sourceAlias v) w2) r3 w3 H3.
  destruct r3 as [st|e]; call H3; [|settled].
  answer (StopSlaveMinimum C st (bpPosition pos) w3) r4 w4 H4.
  destruct r4 as [stoppedAt|e]; call H4; [|settled].
  prim.
  destruct (SetChangeSlaveType
      (RecordAction
         (RecordAction (cleaner v) StartBlpActionName
            (aliasString C (Alias C mi)) (StartBlpAction mi))
         StartSlaveActionName (aliasString C (Alias C st)) (StartSlaveAction st))
      (aliasString C (sourceAlias v)) TYPE_SPARE) as [c1|e] eqn:Hc1;
    (erewrite bind_run by
        (rewrite changeSlaveTypeToSpare_run; fields; rewrite Hc1; reflexivity));
    cbv beta iota; [|settled].
  prim.
  answer (RunBlpUntil C mi
            {| Entries := [ {| bpUid := Uid ss; bpPosition := stoppedAt |} ] |} w4)
    r5 w5 H5.
  destruct r5 as [masterPos|e]; call H5; [|settled].
  prim.
  answer (GetTablet C (destinationAlias v) w5) r6 w6 H6.
  destruct r6 as [dt|e]; call H6; [|settled].
  answer (StopSlaveMinimum C dt masterPos w6) r7 w7 H7.
  destruct r7 as [d|e]; call H7; [|settled].
  prim.
  destruct (SetChangeSlaveType
      (RecordAction c1 StartSlaveActionName (aliasString C (Alias C dt))
         (StartSlaveAction dt))
      (aliasString C (destinationAlias v)) TYPE_SPARE) as [c2|e] eqn:Hc2;
    (erewrite bind_run by
        (rewrite changeSlaveTypeToSpare_run; fields; rewrite Hc2; reflexivity));
    cbv beta iota; [|settled].
  prim.
  answer (StartBlp C mi w7) res w8 H8.
  erewrite bind_run by (apply tmcStartBlp_run; fields; exact H8).
  cbv beta iota. prim. fields.
  destruct (RemoveActionByName c2 StartBlpActionName (aliasString C (MasterAlias si)))
    as [c3|] eqn:Hc3; prim; destruct res as [err|]; settled.
Qed.

(** When the barrier returns, with or without an error, every stop
    it obtained has its restart registered: an action to restart the
    slave for each tablet whose replication it stopped, and, unless it
    went on to resume filtered replication itself, an action to resume
    it for the master it paused. *)
Theorem every_stop_has_its_restart_registered v r v' l :
  synchronizeReplication C v = (r, v') ->
  trace v' = trace v ++ l ->
  (forall mi blp,
      In (EvStopBlp mi (Value blp)) l ->
      (forall res, ~ In (EvStartBlp mi res) l) ->
      1 <= registered (cleaner v') StartBlpActionName (aliasString C (Alias C mi)))
  /\ (forall t p q,
         In (EvStopSlaveMinimum t p (Value q)) l ->
         1 <= registered (cleaner v') StartSlaveActionName (aliasString C (Alias C t))).
Proof.
  intros E Ht.
  destruct (sync_compensations v) as (r0 & v0 & l0 & E0 & Ht0 & H).
  rewrite E in E0. injection E0 as <- <-.
  rewrite Ht in Ht0. apply app_inv_head in Ht0. subst l0. exact H.
Qed.

End CompensationKept.

(** * The schema fetches *)

Section FetchFacts.

Context (T : Types) (C : Collab T) (R : RegexpLib).

Implicit Types v : VerticalSplitDiffWorker T.

Lemma gatherSchemas_run sch v rd rs w :
  fetchSchemas C sch v = (rd, rs, w) ->
  exists v',
    gatherSchemas C sch v
    = (resOfErr (AllErrorRecorder.Error (fetchErrors (fetchEvents (T := T) sch rd rs))), v')
    /\ trace v' = trace v ++ fetchEvents sch rd rs
    /\ world v' = w
    /\ tasks v' = []
    /\ cleaner v' = cleaner v.
Proof.
  unfold fetchSchemas, fetchEvents.
  destruct (destinationSchemaFirst sch) eqn:Hfirst.
  - answer (GetSchema C (destinationAlias v) (excludeTables v) (world v)) rd0 w1 H1.
    rewrite H1.
    answer (GetSchema C (sourceAlias v) (excludeTables v) w1) rs0 w2 H2.
    rewrite H2. intros E. injection E as <- <- <-.
    unfold gatherSchemas. rewrite Hfirst.
    prim. prim. prim. prim.
    erewrite bind_run.
    2:{ erewrite bind_run by (apply getDestinationSchema_run; fields; exact H1).
        cbv beta iota. apply getSourceSchema_run. fields. exact H2. }
    cbv beta iota. prim. fields.
    destruct rd0 as [dst|e1], rs0 as [src|e2]; cbn [errOf AllErrorRecorder.RecordError
      AllErrorRecorder.HasErrors AllErrorRecorder.Error AllErrorRecorder.empty app
      returnError valueOf fetchErrors resOfErr];
      eexists; (split; [reflexivity|]); fields; rewrite <- ?app_assoc; auto.
  - answer (GetSchema C (sourceAlias v) (excludeTables v) (world v)) rs0 w1 H1.
    rewrite H1.
    answer (GetSchema C (destinationAlias v) (excludeTables v) w1) rd0 w2 H2.
    rewrite H2. intros E. injection E as <- <- <-.
    unfold gatherSchemas. rewrite Hfirst.
    prim. prim. prim. prim.
    erewrite bind_run.
    2:{ erewrite bind_run by (apply getSourceSchema_run; fields; exact H1).
        cbv beta iota. apply getDestinationSchema_run. fields. exact H2. }
    cbv beta iota. prim. fields.
    destruct rd0 as [dst|e1], rs0 as [src|e2]; cbn [errOf AllErrorRecorder.RecordError
      AllErrorRecorder.HasErrors AllErrorRecorder.Error AllErrorRecorder.empty app
      returnError valueOf fetchErrors resOfErr];
      eexists; (split; [reflexivity|]); fields; rewrite <- ?app_assoc; auto.
Qed.

(** [diff] waits for both schema fetches whichever completes first
    and however the first one ends; when one of them fails, it returns
    the errors of the fetches, in the order they completed, joined into
    one, having made these two calls and nothing more: no filter is
    compiled, no goroutine launched, nothing registered for cleanup. *)
Theorem failed_fetch_ends_diff_with_every_error sch v rd rs w :
  fetchSchemas C sch v = (rd, rs, w) ->
  errOf rd <> None \/ errOf rs <> None ->
  exists e v',
    diff C R sch v = (Err e, v')
    /\ AllErrorRecorder.Error (fetchErrors (fetchEvents (T := T) sch rd rs)) = Some e
    /\ trace v' = trace v ++ EvSetState WorkerStateDiff :: fetchEvents sch rd rs
    /\ world v' = w
    /\ tasks v' = []
    /\ cleaner v' = cleaner v.
Proof.
  intros Hf Herr. unfold diff. prim.
  set (v0 := set_trace _ (set_State _ v)).
  assert (Hf0 : fetchSchemas C sch v0 = (rd, rs, w)) by exact Hf.
  destruct (gatherSchemas_run _ _ Hf0) as (v1 & E1 & Ht & Hw & Htk & Hcl).
  erewrite bind_run by exact E1.
  assert (He : exists e, AllErrorRecorder.Error (fetchErrors (fetchEvents (T := T) sch rd rs))
                         = Some e).
  { unfold fetchEvents.
    destruct (destinationSchemaFirst sch), rd as [dst|e1], rs as [src|e2];
      cbn; eauto; destruct Herr as [H|H]; exfalso; now apply H. }
  destruct He as (e & He). rewrite He. cbn [resOfErr].
  exists e, v1. split; [reflexivity|]. split; [reflexivity|].
  split; [|auto].
  rewrite Ht. subst v0. fields. now rewrite <- app_assoc.
Qed.

(** With the shard record [init] leaves, [diff] never panics and
    never deadlocks: whatever the schedule of its goroutines and the
    number of tables, the wait for them returns. *)
Theorem diff_returns_under_every_schedule sch v si ss :
  shardInfo v = Some si ->
  nth_error (SourceShards si) 0 = Some ss ->
  exists r v',
    diff C R sch v = (r, v')
    /\ r <> Panic
    /\ pending (tasks v') = 0.
Proof.
  intros Hsi Hss.
  destruct (diff_outcome C R sch v) as (r & v' & E & O & _).
  exists r, v'. split; [exact E|].
  destruct O as [rd rs e _ _ -> Htk
                | dst srcU _ Hno _ _
                | dst srcU si' ss' e _ _ _ _ -> Htk _ _
                | dst srcU si' ss' res _ _ _ kept _ _ Hi Hall Hwg -> _].
  - split; [discriminate|]. now rewrite Htk.
  - exfalso. eapply Hno; eauto.
  - split; [discriminate|]. now rewrite Htk.
  - split; [destruct (AllErrorRecorder.Error (rec v')); discriminate|].
    rewrite <- (pi_wg Hi). exact Hwg.
Qed.

End FetchFacts.

(** * The phases of [run] *)

Section RunPhases.

Context (T : Types) (C : Collab T) (R : RegexpLib).

Implicit Types v : VerticalSplitDiffWorker T.

Lemma states_app (l l' : list (Event T)) : states (l ++ l') = states l ++ states l'.
Proof.
  induction l as [|e l IH]; [reflexivity|]. destruct e; cbn; now rewrite IH.
Qed.

Lemma states_none (l : list (Event T)) :
  Forall (fun e => match e with EvSetState _ => False | _ => True end) l ->
  states l = [].
Proof.
  induction 1 as [|e l He _ IH]; [reflexivity|]. destruct e; cbn; auto. destruct He.
Qed.

Lemma states_barrier (l : list (Event T)) :
  Forall (fun e => barrierCall e = true) l -> states l = [].
Proof.
  intros H. apply states_none. eapply Forall_impl; [|exact H].
  intros [] He; cbn in *; auto; discriminate.
Qed.

Lemma states_semaphore (l : list (Event T)) :
  Forall (fun e => isAcquire e || isRelease e = true) l -> states l = [].
Proof.
  intros H. apply states_none. eapply Forall_impl; [|exact H].
  intros [] He; cbn in *; auto; discriminate.
Qed.

Lemma states_fetch sch rd rs : states (fetchEvents (T := T) sch rd rs) = [].
Proof. unfold fetchEvents. now destruct (destinationSchemaFirst sch). Qed.

Lemma SyncOutcome_states v r v' :
  SyncOutcome C v r v' ->
  exists l, trace v' = trace v ++ l /\ states l = [WorkerStateSyncReplication].
Proof.
  intros [l _ _ Ht Hf | e l _ Ht Hf
         | si ss mi blp pos st stoppedAt masterPos dt d c2 w7 res w8 _ _ Ht _ _].
  - eexists. split; [exact Ht|]. cbn. now rewrite states_barrier.
  - eexists. split; [exact Ht|]. cbn. now rewrite states_barrier.
  - eexists. split; [exact Ht|]. reflexivity.
Qed.

Lemma DiffOutcome_states sch v r v' :
  DiffOutcome C R sch v r v' ->
  exists l, trace v' = trace v ++ l /\ states l = [WorkerStateDiff].
Proof.
  intros [rd rs e Ht _ _ _ | dst srcU Ht _ _ _ | dst srcU si ss e Ht _ _ _ _ _ _ _
         | dst srcU si ss res _ _ _ kept _ _ Hi _ _ _ _].
  - eexists. split; [exact Ht|]. cbn. now rewrite states_fetch.
  - eexists. split; [exact Ht|]. cbn. now rewrite states_fetch.
  - eexists. split; [exact Ht|]. cbn. now rewrite states_fetch.
  - destruct (pi_trace Hi) as (l & Hl & _ & _ & Hf).
    eexists. rewrite Hl, <- app_assoc. split; [reflexivity|].
    cbn. now rewrite states_app, states_fetch, states_semaphore.
Qed.

(** How [run] ends: the phase it ends in, the states it went through,
    and where its error comes from. *)
Lemma run_phases sch v :
  exists r v' l p,
    run C R sch v = (r, v')
    /\ trace v' = trace v ++ l
    /\ states l = phaseStates p
    /\ (r = Ok tt -> p = PhaseDiff)
    /\ (forall e, r = Err e ->
          (exists e0, e = (phaseContext p ++ e0)%string)
          \/ (p <> PhaseDiff /\ exists w w', checkDone C w = (Some e, w')))
    /\ (p = PhaseInit -> cleaner v' = cleaner v).
Proof.
  unfold run.
  destruct (init_outcome C v) as (r1 & v1 & E1 & Hp1 & Ht1 & Hcl1 & Hok1).
  erewrite bind_run by (apply mapErr_run; exact E1).
  destruct r1 as [[]|e1|]; [| |congruence].
  2:{ exists (Err ("init() failed: " ++ e1)%string), v1, [EvSetState WorkerStateInit], PhaseInit.
      split; [reflexivity|]. split; [exact Ht1|]. split; [reflexivity|].
      split; [discriminate|]. split; [|auto].
      intros e He. injection He as <-. left. eauto. }
  destruct (Hok1 eq_refl) as (ki & si & ss & _ & _ & Hsi & Hss & _ & _).
  answer (checkDone C (world v1)) c1 w1 Hc1.
  erewrite bind_run by (apply checkDone_run; exact Hc1).
  destruct c1 as [e|]; cbn [resOfErr].
  { exists (Err e), (set_world w1 v1), [EvSetState WorkerStateInit], PhaseInit.
    split; [reflexivity|]. split; [exact Ht1|]. split; [reflexivity|].
    split; [discriminate|]. split; [|auto].
    intros e' He. injection He as <-. right. split; [discriminate|eauto]. }
  set (v1' := set_world w1 v1).
  assert (Hss0 : nth_error (SourceShards si) 0 = Some ss) by (rewrite Hss; reflexivity).
  destruct (@findTargets_outcome T C v1' si ss Hsi Hss0)
    as (r2 & v2 & E2 & Hp2 & Ht2 & Hsi2 & _).
  erewrite bind_run by (apply mapErr_run; exact E2).
  assert (Hq2 : trace v2 = trace v ++ [EvSetState WorkerStateInit;
                                       EvSetState WorkerStateFindTargets]).
  { rewrite Ht2. subst v1'. fields. rewrite Ht1, <- app_assoc. reflexivity. }
  destruct r2 as [[]|e2|]; [| |congruence].
  2:{ exists (Err ("findTargets() failed: " ++ e2)%string), v2,
        [EvSetState WorkerStateInit; EvSetState WorkerStateFindTargets], PhaseFindTargets.
      split; [reflexivity|]. split; [exact Hq2|]. split; [reflexivity|].
      split; [discriminate|]. split; [|discriminate].
      intros e He. injection He as <-. left. eauto. }
  answer (checkDone C (world v2)) c2 w2 Hc2.
  erewrite bind_run by (apply checkDone_run; exact Hc2).
  destruct c2 as [e|]; cbn [resOfErr].
  { exists (Err e), (set_world w2 v2),
      [EvSetState WorkerStateInit; EvSetState WorkerStateFindTargets], PhaseFindTargets.
    split; [reflexivity|]. split; [exact Hq2|]. split; [reflexivity|].
    split; [discriminate|]. split; [|discriminate].
    intros e' He. injection He as <-. right. split; [discriminate|eauto]. }
  set (v2' := set_world w2 v2).
  assert (Hsi2' : shardInfo v2' = Some si) by (subst v2' v1'; fields; congruence).
  destruct (sync_outcome C v2') as (r3 & v3 & E3 & Ho3 & Hsi3).
  erewrite bind_run by (apply mapErr_run; exact E3).
  assert (Hq3 : exists l, trace v3 = trace v ++ l
                          /\ states l = phaseStates PhaseSyncReplication).
  { destruct (SyncOutcome_states Ho3) as (l3 & Hl3 & Hs3).
    rewrite Hl3. subst v2'. fields. rewrite Hq2, <- app_assoc.
    eexists. split; [reflexivity|]. rewrite states_app, Hs3. reflexivity. }
  destruct Hq3 as (l3 & Hl3 & Hs3).
  assert (Hp3 : r3 <> Panic).
  { destruct Ho3 as [l Hno -> _ _ | e l -> _ _
                    | ? ? ? ? ? ? ? ? ? ? ? ? res ? _ _ _ _ ->];
      try discriminate; [|destruct res; discriminate].
    exfalso. eapply Hno; eauto. }
  destruct r3 as [[]|e3|]; [| |congruence].
  2:{ exists (Err ("synchronizeReplication() failed: " ++ e3)%string), v3, l3,
        PhaseSyncReplication.
      split; [reflexivity|]. split; [exact Hl3|]. split; [exact Hs3|].
      split; [discriminate|]. split; [|discriminate].
      intros e He. injection He as <-. left. eauto. }
  answer (checkDone C (world v3)) c3 w3 Hc3.
  erewrite bind_run by (apply checkDone_run; exact Hc3).
  destruct c3 as [e|]; cbn [resOfErr].
  { exists (Err e), (set_world w3 v3), l3, PhaseSyncReplication.
    split; [reflexivity|]. split; [exact Hl3|]. split; [exact Hs3|].
    split; [discriminate|]. split; [|discriminate].
    intros e' He. injection He as <-. right. split; [discriminate|eauto]. }
  set (v3' := set_world w3 v3).
  assert (Hsi3' : shardInfo v3' = Some si) by (subst v3'; fields; congruence).
  destruct (diff_outcome C R sch v3') as (r4 & v4 & E4 & Ho4 & _ & _).
  erewrite bind_run by (apply mapErr_run; exact E4).
  assert (Hq4 : exists l, trace v4 = trace v ++ l /\ states l = phaseStates PhaseDiff).
  { destruct (DiffOutcome_states Ho4) as (l4 & Hl4 & Hs4).
    rewrite Hl4. subst v3'. fields. rewrite Hl3, <- app_assoc.
    eexists. split; [reflexivity|]. rewrite states_app, Hs3, Hs4. reflexivity. }
  destruct Hq4 as (l4 & Hl4 & Hs4).
  assert (Hp4 : r4 <> Panic).
  { destruct Ho4 as [rd rs e _ _ -> _ | dst srcU _ Hno _ _ | dst srcU ? ? e _ _ _ _ -> _ _ _
                    | dst srcU ? ? res _ _ _ kept _ _ _ _ _ -> _];
      try discriminate.
    - exfalso. eapply Hno; eauto.
    - destruct (AllErrorRecorder.Error (rec v4)); discriminate. }
  destruct r4 as [[]|e4|]; [| |congruence].
  - exists (Ok tt), v4, l4, PhaseDiff.
    split; [reflexivity|]. split; [exact Hl4|]. split; [exact Hs4|].
    split; [auto|]. split; [discriminate|discriminate].
  - exists (Err ("diff() failed: " ++ e4)%string), v4, l4, PhaseDiff.
    split; [reflexivity|]. split; [exact Hl4|]. split; [exact Hs4|].
    split; [discriminate|]. split; [|discriminate].
    intros e He. injection He as <-. left. eauto.
Qed.

End RunPhases.

(** * What each phase leaves alone *)

Section Keeping.

Context (T : Types) (C : Collab T) (R : RegexpLib).
Context (B : Type) (f : VerticalSplitDiffWorker T -> B) (U : Untouched f).

Implicit Types v : VerticalSplitDiffWorker T.

Lemma keeps_ret {A} (a : A) : keeps f (ret (T := T) a).
Proof. intros v r v' E. now injection E as <- <-. Qed.

Lemma keeps_fail {A} e : keeps f (fail (T := T) (A := A) e).
Proof. intros v r v' E. now injection E as <- <-. Qed.

Lemma keeps_panic {A} : keeps f (panic (T := T) (A := A)).
Proof. intros v r v' E. now injection E as <- <-. Qed.

Lemma keeps_get : keeps f (get (T := T)).
Proof. intros v r v' E. now injection E as <- <-. Qed.

Lemma keeps_bind {A A'} (m : M T A) (k : A -> M T A') :
  keeps f m -> (forall a, keeps f (k a)) -> keeps f (bind m k).
Proof.
  intros Hm Hk v r v' E. unfold bind in E.
  destruct (m v) as [r1 v1] eqn:E1. apply Hm in E1.
  destruct r1 as [a|e|].
  - apply Hk in E. congruence.
  - injection E as <- <-. exact E1.
  - injection E as <- <-. exact E1.
Qed.

Lemma keeps_modify g : (forall v, f (g v) = f v) -> keeps f (modify g).
Proof. intros H v r v' E. injection E as <- <-. apply H. Qed.

Lemma keeps_deref {A} (o : option A) : keeps f (deref (T := T) o).
Proof. destruct o; [apply keeps_ret|apply keeps_panic]. Qed.

Lemma keeps_returnError e : keeps f (returnError (T := T) e).
Proof. destruct e; [apply keeps_fail|apply keeps_ret]. Qed.

Lemma keeps_mapErr {A} h (m : M T A) : keeps f m -> keeps f (mapErr h m).
Proof.
  intros Hm v r v' E. unfold mapErr in E.
  destruct (m v) as [r1 v1] eqn:E1. apply Hm in E1.
  destruct r1; injection E as <- <-; exact E1.
Qed.

Lemma keeps_attempt (m : M T unit) : keeps f m -> keeps f (attempt m).
Proof.
  intros Hm v r v' E. unfold attempt in E.
  destruct (m v) as [r1 v1] eqn:E1. apply Hm in E1.
  destruct r1; injection E as <- <-; exact E1.
Qed.

Lemma keeps_remote {A} g (ev : Reply A -> list (Event T)) : keeps f (remote g ev).
Proof.
  intros v r v' E. unfold remote in E. destruct (g (world v)) as [a w].
  injection E as <- <-. now rewrite (ut_trace U), (ut_world U).
Qed.

Lemma keeps_SetState st : keeps f (SetState (T := T) st).
Proof.
  intros v r v' E. injection E as <- <-. now rewrite (ut_trace U), (ut_State U).
Qed.

Lemma keeps_addLog l msg v : f (addLog l msg v) = f v.
Proof. unfold addLog. apply (ut_logs U). Qed.

Lemma keeps_recordError e v : f (recordError e v) = f v.
Proof. unfold recordError. apply (ut_rec U). Qed.

Lemma keeps_logf l msg : keeps f (logf (T := T) l msg).
Proof. apply keeps_modify. intros v. apply keeps_addLog. Qed.

Lemma keeps_tmcStartBlp t : keeps f (tmcStartBlp C t).
Proof.
  intros v r v' E. unfold tmcStartBlp in E. destruct (StartBlp C t (world v)).
  injection E as <- <-. now rewrite (ut_trace U), (ut_world U).
Qed.

Lemma keeps_cleanerCleanUp : keeps f (cleanerCleanUp C).
Proof.
  intros v r v' E. unfold cleanerCleanUp in E.
  destruct (CleanUp C (cleaner v) (world v)).
  injection E as <- <-. now rewrite (ut_trace U), (ut_world U).
Qed.

Lemma keeps_ctxCheckDone : keeps f (ctxCheckDone C).
Proof.
  intros v r v' E. unfold ctxCheckDone in E. destruct (checkDone C (world v)).
  injection E as <- <-. now rewrite (ut_world U).
Qed.

Lemma keeps_set_cleaner g : keeps f (modify (fun v => set_cleaner (g v) v)).
Proof. apply keeps_modify. intros v. apply (ut_cleaner U). Qed.

(** One rule of the monad, or one case of a branch, at a time. *)
Ltac keeping :=
  repeat first
    [ apply keeps_bind; [|intro]
    | apply keeps_ret | apply keeps_fail | apply keeps_panic | apply keeps_get
    | apply keeps_deref | apply keeps_returnError
    | apply keeps_SetState | apply keeps_remote | apply keeps_logf
    | apply keeps_tmcStartBlp | apply keeps_cleanerCleanUp | apply keeps_ctxCheckDone
    | apply keeps_set_cleaner
    | apply keeps_modify; intro;
      rewrite ?keeps_recordError, ?keeps_addLog, ?(ut_State U), ?(ut_cleaner U),
        ?(ut_sourceSchema U), ?(ut_destinationSchema U), ?(ut_rec U), ?(ut_sem U),
        ?(ut_wg U), ?(ut_tasks U), ?(ut_logs U), ?(ut_world U), ?(ut_trace U);
      reflexivity
    | match goal with
      | |- keeps _ (match ?x with _ => _ end) => destruct x
      end ].

Lemma keeps_checkDone : keeps f (checkDone_ C).
Proof. unfold checkDone_. keeping. Qed.

Lemma keeps_changeSlaveTypeToSpare a : keeps f (changeSlaveTypeToSpare C a).
Proof. unfold changeSlaveTypeToSpare. keeping. Qed.

Lemma keeps_synchronizeReplication : keeps f (synchronizeReplication C).
Proof.
  unfold synchronizeReplication, topoGetTablet, tmcStopBlp, tmcStopSlaveMinimum,
    tmcRunBlpUntil, RecordStartBlpAction, RecordStartSlaveAction, Infof, Warningf.
  keeping; apply keeps_changeSlaveTypeToSpare.
Qed.

Lemma keeps_taskStep i v : f (taskStep C i v) = f v.
Proof.
  unfold taskStep.
  destruct (nth_error (tasks v) i) as [[td pc]|]; [|reflexivity].
  destruct pc as [ | |s|s d|s d df|res]; try reflexivity.
  - destruct (Semaphore.Acquire (sem v)); [|reflexivity].
    unfold setTask. now rewrite (ut_tasks U), (ut_trace U), (ut_sem U).
  - destruct (TableScan C _ td _) as [[q|e] w]; unfold taskReturn, setTask;
      rewrite ?(ut_tasks U), ?(ut_wg U), ?(ut_trace U), ?(ut_sem U), ?(ut_world U),
        ?keeps_addLog, ?keeps_recordError, ?(ut_world U), ?keeps_addLog; reflexivity.
  - destruct (TableScan C _ td _) as [[q|e] w]; unfold taskReturn, setTask;
      rewrite ?(ut_tasks U), ?(ut_wg U), ?(ut_trace U), ?(ut_sem U), ?(ut_world U),
        ?keeps_addLog, ?keeps_recordError, ?(ut_world U); reflexivity.
  - destruct (NewRowDiffer C s d td) as [q|e]; unfold taskReturn, setTask;
      rewrite ?(ut_tasks U), ?(ut_wg U), ?(ut_trace U), ?(ut_sem U), ?(ut_world U),
        ?keeps_addLog, ?keeps_recordError; reflexivity.
  - destruct (Go C df (world v)) as [[rep|e] w]; [destruct (HasDifferences C rep)|];
      unfold taskReturn, setTask;
      rewrite ?(ut_tasks U), ?(ut_wg U), ?(ut_trace U), ?(ut_sem U), ?(ut_world U),
        ?keeps_addLog, ?keeps_recordError, ?(ut_world U); reflexivity.
Qed.

Lemma keeps_runSchedule turns v : f (runSchedule C turns v) = f v.
Proof.
  revert v. induction turns as [|i turns IH]; intros v; [reflexivity|].
  cbn. unfold runSchedule in IH. now rewrite IH, keeps_taskStep.
Qed.

Lemma keeps_wgWait : keeps f (wgWait C).
Proof.
  unfold wgWait. keeping. apply keeps_modify. intros v. apply keeps_runSchedule.
Qed.

Lemma keeps_removeUnneededTables res tds : keeps f (removeUnneededTables R res tds).
Proof.
  induction tds as [|td tds IH]; cbn [removeUnneededTables]; unfold Infof; keeping;
    exact IH.
Qed.

Lemma keeps_recordErrors (l : list error) v :
  f (fold_left (fun v err => recordError (Some err) v) l v) = f v.
Proof.
  revert v. induction l as [|e l IH]; intros v; [reflexivity|].
  cbn. now rewrite IH, keeps_recordError.
Qed.

Lemma keeps_diff sch : keeps f (diff C R sch).
Proof.
  unfold diff, gatherSchemas, filterSourceSchema, checkSchema, runDiffs,
    getDestinationSchema, getSourceSchema, Infof, Warningf.
  keeping;
    first [ apply keeps_removeUnneededTables
          | apply keeps_wgWait
          | apply keeps_modify; intro;
            first [apply keeps_recordErrors | apply keeps_runSchedule] ].
Qed.

Lemma keeps_FindWorkerTablet cell ks sh : keeps f (FindWorkerTablet C cell ks sh).
Proof. unfold FindWorkerTablet, RecordChangeSlaveTypeAction. keeping. Qed.

Lemma keeps_findTargets :
  (forall x v, f (set_destinationAlias x v) = f v) ->
  (forall x v, f (set_sourceAlias x v) = f v) ->
  keeps f (findTargets C).
Proof.
  intros Hd Hs. unfold findTargets.
  keeping; first [apply keeps_FindWorkerTablet | apply keeps_modify; intro; auto].
Qed.

Lemma keeps_init :
  (forall x v, f (set_keyspaceInfo x v) = f v) ->
  (forall x v, f (set_shardInfo x v) = f v) ->
  keeps f (init C).
Proof.
  intros Hk Hs. unfold init, topoGetKeyspace, topoGetShard.
  keeping; apply keeps_modify; intro; auto.
Qed.

End Keeping.

(** * The run as a whole *)

Section WholeRun.

Context (T : Types) (C : Collab T) (R : RegexpLib).

Implicit Types v : VerticalSplitDiffWorker T.

Lemma keeps_run {B} (f : VerticalSplitDiffWorker T -> B) sch :
  Untouched f ->
  (forall x v, f (set_keyspaceInfo x v) = f v) ->
  (forall x v, f (set_shardInfo x v) = f v) ->
  (forall x v, f (set_destinationAlias x v) = f v) ->
  (forall x v, f (set_sourceAlias x v) = f v) ->
  keeps f (run C R sch).
Proof.
  intros U Hk Hs Hd Ha. unfold run.
  repeat first
    [ apply (keeps_checkDone C U)
    | apply (keeps_init C U Hk Hs)
    | apply (keeps_findTargets C U Hd Ha)
    | apply (keeps_synchronizeReplication C U)
    | apply (keeps_diff C R U)
    | apply keeps_mapErr
    | apply keeps_ret
    | apply keeps_bind; [|intro] ].
Qed.

Lemma keeps_Run {B} (f : VerticalSplitDiffWorker T -> B) sch :
  Untouched f ->
  (forall x v, f (set_keyspaceInfo x v) = f v) ->
  (forall x v, f (set_shardInfo x v) = f v) ->
  (forall x v, f (set_destinationAlias x v) = f v) ->
  (forall x v, f (set_sourceAlias x v) = f v) ->
  keeps f (Run C R sch).
Proof.
  intros U Hk Hs Hd Ha. unfold Run, Errorf.
  repeat first
    [ apply (keeps_run sch U Hk Hs Hd Ha)
    | apply (keeps_SetState U)
    | apply (keeps_logf U)
    | apply (keeps_cleanerCleanUp C U)
    | apply keeps_attempt
    | apply keeps_ret | apply keeps_fail
    | match goal with
      | |- keeps _ (match ?x with _ => _ end) => destruct x
      end
    | apply keeps_bind; [|intro] ].
Qed.

Lemma keeps_snd {A B} (f : VerticalSplitDiffWorker T -> B) (m : M T A) v :
  keeps f m -> f (snd (m v)) = f v.
Proof. intros H. destruct (m v) as [r v'] eqn:E. exact (H _ _ _ E). Qed.

Lemma Untouched_settings : Untouched (settings (T := T)).
Proof. constructor; reflexivity. Qed.

Lemma Untouched_topology : Untouched (topology (T := T)).
Proof. constructor; reflexivity. Qed.

Lemma Untouched_targets : Untouched (targets (T := T)).
Proof. constructor; reflexivity. Qed.

(** What [Run] makes of the result of [run]. *)
Lemma Run_after_run sch v r0 v0 cerr w :
  run C R sch v = (r0, v0) ->
  r0 <> Panic ->
  CleanUp C (cleaner v0) (world v0) = (cerr, w) ->
  exists v',
    Run C R sch v
    = (match r0 with Err e => Err e | _ => resOfErr cerr end, v')
    /\ State v' = match r0, cerr with
                  | Ok _, None => WorkerStateDone
                  | _, _ => WorkerStateError
                  end
    /\ trace v' = trace v0 ++ [EvSetState WorkerStateCleanUp;
                              EvCleanUp (cleaner v0) cerr;
                              EvSetState (State v')]
    /\ cleaner v' = cleaner v0.
Proof.
  intros E0 Hp Hc. unfold Run.
  erewrite bind_run by (apply attempt_run; exact E0).
  destruct r0 as [[]|e|]; [| |congruence];
    prim; (erewrite bind_run by (apply cleanerCleanUp_run; fields; exact Hc));
    cbv beta iota; destruct cerr as [ce|]; repeat prim;
    eexists; (split; [reflexivity|]); fields; rewrite <- ?app_assoc; auto.
Qed.

(** [Run] takes the worker through its states in their order and
    never back: the states of the phases [run] entered, from Init on
    and with none left out, then CleanUp, then Done or Error, which is
    the state it returns in; Done when it returns nil, and in this case
    it has been through every phase. *)
Theorem Run_goes_through_the_states_in_order sch v :
  exists r v' l p,
    Run C R sch v = (r, v')
    /\ trace v' = trace v ++ l
    /\ states l = phaseStates p ++ [WorkerStateCleanUp; State v']
    /\ State v' = (if isNil r then WorkerStateDone else WorkerStateError)
    /\ (r = Ok tt -> p = PhaseDiff).
Proof.
  destruct (run_phases C R sch v) as (r0 & v0 & l0 & p & E0 & Ht0 & Hs0 & Hok & _).
  assert (Hp : r0 <> Panic).
  { destruct (run_outcome C R sch v) as (r1 & v1 & E1 & Hp1 & _). congruence. }
  answer (CleanUp C (cleaner v0) (world v0)) cerr w Hc.
  destruct (Run_after_run sch v E0 Hp Hc) as (v' & E & Hst & Ht & _).
  eexists _, v', (l0 ++ [EvSetState WorkerStateCleanUp; EvCleanUp (cleaner v0) cerr;
                         EvSetState (State v')]), p.
  split; [exact E|]. split; [rewrite Ht, Ht0; now rewrite app_assoc|].
  split; [rewrite states_app, Hs0; reflexivity|].
  rewrite Hst. destruct r0 as [[]|e|]; [| |congruence]; destruct cerr; cbn;
    (split; [reflexivity|]); intros H; try discriminate; auto.
Qed.


(** [Run] works on the cell, keyspace, shard and excluded tables
    it was created with: it never changes them. *)
Theorem Run_keeps_what_the_worker_was_created_with sch v :
  cell (snd (Run C R sch v)) = cell v
  /\ keyspace (snd (Run C R sch v)) = keyspace v
  /\ shard (snd (Run C R sch v)) = shard v
  /\ excludeTables (snd (Run C R sch v)) = excludeTables v.
Proof.
  assert (H : settings (snd (Run C R sch v)) = settings v).
  { apply keeps_snd. apply keeps_Run; auto using Untouched_settings. }
  unfold settings in H. injection H. auto.
Qed.

(** The keyspace and shard records are populated by [init] and
    read-only after it, and the aliases of the two tablets are populated
    by [findTargets] and read-only after it: no later phase, however it
    ends, and no cancellation check writes them. *)
Theorem records_and_targets_are_written_once sch v :
  (keyspaceInfo (snd (findTargets C v)) = keyspaceInfo v
   /\ shardInfo (snd (findTargets C v)) = shardInfo v)
  /\ (keyspaceInfo (snd (synchronizeReplication C v)) = keyspaceInfo v
      /\ shardInfo (snd (synchronizeReplication C v)) = shardInfo v
      /\ destinationAlias (snd (synchronizeReplication C v)) = destinationAlias v
      /\ sourceAlias (snd (synchronizeReplication C v)) = sourceAlias v)
  /\ (keyspaceInfo (snd (diff C R sch v)) = keyspaceInfo v
      /\ shardInfo (snd (diff C R sch v)) = shardInfo v
      /\ destinationAlias (snd (diff C R sch v)) = destinationAlias v
      /\ sourceAlias (snd (diff C R sch v)) = sourceAlias v)
  /\ (keyspaceInfo (snd (checkDone_ C v)) = keyspaceInfo v
      /\ shardInfo (snd (checkDone_ C v)) = shardInfo v
      /\ destinationAlias (snd (checkDone_ C v)) = destinationAlias v
      /\ sourceAlias (snd (checkDone_ C v)) = sourceAlias v).
Proof.
  assert (H1 : topology (snd (findTargets C v)) = topology v).
  { apply keeps_snd. apply keeps_findTargets; auto using Untouched_topology. }
  assert (H2 : topology (snd (synchronizeReplication C v)) = topology v).
  { apply keeps_snd. apply keeps_synchronizeReplication, Untouched_topology. }
  assert (H3 : targets (snd (synchronizeReplication C v)) = targets v).
  { apply keeps_snd. apply keeps_synchronizeReplication, Untouched_targets. }
  assert (H4 : topology (snd (diff C R sch v)) = topology v).
  { apply keeps_snd. apply keeps_diff, Untouched_topology. }
  assert (H5 : targets (snd (diff C R sch v)) = targets v).
  { apply keeps_snd. apply keeps_diff, Untouched_targets. }
  assert (H6 : topology (snd (checkDone_ C v)) = topology v).
  { apply keeps_snd. apply keeps_checkDone, Untouched_topology. }
  assert (H7 : targets (snd (checkDone_ C v)) = targets v).
  { apply keeps_snd. apply keeps_checkDone, Untouched_targets. }
  unfold topology, targets in *.
  injection H1. injection H2. injection H3. injection H4. injection H5.
  injection H6. injection H7. intros. repeat split; assumption.
Qed.

(** Once [Run] has returned, the status in both renderings names
    the keyspace and the shard the worker was created with and the
    terminal state, and is marked as a success exactly when [Run]
    returned nil; it is not marked as running. *)
Theorem status_after_Run stateString sch v :
  StatusAsText stateString (snd (Run C R sch v))
  = (if isNil (fst (Run C R sch v)) then
       (("Working on: " ++ keyspace v ++ "/" ++ shard v ++ newline)
        ++ ("State: " ++ stateString WorkerStateDone ++ newline))
       ++ ("Success." ++ newline)
     else
       ("Working on: " ++ keyspace v ++ "/" ++ shard v ++ newline)
       ++ ("State: " ++ stateString WorkerStateError ++ newline))%string
  /\ StatusAsHTML stateString (snd (Run C R sch v))
     = (if isNil (fst (Run C R sch v)) then
          (("<b>Working on:</b> " ++ keyspace v ++ "/" ++ shard v ++ "</br>" ++ newline)
           ++ ("<b>State:</b> " ++ stateString WorkerStateDone ++ "</br>" ++ newline))
          ++ ("<b>Success</b>:</br>" ++ newline)
        else
          ("<b>Working on:</b> " ++ keyspace v ++ "/" ++ shard v ++ "</br>" ++ newline)
          ++ ("<b>State:</b> " ++ stateString WorkerStateError ++ "</br>"
              ++ newline))%string.
Proof.
  assert (H : settings (snd (Run C R sch v)) = settings v).
  { apply keeps_snd. apply keeps_Run; auto using Untouched_settings. }
  unfold settings in H. injection H as _ Hsh Hks _.
  destruct (run_outcome C R sch v) as (r0 & v0 & E0 & Hp & _).
  answer (CleanUp C (cleaner v0) (world v0)) cerr w Hc.
  destruct (Run_after_run sch v E0 Hp Hc) as (v' & E & Hst & _).
  rewrite E in *. cbn [fst snd] in *.
  unfold StatusAsText, StatusAsHTML. rewrite Hks, Hsh, Hst.
  destruct r0 as [[]|e|]; [| |congruence]; destruct cerr; cbn [isNil resOfErr]; auto.
Qed.

End WholeRun.

(** * More of the table goroutines and of the filters *)

Section Siblings.

Context (T : Types) (C : Collab T) (R : RegexpLib).

Implicit Types v : VerticalSplitDiffWorker T.


(** The filters are compiled in their order and the first that
    does not compile ends the loop: the error names it, and the filters
    before it all compiled. *)
Theorem the_first_bad_filter_is_reported tables e :
  compileTableRegexps R tables = Error e ->
  exists before table after err,
    tables = before ++ table :: after
    /\ Forall (fun t => exists re, Compile R t = Value re) before
    /\ Compile R table = Error err
    /\ e = ("cannot compile regexp " ++ table ++ " for table: " ++ err)%string.
Proof.
  induction tables as [|table tables IH]; cbn; intros H; [discriminate|].
  destruct (Compile R table) as [re|err] eqn:Ec.
  - destruct (compileTableRegexps R tables) as [res'|e']; [discriminate|].
    injection H as ->.
    destruct (IH eq_refl) as (before & t & after & err & -> & Hb & Hc & He).
    exists (table :: before), t, after, err.
    split; [reflexivity|]. split; [|auto]. constructor; eauto.
  - injection H as <-. exists [], table, tables, err. repeat split; auto.
Qed.

End Siblings.

(** * The statements at work on a small cluster *)

(** The worker [Demo.worker] on the clusters of [Demo], with the filters
    compiled by [goRegexp]. *)

Lemma init_succeeds_iff_preconditions_witness :
  exists r v',
    init Demo.C (Demo.worker (Demo.healthy [] [])) = (r, v')
    /\ (r = Ok tt <->
        ServedFroms Demo.keyspaceRecord <> [] /\ Tables Demo.sourceShard <> []
        /\ IsZero Demo.C (MasterAlias Demo.shardRecord) = false)
    /\ (ServedFroms Demo.keyspaceRecord = [] ->
        r = Err ("keyspace " ++ keyspace (Demo.worker (Demo.healthy [] []))
                 ++ " has no KeyspaceServedFrom")%string)
    /\ (ServedFroms Demo.keyspaceRecord <> [] -> Tables Demo.sourceShard = [] ->
        r = Err ("shard " ++ keyspace (Demo.worker (Demo.healthy [] [])) ++ "/"
                 ++ shard (Demo.worker (Demo.healthy [] []))
                 ++ " has no tables in source shard[0]")%string)
    /\ (ServedFroms Demo.keyspaceRecord <> [] -> Tables Demo.sourceShard <> [] ->
        IsZero Demo.C (MasterAlias Demo.shardRecord) = true ->
        r = Err ("shard " ++ keyspace (Demo.worker (Demo.healthy [] [])) ++ "/"
                 ++ shard (Demo.worker (Demo.healthy [] [])) ++ " has no master")%string)
    /\ cleaner v' = cleaner (Demo.worker (Demo.healthy [] [])).
Proof.
  apply (@init_succeeds_iff_preconditions Demo.T Demo.C
           (Demo.worker (Demo.healthy [] [])) Demo.keyspaceRecord
           (Demo.healthy [] []) Demo.shardRecord (Demo.healthy [] [])
           Demo.sourceShard); reflexivity.
Defined.

Lemma cancellation_after_findTargets_witness :
  exists v' cerr w3,
    Run Demo.C goRegexp Demo.inOrder (Demo.worker Demo.cancelled)
    = (Err "context canceled"%string, v')
    /\ CleanUp Demo.C (cleaner (Demo.afterTargets Demo.cancelled))
         (world (Demo.polled (Demo.afterTargets Demo.cancelled)))
       = (cerr, w3)
    /\ trace v'
       = trace (Demo.worker Demo.cancelled)
           ++ [EvSetState WorkerStateInit;
               EvSetState WorkerStateFindTargets;
               EvSetState WorkerStateCleanUp;
               EvCleanUp (cleaner (Demo.afterTargets Demo.cancelled)) cerr;
               EvSetState WorkerStateError]
    /\ State v' = WorkerStateError.
Proof.
  apply (@cancellation_after_findTargets Demo.T Demo.C goRegexp Demo.inOrder
           (Demo.worker Demo.cancelled)
           (Demo.afterInit Demo.cancelled)
           (world (Demo.polled (Demo.afterInit Demo.cancelled)))
           (Demo.afterTargets Demo.cancelled)
           "context canceled"%string
           (world (Demo.polled (Demo.afterTargets Demo.cancelled))));
    vm_compute; reflexivity.
Defined.

Lemma barrier_stops_at_or_beyond_witness :
  exists si ss mi blp pos st stoppedAt masterPos dt d,
    shardInfo (Demo.polled (Demo.afterTargets (Demo.healthy [] []))) = Some si
    /\ nth_error (SourceShards si) 0 = Some ss
    /\ FindBlpPositionById blp (Uid ss) = Some pos
    /\ trace (Demo.afterBarrier (Demo.healthy [] []))
       = trace (Demo.polled (Demo.afterTargets (Demo.healthy [] [])))
           ++ barrierTrace (Demo.polled (Demo.afterTargets (Demo.healthy [] [])))
                si ss mi blp pos st stoppedAt masterPos dt d
           ++ [EvStartBlp mi None]
    /\ AtLeast Demo.C stoppedAt (bpPosition pos) = true
    /\ AtLeast Demo.C d masterPos = true.
Proof.
  apply (@barrier_stops_at_or_beyond Demo.T Demo.C
           (Demo.polled (Demo.afterTargets (Demo.healthy [] [])))
           (Demo.afterBarrier (Demo.healthy [] []))).
  - intros t p w p' w' H. cbn in H. injection H as <- _.
    cbn. apply Z.leb_le. lia.
  - vm_compute. reflexivity.
Defined.



Lemma schema_mismatch_stays_in_result_witness :
  map fst (tasks (Demo.afterDiff Demo.uneven))
  = TableDefinitions (Demo.schemaOf ["user"; "user_extra"]%string)
  /\ (forall j td pc,
         nth_error (tasks (Demo.afterDiff Demo.uneven)) j = Some (td, pc) ->
         exists result, pc = Returned result)
  /\ In (schemaVerdict
           (DiffSchema Demo.C (Demo.schemaOf ["user"; "user_extra"]%string)
              {| TableDefinitions :=
                   keptTables goRegexp Demo.filters
                     (TableDefinitions (Demo.schemaOf ["user"; "orders"]%string)) |}))
        (logs (Demo.afterDiff Demo.uneven))
  /\ (DiffSchema Demo.C (Demo.schemaOf ["user"; "user_extra"]%string)
        {| TableDefinitions :=
             keptTables goRegexp Demo.filters
               (TableDefinitions (Demo.schemaOf ["user"; "orders"]%string)) |} <> [] ->
      fst (schemaVerdict
             (DiffSchema Demo.C (Demo.schemaOf ["user"; "user_extra"]%string)
                {| TableDefinitions :=
                     keptTables goRegexp Demo.filters
                       (TableDefinitions (Demo.schemaOf ["user"; "orders"]%string)) |}))
      = WARNING)
  /\ (forall e,
         In e (DiffSchema Demo.C (Demo.schemaOf ["user"; "user_extra"]%string)
                 {| TableDefinitions :=
                      keptTables goRegexp Demo.filters
                        (TableDefinitions (Demo.schemaOf ["user"; "orders"]%string)) |}) ->
         In e (rec (Demo.afterDiff Demo.uneven)))
  /\ (DiffSchema Demo.C (Demo.schemaOf ["user"; "user_extra"]%string)
        {| TableDefinitions :=
             keptTables goRegexp Demo.filters
               (TableDefinitions (Demo.schemaOf ["user"; "orders"]%string)) |} <> [] ->
      exists e, fst (diff Demo.C goRegexp Demo.inOrder (Demo.atDiff Demo.uneven)) = Err e).
Proof.
  apply (@schema_mismatch_stays_in_result Demo.T Demo.C goRegexp Demo.inOrder
           (Demo.atDiff Demo.uneven)
           (fst (diff Demo.C goRegexp Demo.inOrder (Demo.atDiff Demo.uneven)))
           (Demo.afterDiff Demo.uneven)
           (Demo.eventsSince (Demo.atDiff Demo.uneven) (Demo.afterDiff Demo.uneven))
           (Demo.schemaOf ["user"; "user_extra"]%string)
           (Demo.schemaOf ["user"; "orders"]%string)
           Demo.shardRecord Demo.sourceShard Demo.filters).
  - vm_compute. reflexivity.
  - vm_compute. reflexivity.
  - vm_compute. right. left. reflexivity.
  - vm_compute. do 2 right. left. reflexivity.
  - vm_compute. reflexivity.
  - vm_compute. reflexivity.
  - vm_compute. reflexivity.
Defined.



(** On [Demo.uneven] the schema check reports a table the source does not
    have; every table checks out, and [diff] fails all the same. *)

Lemma uneven_tables_check_out :
  map snd (tasks (snd (diff Demo.C goRegexp Demo.inOrder (Demo.atDiff Demo.uneven))))
  = [Returned (ChecksOut ((10, 0)%Z : DiffReport Demo.T));
     Returned (ChecksOut ((10, 0)%Z : DiffReport Demo.T))].
Proof. vm_compute. reflexivity. Qed.

Lemma uneven_diff_fails :
  fst (diff Demo.C goRegexp Demo.inOrder (Demo.atDiff Demo.uneven))
  = Err "destination has an extra table named user_extra"%string.
Proof. vm_compute. reflexivity. Qed.

Lemma uneven_schemas :
  destinationSchemaDefinition
    (snd (diff Demo.C goRegexp Demo.inOrder (Demo.atDiff Demo.uneven)))
  = Some (Demo.schemaOf ["user"; "user_extra"]%string)
  /\ sourceSchemaDefinition
       (snd (diff Demo.C goRegexp Demo.inOrder (Demo.atDiff Demo.uneven)))
     = Some (Demo.schemaOf ["user"]%string)
  /\ rec (snd (diff Demo.C goRegexp Demo.inOrder (Demo.atDiff Demo.uneven)))
     = ["destination has an extra table named user_extra"%string].
Proof. vm_compute. auto. Qed.


Lemma schemaMismatchOnlyWarns_counterexample :
  ~ schemaMismatchOnlyWarns Demo.C goRegexp Demo.inOrder (Demo.atDiff Demo.uneven).
Proof.
  unfold schemaMismatchOnlyWarns. cbv zeta.
  generalize uneven_schemas.
  generalize (diff Demo.C goRegexp Demo.inOrder (Demo.atDiff Demo.uneven)).
  intros p (Hd & Hs & Hr) H.
  apply (H _ _ Hd Hs "destination has an extra table named user_extra"%string).
  - vm_compute. left. reflexivity.
  - rewrite Hr. left. reflexivity.
Qed.

(** More of the statements on the same clusters. *)

Lemma init_rejects_unusable_topology_witness :
  exists r v',
    init Demo.C (Demo.worker (Demo.healthy [] [])) = (r, v')
    /\ keyspaceInfo v' = Some Demo.keyspaceRecord
    /\ shardInfo v' = Some Demo.shardRecord
    /\ world v' = Demo.healthy [] [].
Proof.
  destruct (@init_rejects_unusable_topology Demo.T Demo.C
              (Demo.worker (Demo.healthy [] []))
              (Value Demo.keyspaceRecord) (Demo.healthy [] [])
              (Value Demo.shardRecord) (Demo.healthy [] [])
              eq_refl eq_refl)
    as (r & v' & E & Hk & _ & _ & Hs & _).
  exists r, v'. split; [exact E|]. split; [exact Hk|].
  destruct (Hs Demo.keyspaceRecord eq_refl) as (Hw & Hsi).
  - discriminate.
  - auto.
Defined.

Lemma findTargets_registers_each_selected_tablet_witness :
  exists r v',
    findTargets Demo.C (Demo.polled (Demo.afterInit (Demo.healthy [] []))) = (r, v')
    /\ r = Ok tt
    /\ world v' = world (Demo.afterTargets (Demo.healthy [] []))
    /\ destinationAlias v' = "dest/0"%string
    /\ sourceAlias v' = "src/0"%string
    /\ cleaner v'
       = cleaner (Demo.polled (Demo.afterInit (Demo.healthy [] [])))
           ++ [ {| name := ChangeSlaveTypeActionName;
                   target := aliasString Demo.C ("dest/0"%string : TabletAlias Demo.T);
                   action := ChangeSlaveTypeAction
                               ("dest/0"%string : TabletAlias Demo.T) TYPE_RDONLY |};
                {| name := ChangeSlaveTypeActionName;
                   target := aliasString Demo.C ("src/0"%string : TabletAlias Demo.T);
                   action := ChangeSlaveTypeAction
                               ("src/0"%string : TabletAlias Demo.T) TYPE_RDONLY |} ].
Proof.
  apply (@findTargets_registers_each_selected_tablet Demo.T Demo.C
           (Demo.polled (Demo.afterInit (Demo.healthy [] [])))
           Demo.shardRecord Demo.sourceShard
           (Value ("dest/0"%string : TabletAlias Demo.T))
           (world (Demo.polled (Demo.afterInit (Demo.healthy [] []))))
           (Value ("src/0"%string : TabletAlias Demo.T))
           (world (Demo.afterTargets (Demo.healthy [] []))));
    vm_compute; reflexivity.
Defined.

Lemma barrier_turns_the_cleaner_to_spare_and_restart_witness :
  exists si mi st dt,
    shardInfo (Demo.polled (Demo.afterTargets (Demo.healthy [] []))) = Some si
    /\ In (EvGetTablet (MasterAlias si) (Value mi))
          (trace (Demo.afterBarrier (Demo.healthy [] [])))
    /\ In (EvGetTablet (sourceAlias (Demo.polled (Demo.afterTargets (Demo.healthy [] []))))
             (Value st))
          (trace (Demo.afterBarrier (Demo.healthy [] [])))
    /\ In (EvGetTablet
             (destinationAlias (Demo.polled (Demo.afterTargets (Demo.healthy [] []))))
             (Value dt))
          (trace (Demo.afterBarrier (Demo.healthy [] [])))
    /\ (forall t,
           registered (cleaner (Demo.afterBarrier (Demo.healthy [] [])))
             StartSlaveActionName t
           = registered (cleaner (Demo.polled (Demo.afterTargets (Demo.healthy [] []))))
               StartSlaveActionName t
             + (if String.eqb (aliasString Demo.C (Alias Demo.C st)) t then 1 else 0)
             + (if String.eqb (aliasString Demo.C (Alias Demo.C dt)) t then 1 else 0))
    /\ restoresTo (cleaner (Demo.afterBarrier (Demo.healthy [] [])))
         (aliasString Demo.C
            (sourceAlias (Demo.polled (Demo.afterTargets (Demo.healthy [] [])))))
       = Some TYPE_SPARE
    /\ restoresTo (cleaner (Demo.afterBarrier (Demo.healthy [] [])))
         (aliasString Demo.C
            (destinationAlias (Demo.polled (Demo.afterTargets (Demo.healthy [] [])))))
       = Some TYPE_SPARE
    /\ (forall t,
           registered (cleaner (Demo.afterBarrier (Demo.healthy [] [])))
             ChangeSlaveTypeActionName t
           = registered (cleaner (Demo.polled (Demo.afterTargets (Demo.healthy [] []))))
               ChangeSlaveTypeActionName t)
    /\ (aliasString Demo.C (Alias Demo.C mi) = aliasString Demo.C (MasterAlias si) ->
        registered (cleaner (Demo.afterBarrier (Demo.healthy [] [])))
          StartBlpActionName (aliasString Demo.C (MasterAlias si))
        = registered (cleaner (Demo.polled (Demo.afterTargets (Demo.healthy [] []))))
            StartBlpActionName (aliasString Demo.C (MasterAlias si))).
Proof.
  apply (@barrier_turns_the_cleaner_to_spare_and_restart Demo.T Demo.C
           (Demo.polled (Demo.afterTargets (Demo.healthy [] [])))
           (Demo.afterBarrier (Demo.healthy [] []))).
  vm_compute. reflexivity.
Defined.

Lemma every_stop_has_its_restart_registered_witness :
  (forall mi blp,
      In (EvStopBlp mi (Value blp))
         (Demo.eventsSince (Demo.polled (Demo.afterTargets Demo.stalled))
            (Demo.afterBarrier Demo.stalled)) ->
      (forall res,
          ~ In (EvStartBlp mi res)
              (Demo.eventsSince (Demo.polled (Demo.afterTargets Demo.stalled))
                 (Demo.afterBarrier Demo.stalled))) ->
      1 <= registered (cleaner (Demo.afterBarrier Demo.stalled)) StartBlpActionName
             (aliasString Demo.C (Alias Demo.C mi)))
  /\ (forall t p q,
         In (EvStopSlaveMinimum t p (Value q))
            (Demo.eventsSince (Demo.polled (Demo.afterTargets Demo.stalled))
               (Demo.afterBarrier Demo.stalled)) ->
         1 <= registered (cleaner (Demo.afterBarrier Demo.stalled))
                StartSlaveActionName (aliasString Demo.C (Alias Demo.C t))).
Proof.
  apply (@every_stop_has_its_restart_registered Demo.T Demo.C
           (Demo.polled (Demo.afterTargets Demo.stalled))
           (fst (synchronizeReplication Demo.C
                   (Demo.polled (Demo.afterTargets Demo.stalled))))
           (Demo.afterBarrier Demo.stalled)
           (Demo.eventsSince (Demo.polled (Demo.afterTargets Demo.stalled))
              (Demo.afterBarrier Demo.stalled)));
    vm_compute; reflexivity.
Defined.

Lemma failed_fetch_ends_diff_with_every_error_witness :
  exists e v',
    diff Demo.offline goRegexp Demo.inOrder (Demo.atDiff Demo.splitTables) = (Err e, v')
    /\ AllErrorRecorder.Error
         (fetchErrors
            (fetchEvents (T := Demo.T) Demo.inOrder
               (Value (Demo.schemaOf ["user"; "user_extra"]%string))
               (Error "tablet unreachable"%string)))
       = Some e
    /\ trace v'
       = trace (Demo.atDiff Demo.splitTables)
           ++ EvSetState WorkerStateDiff
              :: fetchEvents Demo.inOrder
                   (Value (Demo.schemaOf ["user"; "user_extra"]%string))
                   (Error "tablet unreachable"%string)
    /\ world v' = world (Demo.atDiff Demo.splitTables)
    /\ tasks v' = []
    /\ cleaner v' = cleaner (Demo.atDiff Demo.splitTables).
Proof.
  apply (@failed_fetch_ends_diff_with_every_error Demo.T Demo.offline goRegexp
           Demo.inOrder (Demo.atDiff Demo.splitTables)
           (Value (Demo.schemaOf ["user"; "user_extra"]%string))
           (Error "tablet unreachable"%string)
           (world (Demo.atDiff Demo.splitTables))).
  - vm_compute. reflexivity.
  - right. discriminate.
Defined.

Lemma diff_returns_under_every_schedule_witness :
  exists r v',
    diff Demo.C goRegexp Demo.inOrder (Demo.atDiff Demo.splitTables) = (r, v')
    /\ r <> Panic
    /\ pending (tasks v') = 0.
Proof.
  apply (@diff_returns_under_every_schedule Demo.T Demo.C goRegexp Demo.inOrder
           (Demo.atDiff Demo.splitTables) Demo.shardRecord Demo.sourceShard);
    vm_compute; reflexivity.
Defined.



Lemma the_first_bad_filter_is_reported_witness :
  exists before table after err,
    ["user"; "a(b"; "c"]%string = before ++ table :: after
    /\ Forall (fun t => exists re, Compile goRegexp t = Value re) before
    /\ Compile goRegexp table = Error err
    /\ ("cannot compile regexp a(b for table: error parsing regexp: missing closing ): `a(b`")%string
       = ("cannot compile regexp " ++ table ++ " for table: " ++ err)%string.
Proof.
  apply (@the_first_bad_filter_is_reported goRegexp ["user"; "a(b"; "c"]%string).
  vm_compute. reflexivity.
Defined.
